(** * A single-level time wheel over a slot arena (timer_pool/timer_mgr.h)

    Shallow embedding of [TimerMgr<TimerDataType>]: the header, the bucket
    array and the slot array are explicit values, every member function is
    a state-passing function, and the two clock reads ([gettimeofday],
    [time]) are an explicit argument [now].  The virtual hook [OnTimeout]
    is a state transformer on the manager, so that a callback which calls
    back into [DelTimer] or [AddTimer] is expressible.  [error_msg_] is a
    diagnostic buffer and is left out. *)

From Stdlib Require Import ZArith Lia Bool.
From stdpp Require Import base tactics option list numbers.

Local Open Scope Z_scope.

(** ** Machine integers *)

Definition kTimerBucketNum : Z := 60.

Definition u32 (z : Z) : Z := z mod 2^32.
Definition u64 (z : Z) : Z := z mod 2^64.
(** conversion to [int] (two's complement, 32 bits) *)
Definition to_int (z : Z) : Z := (z + 2^31) mod 2^32 - 2^31.

(** ** [union TimerID]: [id] overlays [{pos; seq}], little endian *)

Definition mk_id (pos seq : Z) : Z := u32 pos + 2^32 * u32 seq.
Definition id_pos (id : Z) : Z := id mod 2^32.
Definition id_seq (id : Z) : Z := (id / 2^32) mod 2^32.

Section Model.

Context {TimerDataType : Type} `{!Inhabited TimerDataType}.

(** ** Data model *)

Record TimerObj := mkObj {
  prev : nat;
  next : nat;
  used : Z;
  interval_ms : Z;
  max_fire_count : Z;
  fire_count : Z;
  expire : Z;           (* stored as int64_t, always read back as uint64_t *)
  timer_id : Z;         (* timer_id_obj.id *)
  timer_data : TimerDataType
}.

Record TimerHead := mkHead {
  max_size : Z;
  data_size : Z;
  max_num : nat;
  used_num : Z;
  cur_bucket_pos : Z;
  cur_bucket_time : Z;
  free_head : nat;
  seq : Z
}.

Record TimerMgr := mkMgr {
  timer_head_ : TimerHead;
  timer_bucket_ : list nat;        (* TimerBucket.head *)
  timer_obj_ : list TimerObj
}.

#[global] Instance TimerObj_inhabited : Inhabited TimerObj :=
  populate (mkObj 0 0 0 0 0 0 0 0 inhabitant).

(** field writes *)
Definition set_prev (v : nat) (o : TimerObj) : TimerObj :=
  mkObj v (next o) (used o) (interval_ms o) (max_fire_count o) (fire_count o)
        (expire o) (timer_id o) (timer_data o).
Definition set_next (v : nat) (o : TimerObj) : TimerObj :=
  mkObj (prev o) v (used o) (interval_ms o) (max_fire_count o) (fire_count o)
        (expire o) (timer_id o) (timer_data o).
Definition set_used (v : Z) (o : TimerObj) : TimerObj :=
  mkObj (prev o) (next o) v (interval_ms o) (max_fire_count o) (fire_count o)
        (expire o) (timer_id o) (timer_data o).
Definition set_interval_ms (v : Z) (o : TimerObj) : TimerObj :=
  mkObj (prev o) (next o) (used o) v (max_fire_count o) (fire_count o)
        (expire o) (timer_id o) (timer_data o).
Definition set_max_fire_count (v : Z) (o : TimerObj) : TimerObj :=
  mkObj (prev o) (next o) (used o) (interval_ms o) v (fire_count o)
        (expire o) (timer_id o) (timer_data o).
Definition set_fire_count (v : Z) (o : TimerObj) : TimerObj :=
  mkObj (prev o) (next o) (used o) (interval_ms o) (max_fire_count o) v
        (expire o) (timer_id o) (timer_data o).
Definition set_expire (v : Z) (o : TimerObj) : TimerObj :=
  mkObj (prev o) (next o) (used o) (interval_ms o) (max_fire_count o) (fire_count o)
        v (timer_id o) (timer_data o).
Definition set_timer_id (v : Z) (o : TimerObj) : TimerObj :=
  mkObj (prev o) (next o) (used o) (interval_ms o) (max_fire_count o) (fire_count o)
        (expire o) v (timer_data o).
Definition set_timer_data (v : TimerDataType) (o : TimerObj) : TimerObj :=
  mkObj (prev o) (next o) (used o) (interval_ms o) (max_fire_count o) (fire_count o)
        (expire o) (timer_id o) v.

Definition set_used_num (v : Z) (h : TimerHead) : TimerHead :=
  mkHead (max_size h) (data_size h) (max_num h) v (cur_bucket_pos h)
         (cur_bucket_time h) (free_head h) (seq h).
Definition set_free_head (v : nat) (h : TimerHead) : TimerHead :=
  mkHead (max_size h) (data_size h) (max_num h) (used_num h) (cur_bucket_pos h)
         (cur_bucket_time h) v (seq h).
Definition set_seq (v : Z) (h : TimerHead) : TimerHead :=
  mkHead (max_size h) (data_size h) (max_num h) (used_num h) (cur_bucket_pos h)
         (cur_bucket_time h) (free_head h) v.
Definition set_cur (pos time : Z) (h : TimerHead) : TimerHead :=
  mkHead (max_size h) (data_size h) (max_num h) (used_num h) pos
         time (free_head h) (seq h).

(** [timer_obj_[p]], [timer_bucket_[b].head]; an index outside the array
    (undefined behaviour in the source) reads as the zero object and
    writes nothing. *)
Definition obj (st : TimerMgr) (p : nat) : TimerObj := timer_obj_ st !!! p.
Definition bucket_head (st : TimerMgr) (b : nat) : nat := timer_bucket_ st !!! b.

Definition upd_obj (p : nat) (f : TimerObj → TimerObj) (st : TimerMgr) : TimerMgr :=
  mkMgr (timer_head_ st) (timer_bucket_ st)
        (<[p := f (obj st p)]> (timer_obj_ st)).
Definition upd_bucket (b : nat) (h : nat) (st : TimerMgr) : TimerMgr :=
  mkMgr (timer_head_ st) (<[b := h]> (timer_bucket_ st)) (timer_obj_ st).
Definition upd_head (f : TimerHead → TimerHead) (st : TimerMgr) : TimerMgr :=
  mkMgr (f (timer_head_ st)) (timer_bucket_ st) (timer_obj_ st).

(** [expire % kTimerBucketNum], the operand converted to [size_t] *)
Definition bucket_of (e : Z) : nat := Z.to_nat (u64 e mod kTimerBucketNum).

(** ** Slot arena: [AllocNode], [FreeNode] *)

Definition AllocNode (st : TimerMgr) : nat * TimerMgr :=
  let h := timer_head_ st in
  if (0 <? free_head h)%nat && (used_num h <=? Z.of_nat (max_num h)) then
    let position := free_head h in
    let st := upd_head (set_free_head (next (obj st position))) st in
    let st := upd_head (fun h => set_used_num (u64 (used_num h + 1)) h) st in
    let st := upd_obj position (set_used 1) st in
    let st := upd_obj position (set_prev 0) st in
    let st := upd_obj position (set_next 0) st in
    (position, st)
  else (0%nat, st).

Definition FreeNode (position : nat) (st : TimerMgr) : TimerMgr :=
  let st := upd_obj position (set_used 0) st in
  let st := upd_obj position (set_prev 0) st in
  let st := upd_obj position (set_next (free_head (timer_head_ st))) st in
  let st := upd_head (set_free_head position) st in
  upd_head (fun h => set_used_num (u64 (used_num h - 1)) h) st.

(** ** [Init(void* mem, max_size, timer_num, fresh)]

    [mem] is the caller's buffer seen through the layout for [timer_num]
    slots ([None] is the null pointer); the [sizeof] values of the LP64
    layout enter through [TotalMemSize]. *)

Variable sizeof_TimerDataType : Z.
Variable sizeof_TimerObj : Z.
Definition sizeof_TimerHead : Z := 64.
Definition sizeof_TimerBucket : Z := 8.

Definition TotalMemSize (timer_num : nat) : Z :=
  sizeof_TimerHead + sizeof_TimerBucket * kTimerBucketNum
  + (Z.of_nat timer_num + 1) * sizeof_TimerObj.

(** [for (i = timer_num; i > 0; i--)]: thread slot [i] onto the free list *)
Fixpoint init_free (i : nat) (st : TimerMgr) : TimerMgr :=
  match i with
  | O => st
  | S j =>
      let st := upd_obj i (set_prev 0) st in
      let st := upd_obj i (set_next (free_head (timer_head_ st))) st in
      let st := upd_head (set_free_head i) st in
      init_free j st
  end.

Definition zero_buckets (st : TimerMgr) : TimerMgr :=
  foldl (fun st i => upd_bucket i 0 st) st (List.seq 0 (Z.to_nat kTimerBucketNum)).

Definition Init (mem : option TimerMgr) (size : Z) (timer_num : nat)
    (fresh : bool) (now : Z) : Z * option TimerMgr :=
  match mem with
  | None => (-1, None)
  | Some m =>
    if size <? TotalMemSize timer_num then (-1, None)
    else if fresh then
      let t := u64 now in
      let h := mkHead size sizeof_TimerDataType timer_num 0
                      (t mod kTimerBucketNum) t 0 (u32 now) in
      let st := mkMgr h (timer_bucket_ m) (timer_obj_ m) in
      let st := zero_buckets st in
      (0, Some (init_free timer_num st))
    else
      let h := timer_head_ m in
      if negb (max_size h =? size) then (-1, None)
      else if negb (data_size h =? sizeof_TimerDataType) then (-2, None)
      else if negb (max_num h =? timer_num)%nat then (-3, None)
      else (0, Some m)
  end.

(** [Init(key_t key, timer_num)]: with [key == 0] a buffer of
    [TotalMemSize(timer_num)] bytes is allocated ([alloc] is what the
    allocation happens to contain) and initialised fresh; the shared-memory
    branch is a TODO in the source and falls through to [return 0] with
    nothing attached. *)
Definition InitKey (key : Z) (alloc : TimerMgr) (timer_num : nat) (now : Z)
    : Z * option TimerMgr :=
  if key =? 0 then Init (Some alloc) (TotalMemSize timer_num) timer_num true now
  else (0, None).

(** [Size()], [Capacity()] *)
Definition Size (st : TimerMgr) : Z := used_num (timer_head_ st).
Definition Capacity (st : TimerMgr) : nat := max_num (timer_head_ st).

(** ** Bucket linkage shared by [AddTimer] and the re-arm branch of [Update] *)

Definition link_front (b : nat) (position : nat) (st : TimerMgr) : TimerMgr :=
  let st := upd_obj position (set_prev 0) st in
  let st := upd_obj position (set_next (bucket_head st b)) st in
  let st := if (0 <? bucket_head st b)%nat
            then upd_obj (bucket_head st b) (set_prev position) st else st in
  upd_bucket b position st.

(** ** [AddTimer] *)

Definition AddTimer (now : Z) (interval fire_cnt : Z) (data : TimerDataType)
    (st : TimerMgr) : Z * option Z * TimerMgr :=
  if (interval <=? 0) || (interval >? kTimerBucketNum) || (fire_cnt <? 0)
  then (-1, None, st)
  else
    let expire_time := u64 (now + interval) in
    if expire_time <? cur_bucket_time (timer_head_ st) then (-1, None, st)
    else
      let '(position, st) := AllocNode st in
      if (position =? 0)%nat then (-2, None, st)
      else
        let s := seq (timer_head_ st) in
        let st := upd_obj position
                    (set_timer_id (mk_id (Z.of_nat position) s)) st in
        let st := upd_head (set_seq (u32 (s + 1))) st in
        let st := upd_obj position (set_interval_ms interval) st in
        let st := upd_obj position (set_expire expire_time) st in
        let st := upd_obj position (set_max_fire_count fire_cnt) st in
        let st := upd_obj position (set_fire_count 0) st in
        let st := upd_obj position (set_timer_data data) st in
        let st := link_front (bucket_of (expire (obj st position))) position st in
        (0, Some (timer_id (obj st position)), st).

(** ** [DelTimer] *)

(** the search loop of [DelTimer]; it does not change the state, so a walk
    that is still running after as many steps as there are slots has
    entered a cycle: [None] stands for the loop that never ends *)
Fixpoint find_node (fuel : nat) (id : Z) (nxt : nat) (st : TimerMgr) : option nat :=
  match fuel with
  | O => None
  | S f =>
      if (0 <? nxt)%nat then
        if timer_id (obj st nxt) =? id then Some nxt
        else find_node f id (next (obj st nxt)) st
      else Some nxt
  end.

Definition unlink_del (b : nat) (nxt : nat) (st : TimerMgr) : TimerMgr :=
  let st := if (prev (obj st nxt) =? 0)%nat
            then upd_bucket b (next (obj st nxt)) st
            else upd_obj (prev (obj st nxt)) (set_next (next (obj st nxt))) st in
  if (0 <? next (obj st nxt))%nat
  then upd_obj (next (obj st nxt)) (set_prev (prev (obj st nxt))) st
  else st.

Definition DelTimer (id : Z) (st : TimerMgr) : option (Z * TimerMgr) :=
  let pos := id_pos id in
  if (pos <=? 0) || (pos >? Z.of_nat (max_num (timer_head_ st))) then Some (-1, st)
  else
    let o := obj st (Z.to_nat pos) in
    if negb (timer_id o =? id) || (used o =? 0) then Some (-1, st)
    else
      let b := bucket_of (expire o) in
      match find_node (length (timer_obj_ st)) id (bucket_head st b) st with
      | None => None
      | Some nxt =>
          if (0 <? nxt)%nat then
            let st := unlink_del b nxt st in
            Some (0, FreeNode nxt st)
          else Some (-1, st)
      end.

(** ** [GetExpireTime] *)

Definition GetExpireTime (id : Z) (st : TimerMgr) : Z * option Z :=
  let pos := id_pos id in
  if (pos <=? 0) || (pos >? Z.of_nat (max_num (timer_head_ st))) then (-1, None)
  else
    let o := obj st (Z.to_nat pos) in
    if negb (timer_id o =? id) || (used o =? 0) then (-1, None)
    else (0, Some (u64 (expire o))).

(** ** [Update] *)

Variable OnTimeout : Z → TimerDataType → TimerMgr → TimerMgr.

(** [(timer_head_->cur_bucket_pos + i) % kTimerBucketNum] *)
Definition cur_bucket (i : Z) (st : TimerMgr) : nat :=
  Z.to_nat (u64 (cur_bucket_pos (timer_head_ st) + i) mod kTimerBucketNum).

Definition unlink_upd (i : Z) (pos : nat) (st : TimerMgr) : TimerMgr :=
  if (0 <? prev (obj st pos))%nat then
    let st := upd_obj (prev (obj st pos)) (set_next (next (obj st pos))) st in
    if (0 <? next (obj st pos))%nat
    then upd_obj (next (obj st pos)) (set_prev (prev (obj st pos))) st
    else st
  else
    let st := upd_bucket (cur_bucket i st) (next (obj st pos)) st in
    if (0 <? next (obj st pos))%nat
    then upd_obj (next (obj st pos)) (set_prev 0) st
    else st.

Definition rearm (now : Z) (pos : nat) (st : TimerMgr) : TimerMgr :=
  let st := upd_obj pos (set_expire (u64 (now + interval_ms (obj st pos)))) st in
  link_front (bucket_of (expire (obj st pos))) pos st.

(** what [Update] does with a slot that is still used after its callback *)
Definition settle (now i : Z) (pos : nat) (st : TimerMgr) : TimerMgr :=
  let st := unlink_upd i pos st in
  if negb (max_fire_count (obj st pos) =? 0)
     && (fire_count (obj st pos) >=? max_fire_count (obj st pos))
  then FreeNode pos st
  else rearm now pos st.

(** The [while (pos > 0)] loop over one bucket.  Each iteration calls the
    callback once, so [fuel] bounds the number of callbacks; [None] is a
    loop that has not ended within that bound.  The log records the
    arguments of every [OnTimeout] call, in order.  The [continue] of the
    source re-enters the loop with [pos] unchanged. *)
Fixpoint walk (fuel : nat) (now i : Z) (pos : nat) (st : TimerMgr)
    (log : list (Z * TimerDataType)) : option (TimerMgr * list (Z * TimerDataType)) :=
  match fuel with
  | O => None
  | S f =>
      if (0 <? pos)%nat then
        let nxt := next (obj st pos) in
        let st := upd_obj pos (fun o => set_fire_count (to_int (fire_count o + 1)) o) st in
        let id := timer_id (obj st pos) in
        let data := timer_data (obj st pos) in
        let log := log ++ [(id, data)] in
        let st := OnTimeout id data st in
        let '(nxt, st) :=
          if negb (used (obj st pos) =? 0)
          then (next (obj st pos), settle now i pos st)
          else (nxt, st) in
        if (0 <? nxt)%nat && (used (obj st nxt) =? 0)
        then walk f now i pos st log
        else walk f now i nxt st log
      else Some (st, log)
  end.

(** [int wheel_count = now_ms - timer_head_->cur_bucket_time]: the unsigned
    64-bit difference cut down to [int] *)
Definition wheel_count (now_ms : Z) (st : TimerMgr) : Z :=
  to_int (u64 (now_ms - cur_bucket_time (timer_head_ st))).

(** [for (int i = 1; i <= wheel_count; i++)], [k] iterations left.  The
    counter [i] is an [int]; it stays within range because [Update] runs
    this loop only for [wheel_count < INT_MAX]. *)
Fixpoint ticks (fuel : nat) (now : Z) (k : nat) (i : Z) (st : TimerMgr)
    (log : list (Z * TimerDataType)) : option (TimerMgr * list (Z * TimerDataType)) :=
  match k with
  | O => Some (st, log)
  | S k' =>
      match walk fuel now i (bucket_head st (cur_bucket i st)) st log with
      | None => None
      | Some (st, log) => ticks fuel now k' (i + 1) st log
      end
  end.

(** [Update()].  With [wheel_count = INT_MAX] the condition
    [i <= wheel_count] holds for every [int i] and the increment of [i]
    overflows, so the loop has no exit: no result. *)
Definition Update (fuel : nat) (now : Z) (st : TimerMgr)
    : option (Z * TimerMgr * list (Z * TimerDataType)) :=
  let now_ms := u64 now in
  if used_num (timer_head_ st) <=? 0 then
    Some (0, upd_head (set_cur (now_ms mod kTimerBucketNum) now_ms) st, [])
  else if wheel_count now_ms st =? 2^31 - 1 then None
  else
    match ticks fuel now_ms (Z.to_nat (wheel_count now_ms st)) 1 st [] with
    | None => None
    | Some (st, log) =>
        Some (0, upd_head (set_cur (now_ms mod kTimerBucketNum) now_ms) st, log)
    end.

End Model.

Arguments TimerObj : clear implicits.
Arguments TimerMgr : clear implicits.

(** * Reading and writing the arrays *)

Section Arrays.

Context {T : Type} `{!Inhabited T}.
Implicit Types (st : TimerMgr T) (p q b : nat).

Lemma obj_upd_obj_eq st p f :
  (p < length (timer_obj_ st))%nat → obj (upd_obj p f st) p = f (obj st p).
Proof. intros Hp. unfold obj, upd_obj; simpl. by rewrite list_lookup_total_insert_eq. Qed.

Lemma obj_upd_obj_ne st p q f : p ≠ q → obj (upd_obj p f st) q = obj st q.
Proof. intros Hp. unfold obj, upd_obj; simpl. by rewrite list_lookup_total_insert_ne. Qed.

Lemma obj_upd_bucket st b h q : obj (upd_bucket b h st) q = obj st q.
Proof. reflexivity. Qed.

Lemma obj_upd_head st f q : obj (upd_head f st) q = obj st q.
Proof. reflexivity. Qed.

Lemma bucket_head_upd_obj st p f b : bucket_head (upd_obj p f st) b = bucket_head st b.
Proof. reflexivity. Qed.

Lemma bucket_head_upd_head st f b : bucket_head (upd_head f st) b = bucket_head st b.
Proof. reflexivity. Qed.

Lemma bucket_head_upd_bucket_eq st b h :
  (b < length (timer_bucket_ st))%nat → bucket_head (upd_bucket b h st) b = h.
Proof. intros Hb. unfold bucket_head, upd_bucket; simpl. by rewrite list_lookup_total_insert_eq. Qed.

Lemma bucket_head_upd_bucket_ne st b c h :
  b ≠ c → bucket_head (upd_bucket b h st) c = bucket_head st c.
Proof. intros Hb. unfold bucket_head, upd_bucket; simpl. by rewrite list_lookup_total_insert_ne. Qed.

Lemma length_obj_upd_obj st p f :
  length (timer_obj_ (upd_obj p f st)) = length (timer_obj_ st).
Proof. unfold upd_obj; simpl. by rewrite length_insert. Qed.

Lemma length_bucket_upd_bucket st b h :
  length (timer_bucket_ (upd_bucket b h st)) = length (timer_bucket_ st).
Proof. unfold upd_bucket; simpl. by rewrite length_insert. Qed.

Lemma bucket_head_ext st st' b :
  timer_bucket_ st' = timer_bucket_ st → bucket_head st' b = bucket_head st b.
Proof. unfold bucket_head. by intros ->. Qed.

Lemma obj_ext st st' q : timer_obj_ st' = timer_obj_ st → obj st' q = obj st q.
Proof. unfold obj. by intros ->. Qed.

Lemma bucket_of_lt e : (bucket_of e < 60)%nat.
Proof.
  unfold bucket_of, kTimerBucketNum.
  pose proof (Z.mod_pos_bound (u64 e) 60 ltac:(lia)). lia.
Qed.

Lemma cur_bucket_lt i st : (cur_bucket i st < 60)%nat.
Proof.
  unfold cur_bucket, kTimerBucketNum.
  pose proof (Z.mod_pos_bound (u64 (cur_bucket_pos (timer_head_ st) + i)) 60 ltac:(lia)). lia.
Qed.

Lemma u64_small z : 0 ≤ z < 2^64 → u64 z = z.
Proof. intros. unfold u64. by rewrite Z.mod_small. Qed.

Lemma u32_small z : 0 ≤ z < 2^32 → u32 z = z.
Proof. intros. unfold u32. by rewrite Z.mod_small. Qed.

Lemma to_int_small z : - 2^31 ≤ z < 2^31 → to_int z = z.
Proof. intros. unfold to_int. rewrite Z.mod_small; lia. Qed.

Lemma id_pos_mk_id pos s : 0 ≤ pos < 2^32 → id_pos (mk_id pos s) = pos.
Proof.
  intros Hp. unfold id_pos, mk_id. rewrite (u32_small pos) by done.
  rewrite (Z.mul_comm (2^32)), Z.mod_add by lia. by apply Z.mod_small.
Qed.

Lemma id_seq_mk_id pos s : 0 ≤ pos < 2^32 → id_seq (mk_id pos s) = u32 s.
Proof.
  intros Hp. unfold id_seq, mk_id. rewrite (u32_small pos) by done.
  rewrite (Z.mul_comm (2^32)), Z.div_add by lia.
  rewrite (Z.div_small pos) by lia. rewrite Z.add_0_l.
  unfold u32. by rewrite Z.mod_mod by lia.
Qed.

End Arrays.

(** * The shape of a well-formed wheel

    Every bucket heads a doubly-linked list of slots, the free list is
    singly linked through [next], and each slot [1..max_num] sits in
    exactly one of: the free list, one bucket list, or the set [out] of
    slots that an operation has detached and not yet re-linked. *)

Section Shape.

Context {T : Type} `{!Inhabited T}.
Implicit Types (st : TimerMgr T) (p q b : nat) (l fl out : list nat)
  (bl : nat → list nat).

Fixpoint dseg st (pv : nat) (l : list nat) (nx : nat) : Prop :=
  match l with
  | [] => True
  | p :: t => prev (obj st p) = pv ∧ next (obj st p) = hd nx t ∧ dseg st p t nx
  end.

Fixpoint fseg st (l : list nat) : Prop :=
  match l with
  | [] => True
  | p :: t => next (obj st p) = hd 0%nat t ∧ fseg st t
  end.

Definition same_links st st' q : Prop :=
  prev (obj st' q) = prev (obj st q) ∧ next (obj st' q) = next (obj st q).

(** what a handle check and a bucket lookup read from a slot *)
Definition same_live st st' q : Prop :=
  used (obj st' q) = used (obj st q) ∧ timer_id (obj st' q) = timer_id (obj st q)
  ∧ expire (obj st' q) = expire (obj st q).

Definition bset bl b l : nat → list nat :=
  fun c => if decide (c = b) then l else bl c.

Lemma bset_eq bl b l : bset bl b l b = l.
Proof. unfold bset. by rewrite decide_True. Qed.

Lemma bset_ne bl b l c : c ≠ b → bset bl b l c = bl c.
Proof. intros. unfold bset. by rewrite decide_False. Qed.

Lemma same_links_refl st q : same_links st st q.
Proof. by split. Qed.

Lemma same_links_trans st1 st2 st3 q :
  same_links st1 st2 q → same_links st2 st3 q → same_links st1 st3 q.
Proof. intros [? ?] [? ?]. split; congruence. Qed.

Lemma same_live_refl st q : same_live st st q.
Proof. by repeat split. Qed.

Lemma same_live_trans st1 st2 st3 q :
  same_live st1 st2 q → same_live st2 st3 q → same_live st1 st3 q.
Proof. intros (?&?&?) (?&?&?). repeat split; congruence. Qed.

Lemma dseg_frame st st' pv l nx :
  (∀ q, q ∈ l → same_links st st' q) → dseg st pv l nx → dseg st' pv l nx.
Proof.
  revert pv. induction l as [|p t IH]; intros pv Hf; simpl; [done|].
  intros (Hp & Hn & Ht). destruct (Hf p) as [-> ->]; [by left|].
  split_and!; try done. apply IH; [|done]. intros q Hq. apply Hf. by right.
Qed.

Lemma fseg_frame st st' l :
  (∀ q, q ∈ l → next (obj st' q) = next (obj st q)) → fseg st l → fseg st' l.
Proof.
  induction l as [|p t IH]; intros Hf; simpl; [done|].
  intros (Hn & Ht). rewrite (Hf p) by by left.
  split; [done|]. apply IH; [|done]. intros q Hq. apply Hf. by right.
Qed.

Lemma dseg_app st pv l1 l2 nx :
  dseg st pv (l1 ++ l2) nx ↔
  dseg st pv l1 (hd nx l2) ∧ dseg st (List.last l1 pv) l2 nx.
Proof.
  revert pv. induction l1 as [|p t IH]; intros pv.
  - simpl. tauto.
  - change ((p :: t) ++ l2) with (p :: (t ++ l2)).
    cbn [dseg]. rewrite IH.
    replace (List.last (p :: t) pv) with (List.last t p).
    2:{ clear. revert p pv. induction t as [|q t IH]; intros p pv; [done|].
        change (List.last (p :: q :: t) pv) with (List.last (q :: t) pv).
        by rewrite <- (IH q p), <- (IH q pv). }
    replace (hd nx (t ++ l2)) with (hd (hd nx l2) t) by by destruct t.
    tauto.
Qed.

(** redirecting the [next] of the last element of a segment *)
Lemma dseg_set_last_next st pv l q nx nx' :
  NoDup (l ++ [q]) → (q < length (timer_obj_ st))%nat →
  dseg st pv (l ++ [q]) nx →
  dseg (upd_obj q (set_next nx') st) pv (l ++ [q]) nx'.
Proof.
  intros Hnd Hq. rewrite !dseg_app. simpl. intros (H1 & H2 & _ & _). split.
  - eapply dseg_frame; [|exact H1]. intros r Hr. split.
    all: rewrite obj_upd_obj_ne; [done|].
    all: intros ->; apply list.NoDup_app in Hnd as (_ & Hd & _); apply (Hd r Hr); by left.
  - rewrite obj_upd_obj_eq by done. simpl. done.
Qed.

(** redirecting the [prev] of the first element of a segment *)
Lemma dseg_set_head_prev st pv pv' h t nx :
  h ∉ t → (h < length (timer_obj_ st))%nat →
  dseg st pv (h :: t) nx →
  dseg (upd_obj h (set_prev pv') st) pv' (h :: t) nx.
Proof.
  intros Hh Hlen. simpl. intros (H1 & H2 & H3).
  rewrite obj_upd_obj_eq by done. simpl. split_and!; try done.
  eapply dseg_frame; [|exact H3]. intros r Hr. split.
  all: rewrite obj_upd_obj_ne; [done|]; by intros ->.
Qed.

Lemma dseg_hd_prev st pv l nx :
  dseg st pv l nx → l ≠ [] → prev (obj st (hd 0%nat l)) = pv.
Proof. destruct l; [done|]. by intros (? & _) _. Qed.

Record Shape st bl fl out : Prop := mkShape {
  sh_nb : length (timer_bucket_ st) = 60%nat;
  sh_no : length (timer_obj_ st) = S (max_num (timer_head_ st));
  sh_cap : Z.of_nat (max_num (timer_head_ st)) < 2^32;
  sh_bl_out : ∀ b, (60 ≤ b)%nat → bl b = [];
  sh_head : ∀ b, (b < 60)%nat → bucket_head st b = hd 0%nat (bl b);
  sh_dseg : ∀ b, dseg st 0 (bl b) 0;
  sh_free_head : free_head (timer_head_ st) = hd 0%nat fl;
  sh_fseg : fseg st fl;
  sh_nodup : NoDup (fl ++ out);
  sh_nodup_b : ∀ b, NoDup (bl b);
  sh_disj : ∀ b p, p ∈ bl b → p ∉ fl ++ out;
  sh_range : ∀ p, (1 ≤ p ≤ max_num (timer_head_ st))%nat ↔
                  (p ∈ fl ++ out ∨ ∃ b, p ∈ bl b);
  sh_live : ∀ b p, p ∈ bl b →
      used (obj st p) ≠ 0 ∧ id_pos (timer_id (obj st p)) = Z.of_nat p
      ∧ bucket_of (expire (obj st p)) = b;
  sh_used_num : used_num (timer_head_ st) =
      Z.of_nat (max_num (timer_head_ st)) - Z.of_nat (length fl)
}.

(** a wheel between operations: no detached slot *)
Definition wf st : Prop := ∃ bl fl, Shape st bl fl [].

Lemma Shape_bucket_range st bl fl out b p :
  Shape st bl fl out → p ∈ bl b →
  (1 ≤ p ≤ max_num (timer_head_ st))%nat ∧ (p < length (timer_obj_ st))%nat.
Proof.
  intros S Hp. assert (1 ≤ p ≤ max_num (timer_head_ st))%nat.
  { apply (sh_range _ _ _ _ S). right. by exists b. }
  rewrite (sh_no _ _ _ _ S). lia.
Qed.

Lemma Shape_free_range st bl fl out p :
  Shape st bl fl out → p ∈ fl ++ out →
  (1 ≤ p ≤ max_num (timer_head_ st))%nat ∧ (p < length (timer_obj_ st))%nat.
Proof.
  intros S Hp. assert (1 ≤ p ≤ max_num (timer_head_ st))%nat.
  { apply (sh_range _ _ _ _ S). by left. }
  rewrite (sh_no _ _ _ _ S). lia.
Qed.

Lemma Shape_bucket_lt st bl fl out b p :
  Shape st bl fl out → p ∈ bl b → (b < 60)%nat.
Proof.
  intros S Hp. destruct (decide (b < 60)%nat) as [|Hb]; [done|].
  rewrite (sh_bl_out _ _ _ _ S b) in Hp by lia. by apply elem_of_nil in Hp.
Qed.

Lemma Shape_bucket_unique st bl fl out b c p :
  Shape st bl fl out → p ∈ bl b → p ∈ bl c → b = c.
Proof.
  intros S Hb Hc.
  destruct (sh_live _ _ _ _ S b p Hb) as (_ & _ & <-).
  by destruct (sh_live _ _ _ _ S c p Hc) as (_ & _ & <-).
Qed.

(** no list holds more slots than the arena has *)
Lemma nodup_range_length l n :
  NoDup l → (∀ p, p ∈ l → (1 ≤ p ≤ n)%nat) → (length l ≤ n)%nat.
Proof.
  intros Hnd Hr.
  assert (l ⊆+ List.seq 1 n) as Hs.
  { apply NoDup_submseteq; [done|]. intros p Hp. apply elem_of_seq.
    specialize (Hr p Hp). lia. }
  apply submseteq_length in Hs. by rewrite length_seq in Hs.
Qed.

Lemma Shape_free_length st bl fl out :
  Shape st bl fl out → (length fl + length out ≤ max_num (timer_head_ st))%nat.
Proof.
  intros S. rewrite <- length_app. apply nodup_range_length.
  - apply (sh_nodup _ _ _ _ S).
  - intros p Hp. by apply (Shape_free_range _ _ _ _ _ S).
Qed.

End Shape.

(** * Rewriting reads of updated states *)

Section Reads.

Context {T : Type} `{!Inhabited T}.
Implicit Types (st : TimerMgr T) (p q b : nat).

Lemma head_upd_obj st p f : timer_head_ (upd_obj p f st) = timer_head_ st.
Proof. reflexivity. Qed.
Lemma head_upd_bucket st b h : timer_head_ (upd_bucket b h st) = timer_head_ st.
Proof. reflexivity. Qed.
Lemma head_upd_head st f : timer_head_ (upd_head f st) = f (timer_head_ st).
Proof. reflexivity. Qed.
Lemma objs_upd_bucket st b h : timer_obj_ (upd_bucket b h st) = timer_obj_ st.
Proof. reflexivity. Qed.
Lemma objs_upd_head st f : timer_obj_ (upd_head f st) = timer_obj_ st.
Proof. reflexivity. Qed.
Lemma buckets_upd_obj st p f : timer_bucket_ (upd_obj p f st) = timer_bucket_ st.
Proof. reflexivity. Qed.
Lemma buckets_upd_head st f : timer_bucket_ (upd_head f st) = timer_bucket_ st.
Proof. reflexivity. Qed.

(** a write either misses the slot read or replaces it *)
Lemma obj_upd_obj st p f q :
  (q ≠ p ∧ obj (upd_obj p f st) q = obj st q)
  ∨ (q = p ∧ (length (timer_obj_ st) ≤ p)%nat ∧ obj (upd_obj p f st) q = obj st q)
  ∨ (q = p ∧ (p < length (timer_obj_ st))%nat ∧ obj (upd_obj p f st) q = f (obj st p)).
Proof.
  destruct (decide (q = p)) as [->|Hne].
  - destruct (decide (p < length (timer_obj_ st))%nat) as [Hlt|Hge].
    + right; right. by rewrite obj_upd_obj_eq.
    + right; left. split_and!; [done|lia|].
      unfold obj, upd_obj; simpl. by rewrite list_insert_ge by lia.
  - left. by rewrite obj_upd_obj_ne.
Qed.

Lemma same_links_upd_obj st p f q :
  (∀ o, prev (f o) = prev o ∧ next (f o) = next o) →
  same_links st (upd_obj p f st) q.
Proof.
  intros Hf. unfold same_links.
  destruct (obj_upd_obj st p f q) as [[_ ->]|[(_ & _ & ->)|(-> & _ & ->)]]; done.
Qed.

Lemma same_links_upd_obj_ne st p f q : q ≠ p → same_links st (upd_obj p f st) q.
Proof. intros Hne. unfold same_links. by rewrite obj_upd_obj_ne. Qed.

End Reads.

Global Opaque upd_obj upd_bucket upd_head obj bucket_head.

Create Rewrite HintDb wheel.
#[export] Hint Rewrite @head_upd_obj @head_upd_bucket @head_upd_head
  @objs_upd_bucket @objs_upd_head @buckets_upd_obj @buckets_upd_head
  @obj_upd_bucket @obj_upd_head @bucket_head_upd_obj @bucket_head_upd_head
  @length_obj_upd_obj @length_bucket_upd_bucket : wheel.

Ltac wsimpl := autorewrite with wheel in *; cbn [max_size data_size max_num used_num cur_bucket_pos cur_bucket_time free_head seq set_used_num set_free_head set_seq set_cur prev next used interval_ms max_fire_count fire_count expire timer_id timer_data set_prev set_next set_used set_interval_ms set_max_fire_count set_fire_count set_expire set_timer_id set_timer_data] in *.

(** rewrite [obj (upd_obj p f st) q], the side condition closed by [tac] *)
Ltac obj_eq tac := rewrite ?obj_upd_obj_eq by (autorewrite with wheel; tac).
Ltac obj_ne tac := rewrite ?obj_upd_obj_ne by tac.

(** close a goal about reads of a state built from nested writes *)
Ltac reads :=
  intros; wsimpl;
  repeat first
    [ rewrite bucket_head_upd_bucket_eq by (autorewrite with wheel; lia)
    | rewrite bucket_head_upd_bucket_ne by lia
    | rewrite obj_upd_obj_eq by (autorewrite with wheel; lia)
    | rewrite obj_upd_obj_ne by lia
    | progress wsimpl ];
  first [ done | lia ].

(** * The arena and list primitives keep the shape *)

Section Primitives.

Context {T : Type} `{!Inhabited T}.
Implicit Types (st : TimerMgr T) (p q b : nat) (l fl out : list nat)
  (bl : nat → list nat).

(** headers equal up to the free-list head and the used count *)
Definition head_frame st st' : Prop :=
  set_free_head 0 (set_used_num 0 (timer_head_ st'))
  = set_free_head 0 (set_used_num 0 (timer_head_ st)).

Lemma head_frame_refl st : head_frame st st.
Proof. done. Qed.

Lemma head_frame_trans st1 st2 st3 :
  head_frame st1 st2 → head_frame st2 st3 → head_frame st1 st3.
Proof. unfold head_frame. congruence. Qed.

Lemma head_frame_fields st st' :
  head_frame st st' →
  max_num (timer_head_ st') = max_num (timer_head_ st)
  ∧ seq (timer_head_ st') = seq (timer_head_ st)
  ∧ cur_bucket_pos (timer_head_ st') = cur_bucket_pos (timer_head_ st)
  ∧ cur_bucket_time (timer_head_ st') = cur_bucket_time (timer_head_ st).
Proof.
  unfold head_frame. destruct (timer_head_ st'), (timer_head_ st); simpl.
  intros [= -> -> -> -> -> ->]. done.
Qed.

(** a write that leaves the links alone, and the handle fields of a
    linked slot alone, keeps the shape *)
Lemma Shape_upd_obj st bl fl out p f :
  (∀ o, prev (f o) = prev o ∧ next (f o) = next o) →
  ((∃ b, p ∈ bl b) → ∀ o, used (f o) = used o ∧ timer_id (f o) = timer_id o
                          ∧ expire (f o) = expire o) →
  Shape st bl fl out → Shape (upd_obj p f st) bl fl out.
Proof.
  intros Hl Hv S. destruct S. constructor; wsimpl; try done.
  - intros b. eapply dseg_frame; [|apply sh_dseg0].
    intros q _. by apply same_links_upd_obj.
  - eapply fseg_frame; [|done]. intros q _. by apply same_links_upd_obj.
  - intros b q Hq.
    destruct (obj_upd_obj st p f q) as [[_ ->]|[(_ & _ & ->)|(-> & _ & ->)]];
      try by apply sh_live0.
    destruct (Hv (ex_intro _ b Hq) (obj st p)) as (-> & -> & ->). by apply sh_live0.
Qed.

Lemma Shape_upd_head st bl fl out f :
  (∀ h, max_num (f h) = max_num h ∧ free_head (f h) = free_head h
        ∧ used_num (f h) = used_num h) →
  Shape st bl fl out → Shape (upd_head f st) bl fl out.
Proof.
  intros Hf S. destruct S.
  destruct (Hf (timer_head_ st)) as (Hm & Hfh & Hu).
  constructor; wsimpl; rewrite ?Hm, ?Hfh, ?Hu; try done.
  - intros b. eapply dseg_frame; [|apply sh_dseg0]. intros q _. split; by wsimpl.
  - eapply fseg_frame; [|done]. intros q _. by wsimpl.
Qed.

Lemma AllocNode_empty st bl out :
  Shape st bl [] out → AllocNode st = (0%nat, st).
Proof.
  intros S. unfold AllocNode. rewrite (sh_free_head _ _ _ _ S). done.
Qed.

Lemma AllocNode_Shape st bl p fl out :
  Shape st bl (p :: fl) out →
  ∃ st', AllocNode st = (p, st') ∧ Shape st' bl fl (p :: out)
    ∧ timer_head_ st' = set_used_num (used_num (timer_head_ st) + 1)
                          (set_free_head (hd 0%nat fl) (timer_head_ st))
    ∧ head_frame st st'
    ∧ timer_bucket_ st' = timer_bucket_ st
    ∧ (∀ q, q ≠ p → obj st' q = obj st q)
    ∧ obj st' p = set_next 0 (set_prev 0 (set_used 1 (obj st p))).
Proof.
  intros S.
  pose proof (Shape_free_length _ _ _ _ S) as Hlen. simpl in Hlen.
  pose proof (Shape_free_range _ _ _ _ p S ltac:(by left)) as [Hp Hpl].
  pose proof (sh_cap _ _ _ _ S) as Hcap.
  pose proof (sh_used_num _ _ _ _ S) as Hun. simpl length in Hun.
  pose proof (sh_nodup _ _ _ _ S) as Hnd. simpl in Hnd.
  apply list.NoDup_cons in Hnd as [Hpnot Hnd].
  unfold AllocNode. rewrite (sh_free_head _ _ _ _ S). simpl hd.
  replace (0 <? p)%nat with true by (symmetry; apply Nat.ltb_lt; lia).
  replace (used_num (timer_head_ st) <=? Z.of_nat (max_num (timer_head_ st)))
    with true by (symmetry; apply Z.leb_le; lia).
  simpl andb. cbv zeta. eexists. split; [reflexivity|].
  assert (∀ q, q ≠ p →
    obj (upd_obj p (set_next 0) (upd_obj p (set_prev 0) (upd_obj p (set_used 1)
      (upd_head (λ h, set_used_num (u64 (used_num h + 1)) h)
        (upd_head (set_free_head (next (obj st p))) st))))) q = obj st q) as Hq.
  { intros q Hq. obj_ne done. by wsimpl. }
  split_and!; [| |done|done|done|].
  2:{ wsimpl. destruct (sh_fseg _ _ _ _ S) as [-> _].
      rewrite u64_small by lia. done. }
  - destruct S. constructor; wsimpl; try done.
    + intros b. eapply dseg_frame; [|apply sh_dseg0]. intros q Hq'.
      unfold same_links. rewrite Hq; [done|]. intros ->.
      apply (sh_disj0 b p Hq'). by left.
    + destruct sh_fseg0 as [Hn _]. done.
    + destruct sh_fseg0 as [_ Hf]. eapply fseg_frame; [|exact Hf].
      intros q Hq'. rewrite Hq; [done|]. intros ->.
      apply Hpnot. apply elem_of_app. by left.
    + apply list.NoDup_app. apply list.NoDup_app in Hnd as (Hn1 & Hn2 & Hn3).
      split_and!; [done| |].
      * intros x Hx [->|Hx']%elem_of_cons.
        -- apply Hpnot. apply elem_of_app. by left.
        -- by apply (Hn2 x).
      * apply list.NoDup_cons. split; [|done]. intros Hx. apply Hpnot.
        apply elem_of_app. by right.
    + intros b q Hq' Hin. apply (sh_disj0 b q Hq').
      apply elem_of_app in Hin as [Hin|[->|Hin]%elem_of_cons].
      * right. apply elem_of_app. by left.
      * by left.
      * right. apply elem_of_app. by right.
    + intros q. rewrite (sh_range0 q). simpl.
      rewrite !elem_of_app, !elem_of_cons, !elem_of_app. tauto.
    + intros b q Hq'. rewrite Hq; [by apply sh_live0|]. intros ->.
      apply (sh_disj0 b p Hq'). by left.
    + rewrite Hun. rewrite u64_small; lia.
  - obj_eq done. obj_ne done. by wsimpl.
Qed.

(** everything but the links of a slot *)
Definition same_info st st' q : Prop :=
  set_prev 0 (set_next 0 (obj st' q)) = set_prev 0 (set_next 0 (obj st q)).

Lemma same_info_refl st q : same_info st st q.
Proof. done. Qed.

Lemma same_info_trans st1 st2 st3 q :
  same_info st1 st2 q → same_info st2 st3 q → same_info st1 st3 q.
Proof. unfold same_info. congruence. Qed.

Lemma same_info_fields st st' q :
  same_info st st' q →
  used (obj st' q) = used (obj st q)
  ∧ interval_ms (obj st' q) = interval_ms (obj st q)
  ∧ max_fire_count (obj st' q) = max_fire_count (obj st q)
  ∧ fire_count (obj st' q) = fire_count (obj st q)
  ∧ expire (obj st' q) = expire (obj st q)
  ∧ timer_id (obj st' q) = timer_id (obj st q)
  ∧ timer_data (obj st' q) = timer_data (obj st q).
Proof.
  unfold same_info. destruct (obj st' q), (obj st q); simpl.
  intros [= -> -> -> -> -> -> ->]. done.
Qed.

Lemma same_info_live st st' q : same_info st st' q → same_live st st' q.
Proof. intros H%same_info_fields. unfold same_live. tauto. Qed.

Lemma same_info_upd_obj st p f q :
  (∀ o, set_prev 0 (set_next 0 (f o)) = set_prev 0 (set_next 0 o)) →
  same_info st (upd_obj p f st) q.
Proof.
  intros Hf. unfold same_info.
  destruct (obj_upd_obj st p f q) as [[_ ->]|[(_ & _ & ->)|(-> & _ & ->)]]; done.
Qed.

Lemma same_info_upd_bucket st b h q : same_info st (upd_bucket b h st) q.
Proof. unfold same_info. by rewrite obj_upd_bucket. Qed.

Lemma same_info_upd_head st f q : same_info st (upd_head f st) q.
Proof. unfold same_info. by rewrite obj_upd_head. Qed.

Lemma FreeNode_Shape st bl p fl out :
  Shape st bl fl (p :: out) →
  Shape (FreeNode p st) bl (p :: fl) out
  ∧ head_frame st (FreeNode p st)
  ∧ timer_bucket_ (FreeNode p st) = timer_bucket_ st
  ∧ (∀ q, q ≠ p → obj (FreeNode p st) q = obj st q)
  ∧ obj (FreeNode p st) p = set_next (hd 0%nat fl) (set_prev 0 (set_used 0 (obj st p))).
Proof.
  intros S.
  pose proof (Shape_free_length _ _ _ _ S) as Hlen. simpl in Hlen.
  pose proof (Shape_free_range _ _ _ _ p S
    ltac:(apply elem_of_app; right; by left)) as [Hp Hpl].
  pose proof (sh_cap _ _ _ _ S) as Hcap.
  pose proof (sh_used_num _ _ _ _ S) as Hun.
  pose proof (sh_nodup _ _ _ _ S) as Hnd.
  apply list.NoDup_app in Hnd as (Hn1 & Hn2 & Hn3).
  apply list.NoDup_cons in Hn3 as [Hpout Hn3].
  assert (p ∉ fl) as Hpfl. { intros Hx. apply (Hn2 p Hx). by left. }
  unfold FreeNode. cbv zeta. wsimpl.
  assert (∀ q, q ≠ p →
    obj (upd_head (λ h, set_used_num (u64 (used_num h - 1)) h)
      (upd_head (set_free_head p)
        (upd_obj p (set_next (free_head (timer_head_ st)))
          (upd_obj p (set_prev 0) (upd_obj p (set_used 0) st))))) q = obj st q) as Hq.
  { intros q Hq. wsimpl. by obj_ne done. }
  split_and!; [|done|done|done|].
  - destruct S. constructor; wsimpl; try done.
    + intros b. eapply dseg_frame; [|apply sh_dseg0]. intros q Hq'.
      unfold same_links. rewrite Hq; [done|]. intros ->.
      apply (sh_disj0 b p Hq'). apply elem_of_app. right. by left.
    + simpl. split.
      * wsimpl. obj_eq done. by wsimpl.
      * eapply fseg_frame; [|exact sh_fseg0].
        intros q Hq'. rewrite Hq; [done|]. by intros ->.
    + simpl. apply list.NoDup_cons. split.
      * intros [Hx|Hx]%elem_of_app; done.
      * apply list.NoDup_app. split_and!; [done| |done].
        intros x Hx Hx'. apply (Hn2 x Hx). by right.
    + intros b q Hq' Hin. apply (sh_disj0 b q Hq').
      rewrite elem_of_app, elem_of_cons. simpl in Hin.
      rewrite elem_of_cons, elem_of_app in Hin. tauto.
    + intros q. rewrite (sh_range0 q). simpl.
      rewrite !elem_of_app, !elem_of_cons, !elem_of_app. tauto.
    + intros b q Hq'. rewrite Hq; [by apply sh_live0|]. intros ->.
      apply (sh_disj0 b p Hq'). apply elem_of_app. right. by left.
    + rewrite Hun. simpl length. rewrite u64_small; lia.
  - wsimpl. obj_eq done. obj_ne done.
    by rewrite (sh_free_head _ _ _ _ S).
Qed.

(** ** [link_front] and [unlink_del] on the raw arrays *)

Ltac same_info_tac :=
  repeat first
    [ apply same_info_refl
    | apply same_info_upd_bucket
    | apply same_info_upd_head
    | (apply same_info_upd_obj; by intros [])
    | (eapply same_info_trans;
       [| first [ apply same_info_upd_bucket | apply same_info_upd_head
                | (apply same_info_upd_obj; by intros []) ] ]) ].

Lemma link_front_raw st b p :
  let h := bucket_head st b in
  let st' := link_front b p st in
  (p < length (timer_obj_ st))%nat → (b < length (timer_bucket_ st))%nat →
  h ≠ p → (h < length (timer_obj_ st))%nat →
  timer_head_ st' = timer_head_ st
  ∧ length (timer_obj_ st') = length (timer_obj_ st)
  ∧ length (timer_bucket_ st') = length (timer_bucket_ st)
  ∧ (∀ q, same_info st st' q)
  ∧ (∀ q, q ≠ p → q ≠ h → obj st' q = obj st q)
  ∧ prev (obj st' p) = 0%nat ∧ next (obj st' p) = h
  ∧ (h ≠ 0%nat → prev (obj st' h) = p ∧ next (obj st' h) = next (obj st h))
  ∧ bucket_head st' b = p
  ∧ (∀ c, c ≠ b → bucket_head st' c = bucket_head st c).
Proof.
  intros h st' Hp Hb Hhp Hh. subst st'. unfold link_front. cbv zeta. wsimpl.
  fold h. destruct (0 <? h)%nat eqn:E;
    [apply Nat.ltb_lt in E|apply Nat.ltb_ge in E].
  all: split_and!; try (intros q; by same_info_tac); try (intros ?; split); reads.
Qed.

Lemma unlink_del_raw st b p :
  let pv := prev (obj st p) in
  let nx := next (obj st p) in
  let st' := unlink_del b p st in
  pv ≠ p → nx ≠ p → (pv ≠ 0%nat → pv ≠ nx) →
  (pv < length (timer_obj_ st))%nat → (nx < length (timer_obj_ st))%nat →
  (b < length (timer_bucket_ st))%nat →
  timer_head_ st' = timer_head_ st
  ∧ length (timer_obj_ st') = length (timer_obj_ st)
  ∧ length (timer_bucket_ st') = length (timer_bucket_ st)
  ∧ (∀ q, same_info st st' q)
  ∧ (∀ q, q ≠ pv → q ≠ nx → obj st' q = obj st q)
  ∧ (pv ≠ 0%nat → next (obj st' pv) = nx ∧ prev (obj st' pv) = prev (obj st pv))
  ∧ (nx ≠ 0%nat → prev (obj st' nx) = pv ∧ next (obj st' nx) = next (obj st nx))
  ∧ (pv = 0%nat → bucket_head st' b = nx)
  ∧ (pv ≠ 0%nat → bucket_head st' b = bucket_head st b)
  ∧ (∀ c, c ≠ b → bucket_head st' c = bucket_head st c).
Proof.
  intros pv nx st' Hpv Hnx Hne Hpvl Hnxl Hb. subst st'. unfold unlink_del.
  fold pv nx. destruct (pv =? 0)%nat eqn:E1;
    [apply Nat.eqb_eq in E1; rewrite !obj_upd_bucket
    |apply Nat.eqb_neq in E1; specialize (Hne E1);
     rewrite !(obj_upd_obj_ne _ pv p) by done].
  all: fold pv nx; destruct (0 <? nx)%nat eqn:E2;
    [apply Nat.ltb_lt in E2|apply Nat.ltb_ge in E2].
  all: split_and!; try (intros q; by same_info_tac); try (intros ?; split); reads.
Qed.

Lemma dseg_relast st st' pv l z nx nx' :
  dseg st pv (l ++ [z]) nx → (∀ q, q ∈ l → same_links st st' q) →
  prev (obj st' z) = prev (obj st z) → next (obj st' z) = nx' →
  dseg st' pv (l ++ [z]) nx'.
Proof.
  rewrite !dseg_app. simpl. intros (H1 & H2 & H3 & _) Hf Hp Hn. split_and!; try done.
  - by eapply dseg_frame.
  - congruence.
Qed.

Lemma dseg_rehead st st' pv pv' h t nx :
  dseg st pv (h :: t) nx → (∀ q, q ∈ t → same_links st st' q) →
  next (obj st' h) = next (obj st h) → prev (obj st' h) = pv' →
  dseg st' pv' (h :: t) nx.
Proof.
  simpl. intros (H1 & H2 & H3) Hf Hn Hp. split_and!; try done.
  - congruence.
  - by eapply dseg_frame.
Qed.

Lemma hd_elem_of l : hd 0%nat l = 0%nat ∧ l = [] ∨ hd 0%nat l ∈ l.
Proof. destruct l; [by left|right; by left]. Qed.

Lemma link_front_Shape st bl fl p out b :
  Shape st bl fl (p :: out) → (b < 60)%nat →
  used (obj st p) ≠ 0 → id_pos (timer_id (obj st p)) = Z.of_nat p →
  bucket_of (expire (obj st p)) = b →
  Shape (link_front b p st) (bset bl b (p :: bl b)) fl out
  ∧ timer_head_ (link_front b p st) = timer_head_ st
  ∧ (∀ q, same_info st (link_front b p st) q).
Proof.
  intros S Hb Hu Hid Hex.
  pose proof (Shape_free_range _ _ _ _ p S
    ltac:(apply elem_of_app; right; by left)) as [Hp Hpl].
  pose proof (sh_nodup _ _ _ _ S) as Hnd.
  apply list.NoDup_app in Hnd as (Hn1 & Hn2 & Hn3).
  apply list.NoDup_cons in Hn3 as [Hpout Hn3].
  assert (p ∉ fl) as Hpfl. { intros Hx. apply (Hn2 p Hx). by left. }
  assert (∀ c, p ∉ bl c) as Hpbl.
  { intros c Hx. apply (sh_disj _ _ _ _ S c p Hx). apply elem_of_app. right. by left. }
  pose proof (sh_head _ _ _ _ S b Hb) as Hhd.
  assert (bucket_head st b ≠ p) as Hhp.
  { rewrite Hhd. destruct (hd_elem_of (bl b)) as [[-> _]|Hin]; [lia|].
    intros E. rewrite E in Hin. by apply (Hpbl b). }
  assert (bucket_head st b < length (timer_obj_ st))%nat as Hhl.
  { rewrite Hhd. destruct (hd_elem_of (bl b)) as [[-> _]|Hin]; [lia|].
    by apply (Shape_bucket_range _ _ _ _ _ _ S Hin). }
  destruct (link_front_raw st b p Hpl ltac:(rewrite (sh_nb _ _ _ _ S); lia) Hhp Hhl)
    as (F1 & F2 & F3 & F4 & F5 & F6 & F7 & F8 & F9 & F10).
  rewrite Hhd in F5, F7, F8.
  assert (∀ q, q ∈ fl ∨ (∃ c, q ∈ bl c ∧ (c = b → q ≠ hd 0%nat (bl b))) →
          obj (link_front b p st) q = obj st q) as Hsame.
  { intros q Hq. apply F5.
    - intros ->. destruct Hq as [Hq|(c & Hq & _)]; [done|by apply (Hpbl c)].
    - destruct (hd_elem_of (bl b)) as [[E _]|Hin].
      + rewrite E. destruct Hq as [Hq|(c & Hq & _)].
        * pose proof (Shape_free_range _ _ _ _ q S
            ltac:(apply elem_of_app; by left)). lia.
        * pose proof (Shape_bucket_range _ _ _ _ _ _ S Hq). lia.
      + intros E. destruct Hq as [Hq|(c & Hq & Hc)].
        * rewrite <- E in Hin. apply (sh_disj _ _ _ _ S b q Hin).
          apply elem_of_app. by left.
        * rewrite <- E in Hin.
          pose proof (Shape_bucket_unique _ _ _ _ _ _ _ S Hq Hin) as ->.
          by apply Hc. }
  assert (∀ c q, q ∈ bl c → q ≠ 0%nat) as Hnz.
  { intros c q Hq. pose proof (Shape_bucket_range _ _ _ _ _ _ S Hq). lia. }
  split_and!; [|done|done].
  destruct S. constructor; rewrite ?F1, ?F2, ?F3; try done.
  - intros c Hc. rewrite bset_ne by lia. by apply sh_bl_out0.
  - intros c Hc. destruct (decide (c = b)) as [->|Hne].
    + by rewrite bset_eq.
    + rewrite bset_ne by done. rewrite F10 by done. by apply sh_head0.
  - intros c. destruct (decide (c = b)) as [->|Hne].
    + rewrite bset_eq. simpl. split_and!; [done|done|].
      specialize (sh_dseg0 b). specialize (sh_nodup_b0 b).
      destruct (bl b) as [|h t] eqn:Eb; [done|]. simpl in F8.
      apply list.NoDup_cons in sh_nodup_b0 as [Hht _].
      destruct F8 as [F8a F8b]; [apply (Hnz b); rewrite Eb; by left|].
      eapply dseg_rehead; [exact sh_dseg0| | |]; try done.
      intros q Hq. unfold same_links. rewrite Hsame; [done|].
      right. exists b. rewrite Eb. split; [by right|]. intros _. simpl. by intros ->.
    + rewrite bset_ne by done. eapply dseg_frame; [|apply sh_dseg0].
      intros q Hq. unfold same_links. rewrite Hsame; [done|].
      right. by exists c.
  - eapply fseg_frame; [|exact sh_fseg0]. intros q Hq. rewrite Hsame; [done|by left].
  - apply list.NoDup_app. split_and!; [done| |done].
    intros x Hx Hx'. apply (Hn2 x Hx). by right.
  - intros c. destruct (decide (c = b)) as [->|Hne].
    + rewrite bset_eq. apply list.NoDup_cons. split; [by apply Hpbl|by apply sh_nodup_b0].
    + rewrite bset_ne by done. by apply sh_nodup_b0.
  - intros c q Hq Hin. destruct (decide (c = b)) as [->|Hne].
    + rewrite bset_eq in Hq. apply elem_of_cons in Hq as [->|Hq].
      * apply elem_of_app in Hin as [Hin|Hin]; done.
      * apply (sh_disj0 b q Hq). rewrite elem_of_app, elem_of_cons.
        rewrite elem_of_app in Hin. tauto.
    + rewrite bset_ne in Hq by done. apply (sh_disj0 c q Hq).
      rewrite elem_of_app, elem_of_cons. rewrite elem_of_app in Hin. tauto.
  - intros q. rewrite (sh_range0 q). rewrite !elem_of_app, elem_of_cons. split.
    + intros [[Hq|[->|Hq]]|(c & Hq)]; [tauto| |tauto|].
      * right. exists b. rewrite bset_eq. by left.
      * right. exists c. destruct (decide (c = b)) as [->|Hne].
        -- rewrite bset_eq. by right.
        -- by rewrite bset_ne.
    + intros [[Hq|Hq]|(c & Hq)]; [tauto|tauto|].
      destruct (decide (c = b)) as [->|Hne].
      * rewrite bset_eq in Hq. apply elem_of_cons in Hq as [->|Hq]; [tauto|].
        right. by exists b.
      * rewrite bset_ne in Hq by done. right. by exists c.
  - intros c q Hq.
    destruct (same_info_fields _ _ _ (F4 q)) as (-> & _ & _ & _ & -> & -> & _).
    destruct (decide (c = b)) as [->|Hne].
    + rewrite bset_eq in Hq. apply elem_of_cons in Hq as [->|Hq]; [done|].
      by apply sh_live0.
    + rewrite bset_ne in Hq by done. by apply sh_live0.
Qed.

Lemma last_elem_of l : List.last l 0%nat = 0%nat ∧ l = [] ∨ List.last l 0%nat ∈ l.
Proof.
  destruct l as [|x l] using rev_ind; [by left|right].
  rewrite List.last_last. apply elem_of_app. right. by left.
Qed.

Lemma unlink_del_Shape st bl fl out b l1 p l2 :
  Shape st bl fl out → bl b = l1 ++ p :: l2 →
  Shape (unlink_del b p st) (bset bl b (l1 ++ l2)) fl (p :: out)
  ∧ timer_head_ (unlink_del b p st) = timer_head_ st
  ∧ (∀ q, same_info st (unlink_del b p st) q)
  ∧ obj (unlink_del b p st) p = obj st p.
Proof.
  intros S Eb.
  assert (p ∈ bl b) as Hpb. { rewrite Eb. apply elem_of_app. right. by left. }
  pose proof (Shape_bucket_lt _ _ _ _ _ _ S Hpb) as Hb.
  assert (∀ c q, q ∈ bl c → q ≠ 0%nat ∧ (q < length (timer_obj_ st))%nat) as Hnz.
  { intros c q Hq. pose proof (Shape_bucket_range _ _ _ _ _ _ S Hq). lia. }
  pose proof (sh_nodup_b _ _ _ _ S b) as Hnd. rewrite Eb in Hnd.
  apply list.NoDup_app in Hnd as (Hn1 & Hn2 & Hn3).
  apply list.NoDup_cons in Hn3 as [Hpl2 Hn3].
  assert (p ∉ l1) as Hpl1. { intros Hx. apply (Hn2 p Hx). by left. }
  assert (∀ x, x ∈ l1 → x ∉ l2) as Hl12.
  { intros x Hx Hx'. apply (Hn2 x Hx). by right. }
  assert (∀ q, q ∈ l1 → q ∈ bl b) as Hin1.
  { intros q Hq. rewrite Eb. apply elem_of_app. by left. }
  assert (∀ q, q ∈ l2 → q ∈ bl b) as Hin2.
  { intros q Hq. rewrite Eb. apply elem_of_app. right. by right. }
  pose proof (sh_dseg _ _ _ _ S b) as Hd. rewrite Eb in Hd.
  apply dseg_app in Hd as [D1 D2]. simpl in D1. destruct D2 as (Dp & Dn & D2).
  set (pv := List.last l1 0%nat) in *. set (nx := hd 0%nat l2) in *.
  assert (pv = 0%nat ∧ l1 = [] ∨ pv ∈ l1) as Hpv by apply last_elem_of.
  assert (nx = 0%nat ∧ l2 = [] ∨ nx ∈ l2) as Hnx by apply hd_elem_of.
  assert (0 < length (timer_obj_ st))%nat as Hlen0.
  { rewrite (sh_no _ _ _ _ S). lia. }
  destruct (unlink_del_raw st b p) as (U1 & U2 & U3 & U4 & U5 & U6 & U7 & U8 & U9 & U10);
    rewrite ?Dp, ?Dn in *.
  { destruct Hpv as [[-> _]|Hx]; [|by intros ->]. destruct (Hnz b p Hpb). lia. }
  { destruct Hnx as [[-> _]|Hx]; [|by intros ->]. destruct (Hnz b p Hpb). lia. }
  { intros Hz. destruct Hpv as [[? _]|Hx]; [done|].
    destruct Hnx as [[-> _]|Hx']; [done|]. intros E. rewrite E in Hx. by apply (Hl12 nx). }
  { destruct Hpv as [[-> _]|Hx]; [done|]. by apply (Hnz b), Hin1. }
  { destruct Hnx as [[-> _]|Hx]; [done|]. by apply (Hnz b), Hin2. }
  { rewrite (sh_nb _ _ _ _ S). lia. }
  assert (∀ q, q ∈ fl ++ out ∨ (∃ c, q ∈ bl c ∧ c ≠ b) →
          obj (unlink_del b p st) q = obj st q) as Hsame.
  { intros q Hq. apply U5.
    - destruct Hpv as [[-> _]|Hx].
      + destruct Hq as [Hq|(c & Hq & _)].
        * pose proof (Shape_free_range _ _ _ _ q S Hq). lia.
        * destruct (Hnz c q Hq). lia.
      + intros ->. destruct Hq as [Hq|(c & Hq & Hc)].
        * by apply (sh_disj _ _ _ _ S b pv (Hin1 _ Hx)).
        * apply Hc. by apply (Shape_bucket_unique _ _ _ _ _ _ _ S Hq), Hin1.
    - destruct Hnx as [[-> _]|Hx].
      + destruct Hq as [Hq|(c & Hq & _)].
        * pose proof (Shape_free_range _ _ _ _ q S Hq). lia.
        * destruct (Hnz c q Hq). lia.
      + intros ->. destruct Hq as [Hq|(c & Hq & Hc)].
        * by apply (sh_disj _ _ _ _ S b nx (Hin2 _ Hx)).
        * apply Hc. by apply (Shape_bucket_unique _ _ _ _ _ _ _ S Hq), Hin2. }
  assert (∀ c q, q ∈ bset bl b (l1 ++ l2) c → q ∈ bl c ∧ q ≠ p) as Hsub.
  { intros c q Hq. destruct (decide (c = b)) as [->|Hne].
    - rewrite bset_eq in Hq. rewrite Eb. rewrite elem_of_app in Hq.
      rewrite elem_of_app, elem_of_cons. split; [tauto|].
      intros ->. tauto.
    - rewrite bset_ne in Hq by done. split; [done|]. intros ->.
      apply Hne. by apply (Shape_bucket_unique _ _ _ _ _ _ _ S Hq). }
  split_and!; [|done|done|].
  2:{ apply U5.
      - destruct Hpv as [[-> _]|Hx]; [|by intros ->]. destruct (Hnz b p Hpb). lia.
      - destruct Hnx as [[-> _]|Hx]; [|by intros ->]. destruct (Hnz b p Hpb). lia. }
  destruct S. constructor; rewrite ?U1, ?U2, ?U3; try done.
  - intros c Hc. rewrite bset_ne by lia. by apply sh_bl_out0.
  - intros c Hc. destruct (decide (c = b)) as [->|Hne].
    + rewrite bset_eq. destruct Hpv as [[E ->]|Hx].
      * by rewrite U8.
      * rewrite U9 by (destruct (Hnz b pv (Hin1 _ Hx)); lia).
        rewrite sh_head0 by done. rewrite Eb.
        destruct l1; [by apply elem_of_nil in Hx|done].
    + rewrite bset_ne by done. rewrite U10 by done. by apply sh_head0.
  - intros c. destruct (decide (c = b)) as [->|Hne].
    + rewrite bset_eq. apply dseg_app. fold pv nx. split.
      * destruct l1 as [|z l1' _] using rev_ind; [done|].
        assert (pv = z) as Ez. { unfold pv. by rewrite List.last_last. }
        apply list.NoDup_app in Hn1 as (_ & Hz & _).
        destruct U6 as [U6a U6b].
        { rewrite Ez. apply (Hnz b). apply Hin1. apply elem_of_app. right. by left. }
        rewrite Ez in U6a, U6b.
        eapply dseg_relast; [exact D1| | |]; try done.
        intros q Hq. unfold same_links. rewrite U5; [done| |].
        -- rewrite Ez. intros ->. apply (Hz z Hq). by left.
        -- destruct Hnx as [[-> _]|Hx].
           ++ destruct (Hnz b q); [|lia]. apply Hin1. apply elem_of_app. by left.
           ++ intros ->. apply (Hl12 nx); [|done]. apply elem_of_app. by left.
      * destruct l2 as [|h t]; [done|]. simpl in nx.
        apply list.NoDup_cons in Hn3 as [Hht _].
        destruct U7 as [U7a U7b].
        { apply (Hnz b). apply Hin2. by left. }
        eapply dseg_rehead; [exact D2| | |]; try done.
        intros q Hq. unfold same_links. rewrite U5; [done| |].
        -- destruct Hpv as [[-> _]|Hx].
           ++ destruct (Hnz b q); [|lia]. apply Hin2. by right.
           ++ intros ->. apply (Hl12 pv Hx). by right.
        -- subst nx. by intros ->.
    + rewrite bset_ne by done. eapply dseg_frame; [|apply sh_dseg0].
      intros q Hq. unfold same_links. rewrite Hsame; [done|]. right. by exists c.
  - eapply fseg_frame; [|exact sh_fseg0]. intros q Hq. rewrite Hsame; [done|].
    left. apply elem_of_app. by left.
  - apply list.NoDup_app. apply list.NoDup_app in sh_nodup0 as (Hf1 & Hf2 & Hf3).
    split_and!; [done| |].
    + intros x Hx [->|Hx']%elem_of_cons; [|by apply (Hf2 x)].
      apply (sh_disj0 b p Hpb). apply elem_of_app. by left.
    + apply list.NoDup_cons. split; [|done]. intros Hx.
      apply (sh_disj0 b p Hpb). apply elem_of_app. by right.
  - intros c. destruct (decide (c = b)) as [->|Hne].
    + rewrite bset_eq. apply list.NoDup_app. split_and!; try done.
    + rewrite bset_ne by done. by apply sh_nodup_b0.
  - intros c q Hq Hin. destruct (Hsub c q Hq) as [Hq' Hqp].
    apply (sh_disj0 c q Hq'). rewrite elem_of_app, elem_of_cons in Hin.
    rewrite elem_of_app. tauto.
  - intros q. rewrite (sh_range0 q). rewrite !elem_of_app, elem_of_cons. split.
    + intros [[Hq|Hq]|(c & Hq)]; [tauto|tauto|].
      destruct (decide (q = p)) as [->|Hqp]; [tauto|].
      right. exists c. destruct (decide (c = b)) as [->|Hne].
      * rewrite bset_eq. rewrite Eb in Hq. rewrite elem_of_app, elem_of_cons in Hq.
        rewrite elem_of_app. tauto.
      * by rewrite bset_ne.
    + intros [[Hq|[->|Hq]]|(c & Hq)]; [tauto| |tauto|].
      * right. by exists b.
      * right. exists c. by apply Hsub.
  - intros c q Hq. destruct (Hsub c q Hq) as [Hq' Hqp].
    destruct (same_info_fields _ _ _ (U4 q)) as (-> & _ & _ & _ & -> & -> & _).
    by apply sh_live0.
Qed.

End Primitives.

(** * The operations keep the shape *)

Section Operations.

Context {T : Type} `{!Inhabited T}.
Implicit Types (st : TimerMgr T) (p q b : nat) (l fl out : list nat)
  (bl : nat → list nat).

(** ** [Init] *)

Lemma init_free_spec k st fl :
  (k < length (timer_obj_ st))%nat →
  free_head (timer_head_ st) = hd 0%nat fl → fseg st fl →
  (∀ q, q ∈ fl → (k < q)%nat) →
  let st' := init_free k st in
  free_head (timer_head_ st') = hd 0%nat (List.seq 1 k ++ fl)
  ∧ fseg st' (List.seq 1 k ++ fl)
  ∧ head_frame st st'
  ∧ used_num (timer_head_ st') = used_num (timer_head_ st)
  ∧ timer_bucket_ st' = timer_bucket_ st
  ∧ length (timer_obj_ st') = length (timer_obj_ st).
Proof.
  revert st fl. induction k as [|j IH]; intros st fl Hk Hfh Hfs Hgt.
  { done. }
  cbv zeta. cbn [init_free]. cbv zeta.
  set (st1 := upd_head (set_free_head (S j))
    (upd_obj (S j) (set_next (free_head (timer_head_
      (upd_obj (S j) (set_prev 0) st)))) (upd_obj (S j) (set_prev 0) st))).
  destruct (IH st1 (S j :: fl)) as (I1 & I2 & I3 & I4 & I5 & I6).
  - subst st1. wsimpl. lia.
  - by subst st1.
  - subst st1. simpl. split.
    + wsimpl. obj_eq lia. by wsimpl.
    + eapply fseg_frame; [|exact Hfs]. intros q Hq. wsimpl.
      specialize (Hgt q Hq). by obj_ne lia.
  - intros q [->|Hq]%elem_of_cons; [lia|]. specialize (Hgt q Hq). lia.
  - replace (List.seq 1 (S j) ++ fl) with (List.seq 1 j ++ S j :: fl).
    2:{ rewrite seq_S. by rewrite <- app_assoc. }
    split_and!; try done.
    rewrite I6. subst st1. by wsimpl.
Qed.

Lemma zero_buckets_foldl (l : list nat) st :
  let st' := foldl (fun st i => upd_bucket i 0 st) st l in
  timer_head_ st' = timer_head_ st ∧ timer_obj_ st' = timer_obj_ st
  ∧ length (timer_bucket_ st') = length (timer_bucket_ st)
  ∧ (∀ c, (c < length (timer_bucket_ st))%nat → c ∈ l → bucket_head st' c = 0%nat)
  ∧ (∀ c, c ∉ l → bucket_head st' c = bucket_head st c).
Proof.
  revert st. induction l as [|a l IH]; intros st; simpl.
  { split_and!; try done. intros c _ Hc. by apply elem_of_nil in Hc. }
  destruct (IH (upd_bucket a 0 st)) as (I1 & I2 & I3 & I4 & I5).
  split_and!.
  - by rewrite I1.
  - by rewrite I2.
  - rewrite I3. by wsimpl.
  - intros c Hc Hin. destruct (decide (c ∈ l)) as [Hl|Hl].
    + apply I4; [by wsimpl|done].
    + rewrite I5 by done. apply elem_of_cons in Hin as [->|Hin]; [|done].
      by rewrite bucket_head_upd_bucket_eq.
  - intros c Hc. rewrite I5.
    + rewrite bucket_head_upd_bucket_ne; [done|]. intros ->. apply Hc. by left.
    + intros Hl. apply Hc. by right.
Qed.

Lemma Init_fresh_Shape m size n now r st sd so :
  Init sd so (Some m) size n true now = (r, Some st) →
  length (timer_bucket_ m) = 60%nat → length (timer_obj_ m) = S n →
  Z.of_nat n < 2^32 →
  r = 0 ∧ Shape st (fun _ => []) (List.seq 1 n) []
  ∧ max_num (timer_head_ st) = n
  ∧ used_num (timer_head_ st) = 0
  ∧ cur_bucket_time (timer_head_ st) = u64 now
  ∧ cur_bucket_pos (timer_head_ st) = u64 now mod kTimerBucketNum
  ∧ seq (timer_head_ st) = u32 now.
Proof.
  unfold Init. destruct (size <? TotalMemSize so n); [done|].
  intros [= <- <-] Hb Ho Hn.
  set (h := mkHead size sd n 0 (u64 now mod kTimerBucketNum) (u64 now) 0 (u32 now)).
  set (st0 := mkMgr h (timer_bucket_ m) (timer_obj_ m)).
  unfold zero_buckets.
  destruct (zero_buckets_foldl (List.seq 0 (Z.to_nat kTimerBucketNum)) st0)
    as (Z1 & Z2 & Z3 & Z4 & Z5).
  set (st1 := foldl _ st0 _) in *.
  destruct (init_free_spec n st1 []) as (I1 & I2 & I3 & I4 & I5 & I6).
  - rewrite Z2. simpl. lia.
  - by rewrite Z1.
  - done.
  - by intros q Hq%elem_of_nil.
  - rewrite app_nil_r in I1, I2.
    apply head_frame_fields in I3 as (F1 & F2 & F3 & F4).
    rewrite Z1 in F1, F2, F3, F4, I4. simpl in F1, F2, F3, F4, I4.
    split_and!; try done.
    constructor; rewrite ?F1; try done.
    + rewrite I5, Z3. done.
    + rewrite I6, Z2. done.
    + intros b Hb'. simpl. rewrite (bucket_head_ext st1) by done.
      apply (Z4 b); [simpl; lia|]. apply elem_of_seq.
      unfold kTimerBucketNum. lia.
    + rewrite app_nil_r. apply NoDup_seq.
    + intros _. constructor.
    + intros b p Hp. by apply elem_of_nil in Hp.
    + intros p. rewrite app_nil_r, elem_of_seq. split.
      * intros Hp. left. lia.
      * intros [Hp|(b & Hp)]; [lia|by apply elem_of_nil in Hp].
    + intros b p Hp. by apply elem_of_nil in Hp.
    + rewrite I4, length_seq. lia.
Qed.

(** ** [AddTimer] *)

Definition add_args_ok (now interval fire_cnt : Z) st : bool :=
  negb ((interval <=? 0) || (interval >? kTimerBucketNum) || (fire_cnt <? 0))
  && negb (u64 (now + interval) <? cur_bucket_time (timer_head_ st)).

Lemma AddTimer_rejects now iv fc (d : T) st :
  add_args_ok now iv fc st = false → AddTimer now iv fc d st = (-1, None, st).
Proof.
  unfold add_args_ok, AddTimer.
  destruct ((iv <=? 0) || (iv >? kTimerBucketNum) || (fc <? 0)); [done|].
  simpl. by intros ->%negb_false_iff.
Qed.

Lemma AddTimer_full now iv fc (d : T) st bl out :
  add_args_ok now iv fc st = true → Shape st bl [] out →
  AddTimer now iv fc d st = (-2, None, st).
Proof.
  unfold add_args_ok, AddTimer. intros [H1 H2]%andb_true_iff S.
  apply negb_true_iff in H1, H2. rewrite H1, H2.
  by rewrite (AllocNode_empty _ _ _ S).
Qed.

Lemma AddTimer_ok now iv fc (d : T) st bl p fl :
  add_args_ok now iv fc st = true → Shape st bl (p :: fl) [] →
  let e := u64 (now + iv) in
  let id := mk_id (Z.of_nat p) (seq (timer_head_ st)) in
  ∃ st', AddTimer now iv fc d st = (0, Some id, st')
    ∧ Shape st' (bset bl (bucket_of e) (p :: bl (bucket_of e))) fl []
    ∧ obj st' p = mkObj 0 (hd 0%nat (bl (bucket_of e))) 1 iv fc 0 e id d
    ∧ (∀ q, q ≠ p → same_info st st' q)
    ∧ set_seq 0 (timer_head_ st')
      = set_seq 0 (set_free_head (hd 0%nat fl)
          (set_used_num (used_num (timer_head_ st) + 1) (timer_head_ st)))
    ∧ seq (timer_head_ st') = u32 (seq (timer_head_ st) + 1).
Proof.
  unfold add_args_ok. intros H S. apply andb_true_iff in H as [H1 H2].
  set (e := u64 (now + iv)) in *.
  set (id := mk_id (Z.of_nat p) (seq (timer_head_ st))).
  apply negb_true_iff in H1, H2.
  destruct (AllocNode_Shape _ _ _ _ _ S) as (st1 & Ha & S1 & Hh1 & Hf1 & Hb1 & Ho1 & Hp1).
  pose proof (Shape_free_range _ _ _ _ p S ltac:(by left)) as [Hpr Hpl].
  pose proof (sh_cap _ _ _ _ S) as Hcap.
  assert (length (timer_obj_ st1) = length (timer_obj_ st)) as Hl1.
  { rewrite (sh_no _ _ _ _ S1), (sh_no _ _ _ _ S).
    by destruct (head_frame_fields _ _ Hf1) as (-> & _). }
  assert (∀ c, p ∉ bl c) as Hpbl.
  { intros c Hx. apply (sh_disj _ _ _ _ S c p Hx). by left. }
  unfold AddTimer. rewrite H1. fold e. rewrite H2, Ha.
  replace (p =? 0)%nat with false by (symmetry; apply Nat.eqb_neq; lia).
  cbv zeta.
  set (st2 := upd_obj p (set_timer_data d) (upd_obj p (set_fire_count 0)
    (upd_obj p (set_max_fire_count fc) (upd_obj p (set_expire e)
      (upd_obj p (set_interval_ms iv)
        (upd_head (set_seq (u32 (seq (timer_head_ st1) + 1)))
          (upd_obj p (set_timer_id (mk_id (Z.of_nat p) (seq (timer_head_ st1))))
            st1))))))).
  assert (obj st2 p = mkObj 0 0 1 iv fc 0 e id d) as Hp2.
  { subst st2. obj_eq lia. obj_eq lia. obj_eq lia. obj_eq lia. obj_eq lia.
    wsimpl. obj_eq lia. rewrite Hp1.
    destruct (head_frame_fields _ _ Hf1) as (_ & -> & _). done. }
  assert (Shape st2 bl fl [p]) as S2.
  { subst st2.
    repeat first
      [ apply Shape_upd_obj; [by intros []|by intros [c Hc%Hpbl]|]
      | apply Shape_upd_head; [by intros []|] ].
    done. }
  assert (∀ q, q ≠ p → obj st2 q = obj st q) as Hq2.
  { intros q Hq. subst st2. obj_ne lia. wsimpl. obj_ne lia. by apply Ho1. }
  assert (timer_head_ st2 = set_seq (u32 (seq (timer_head_ st1) + 1)) (timer_head_ st1))
    as Hh2 by done.
  rewrite Hp2. cbn [expire timer_id].
  destruct (link_front_Shape st2 bl fl p [] (bucket_of e) S2)
    as (S3 & Hh3 & Hi3).
  { apply bucket_of_lt. }
  { by rewrite Hp2. }
  { rewrite Hp2. simpl. subst id. apply id_pos_mk_id. lia. }
  { by rewrite Hp2. }
  destruct (link_front_raw st2 (bucket_of e) p) as (_ & _ & _ & _ & _ & R1 & R2 & _).
  { rewrite (sh_no _ _ _ _ S2). rewrite (sh_no _ _ _ _ S) in Hpl.
    rewrite Hh2. cbn. by destruct (head_frame_fields _ _ Hf1) as (-> & _). }
  { rewrite (sh_nb _ _ _ _ S2). apply bucket_of_lt. }
  { rewrite (sh_head _ _ _ _ S2) by apply bucket_of_lt.
    destruct (hd_elem_of (bl (bucket_of e))) as [[-> _]|Hin]; [lia|].
    intros E. rewrite E in Hin. by apply (Hpbl _ Hin). }
  { rewrite (sh_head _ _ _ _ S2) by apply bucket_of_lt.
    destruct (hd_elem_of (bl (bucket_of e))) as [[-> _]|Hin].
    - rewrite (sh_no _ _ _ _ S2). lia.
    - by apply (Shape_bucket_range _ _ _ _ _ _ S2 Hin). }
  rewrite (sh_head _ _ _ _ S2) in R2 by apply bucket_of_lt.
  assert (obj (link_front (bucket_of e) p st2) p
          = mkObj 0 (hd 0%nat (bl (bucket_of e))) 1 iv fc 0 e id d) as Hp3.
  { pose proof (conj R1 (conj R2 (same_info_fields _ _ _ (Hi3 p)))) as A.
    rewrite Hp2 in A. revert A.
    destruct (obj (link_front (bucket_of e) p st2) p). simpl.
    by intros (-> & -> & -> & -> & -> & -> & -> & -> & ->). }
  rewrite Hp3. cbn [timer_id].
  eexists. split; [reflexivity|]. split_and!; try done.
  - intros q Hq. eapply same_info_trans; [|apply Hi3].
    unfold same_info. by rewrite Hq2.
  - rewrite Hh3, Hh2, Hh1. done.
  - rewrite Hh3, Hh2. cbn. by destruct (head_frame_fields _ _ Hf1) as (_ & -> & _).
Qed.

(** ** [DelTimer], [GetExpireTime] *)

(** the handle check shared by [DelTimer] and [GetExpireTime] *)
Definition handle_ok (id : Z) st : bool :=
  negb ((id_pos id <=? 0) || (id_pos id >? Z.of_nat (max_num (timer_head_ st))))
  && negb (negb (timer_id (obj st (Z.to_nat (id_pos id))) =? id)
           || (used (obj st (Z.to_nat (id_pos id))) =? 0)).

Lemma handle_ok_true id st :
  handle_ok id st = true ↔
  1 ≤ id_pos id ≤ Z.of_nat (max_num (timer_head_ st))
  ∧ timer_id (obj st (Z.to_nat (id_pos id))) = id
  ∧ used (obj st (Z.to_nat (id_pos id))) ≠ 0.
Proof.
  unfold handle_ok. rewrite andb_true_iff, !negb_true_iff, !orb_false_iff.
  rewrite negb_false_iff. rewrite Z.leb_gt, Z.gtb_ltb, Z.ltb_ge, Z.eqb_eq, Z.eqb_neq.
  lia.
Qed.

Lemma DelTimer_rejects id st :
  handle_ok id st = false → DelTimer id st = Some (-1, st).
Proof.
  unfold handle_ok, DelTimer.
  destruct ((id_pos id <=? 0) || _); [done|]. simpl.
  by intros ->%negb_false_iff.
Qed.

Lemma GetExpireTime_rejects id st :
  handle_ok id st = false → GetExpireTime id st = (-1, None).
Proof.
  unfold handle_ok, GetExpireTime.
  destruct ((id_pos id <=? 0) || _); [done|]. simpl.
  by intros ->%negb_false_iff.
Qed.

Lemma GetExpireTime_accepts id st :
  handle_ok id st = true →
  GetExpireTime id st = (0, Some (u64 (expire (obj st (Z.to_nat (id_pos id)))))).
Proof.
  unfold handle_ok, GetExpireTime. intros [H1 H2]%andb_true_iff.
  apply negb_true_iff in H1, H2. by rewrite H1, H2.
Qed.

Lemma find_node_hit st id p pv l1 l2 nx fuel :
  dseg st pv (l1 ++ p :: l2) nx →
  (∀ q, q ∈ l1 → q ≠ 0%nat ∧ timer_id (obj st q) ≠ id) →
  p ≠ 0%nat → timer_id (obj st p) = id → (length l1 < fuel)%nat →
  find_node fuel id (hd nx (l1 ++ p :: l2)) st = Some p.
Proof.
  revert pv fuel. induction l1 as [|q t IH]; intros pv fuel Hd Hl Hp Hid Hf.
  - destruct fuel as [|f]; [simpl in Hf; lia|]. simpl.
    replace (0 <? p)%nat with true by (symmetry; apply Nat.ltb_lt; lia).
    by rewrite Hid, Z.eqb_refl.
  - destruct fuel as [|f]; [simpl in Hf; lia|].
    change ((q :: t) ++ p :: l2) with (q :: (t ++ p :: l2)) in *.
    destruct Hd as (_ & Hn & Hd). cbn [hd find_node].
    destruct (Hl q ltac:(by left)) as [Hq0 Hqid].
    replace (0 <? q)%nat with true by (symmetry; apply Nat.ltb_lt; lia).
    replace (timer_id (obj st q) =? id) with false
      by (symmetry; by apply Z.eqb_neq).
    rewrite Hn. apply (IH q); try done.
    + intros r Hr. apply Hl. by right.
    + simpl in Hf. lia.
Qed.

Lemma find_node_miss st id pv l fuel :
  dseg st pv l 0 →
  (∀ q, q ∈ l → q ≠ 0%nat ∧ timer_id (obj st q) ≠ id) →
  (length l < fuel)%nat →
  find_node fuel id (hd 0%nat l) st = Some 0%nat.
Proof.
  revert pv fuel. induction l as [|q t IH]; intros pv fuel Hd Hl Hf.
  - destruct fuel as [|f]; [simpl in Hf; lia|]. done.
  - destruct fuel as [|f]; [simpl in Hf; lia|].
    destruct Hd as (_ & Hn & Hd). cbn [hd find_node].
    destruct (Hl q ltac:(by left)) as [Hq0 Hqid].
    replace (0 <? q)%nat with true by (symmetry; apply Nat.ltb_lt; lia).
    replace (timer_id (obj st q) =? id) with false
      by (symmetry; by apply Z.eqb_neq).
    rewrite Hn. apply (IH q); try done.
    + intros r Hr. apply Hl. by right.
    + simpl in Hf. lia.
Qed.

Lemma Shape_bucket_length st bl fl out b :
  Shape st bl fl out → (length (bl b) < length (timer_obj_ st))%nat.
Proof.
  intros S. rewrite (sh_no _ _ _ _ S).
  assert (length (bl b) ≤ max_num (timer_head_ st))%nat; [|lia].
  apply nodup_range_length; [apply (sh_nodup_b _ _ _ _ S)|].
  intros p Hp. by apply (Shape_bucket_range _ _ _ _ _ _ S Hp).
Qed.

Lemma Shape_other_ids st bl fl out b l p id :
  Shape st bl fl out → (∀ q, q ∈ l → q ∈ bl b) → p ∉ l →
  id_pos id = Z.of_nat p →
  ∀ q, q ∈ l → q ≠ 0%nat ∧ timer_id (obj st q) ≠ id.
Proof.
  intros S Hl Hp Hid q Hq.
  pose proof (Shape_bucket_range _ _ _ _ _ _ S (Hl q Hq)).
  destruct (sh_live _ _ _ _ S b q (Hl q Hq)) as (_ & Hqid & _).
  split; [lia|]. intros E. rewrite E, Hid in Hqid.
  apply Hp. by replace p with q by lia.
Qed.

(** a handle that passes the check but names a slot in no bucket *)
Lemma DelTimer_unlinked st bl fl id :
  Shape st bl fl [] → handle_ok id st = true →
  (∀ b, Z.to_nat (id_pos id) ∉ bl b) →
  DelTimer id st = Some (-1, st).
Proof.
  intros S Hok Hno. unfold DelTimer. unfold handle_ok in Hok.
  apply andb_true_iff in Hok as [H1 H2]. apply negb_true_iff in H1, H2.
  rewrite H1, H2. cbv zeta.
  set (p := Z.to_nat (id_pos id)) in *. set (b := bucket_of (expire (obj st p))).
  rewrite (sh_head _ _ _ _ S b) by apply bucket_of_lt.
  rewrite (find_node_miss st id 0 (bl b)); [done|apply (sh_dseg _ _ _ _ S)| |].
  - apply (Shape_other_ids _ _ _ _ b _ p _ S); [done|apply Hno|].
    apply orb_false_iff in H1 as [H1 _]. apply Z.leb_gt in H1. subst p. lia.
  - apply (Shape_bucket_length _ _ _ _ _ S).
Qed.

Lemma DelTimer_ok st bl fl id b l1 l2 :
  let p := Z.to_nat (id_pos id) in
  Shape st bl fl [] → handle_ok id st = true → bl b = l1 ++ p :: l2 →
  ∃ st', DelTimer id st = Some (0, st')
    ∧ Shape st' (bset bl b (l1 ++ l2)) (p :: fl) []
    ∧ head_frame st st'
    ∧ (∀ q, q ≠ p → same_info st st' q)
    ∧ used (obj st' p) = 0
    ∧ set_used 0 (set_prev 0 (set_next 0 (obj st' p)))
      = set_used 0 (set_prev 0 (set_next 0 (obj st p))).
Proof.
  intros p S Hok Eb. unfold DelTimer. unfold handle_ok in Hok.
  apply andb_true_iff in Hok as [H1 H2]. apply negb_true_iff in H1, H2.
  rewrite H1, H2. cbv zeta. fold p.
  assert (p ∈ bl b) as Hpb. { rewrite Eb. apply elem_of_app. right. by left. }
  destruct (sh_live _ _ _ _ S b p Hpb) as (Hu & Hid & Hex). rewrite Hex.
  pose proof (Shape_bucket_lt _ _ _ _ _ _ S Hpb) as Hb.
  pose proof (Shape_bucket_range _ _ _ _ _ _ S Hpb) as [Hpr Hpl].
  pose proof (sh_nodup_b _ _ _ _ S b) as Hnd. rewrite Eb in Hnd.
  apply list.NoDup_app in Hnd as (_ & Hn2 & _).
  rewrite (sh_head _ _ _ _ S b) by done. rewrite Eb.
  apply orb_false_iff in H2 as [H2 _]. apply negb_false_iff, Z.eqb_eq in H2.
  rewrite (find_node_hit st id p 0 l1 l2 0).
  - replace (0 <? p)%nat with true by (symmetry; apply Nat.ltb_lt; lia).
    destruct (unlink_del_Shape _ _ _ _ _ _ _ _ S Eb) as (S1 & Hh1 & Hi1 & Hp1).
    destruct (FreeNode_Shape _ _ _ _ _ S1) as (S2 & Hh2 & Hb2 & Ho2 & Hp2).
    eexists. split; [reflexivity|]. split_and!; try done.
    + eapply head_frame_trans; [|exact Hh2]. unfold head_frame. by rewrite Hh1.
    + intros q Hq. eapply same_info_trans; [apply Hi1|].
      unfold same_info. by rewrite Ho2.
    + by rewrite Hp2.
    + rewrite Hp2, Hp1. done.
  - rewrite <- Eb. apply (sh_dseg _ _ _ _ S).
  - apply (Shape_other_ids _ _ _ _ b _ p _ S).
    + intros q Hq. rewrite Eb. apply elem_of_app. by left.
    + intros Hx. apply (Hn2 p Hx). by left.
    + subst p. apply orb_false_iff in H1 as [H1 _]. apply Z.leb_gt in H1. lia.
  - lia.
  - done.
  - pose proof (Shape_bucket_length _ _ _ _ b S) as Hlen. rewrite Eb in Hlen.
    rewrite length_app in Hlen. lia.
Qed.

(** ** One bucket walk of [Update] *)

(** both unlink sequences of the source write the same cells *)
Lemma unlink_upd_eq i p st : unlink_upd i p st = unlink_del (cur_bucket i st) p st.
Proof.
  unfold unlink_upd, unlink_del.
  destruct (prev (obj st p)) as [|pv] eqn:E; simpl.
  - rewrite !obj_upd_bucket, E. done.
  - done.
Qed.

Lemma cur_bucket_frame i st st' : head_frame st st' → cur_bucket i st' = cur_bucket i st.
Proof.
  intros H. unfold cur_bucket. by destruct (head_frame_fields _ _ H) as (_ & _ & -> & _).
Qed.

End Operations.

(** * Callbacks and the bucket walk *)

Section Walk.

Context {T : Type} `{!Inhabited T}.
Implicit Types (st : TimerMgr T) (p q b : nat) (l fl out : list nat)
  (bl : nat → list nat).

Variable OnTimeout : Z → T → TimerMgr T → TimerMgr T.

(** a callback that calls [DelTimer] on the handle it was given *)
Definition self_del (id : Z) st : TimerMgr T :=
  match DelTimer id st with Some (_, st') => st' | None => st end.

Definition cb_keeps (id : Z) (d : T) : Prop := ∀ st, OnTimeout id d st = st.
Definition cb_deletes (id : Z) (d : T) : Prop :=
  ∀ st, OnTimeout id d st = self_del id st.

(** the callbacks covered by the walk lemmas: each call either leaves the
    wheel alone or deletes the timer that is firing *)
Definition benign : Prop :=
  ∀ id d st, OnTimeout id d st = st ∨ OnTimeout id d st = self_del id st.

(** what [OnTimeout] is called with for slot [p] *)
Definition entry st p : Z * T := (timer_id (obj st p), timer_data (obj st p)).

(** [max_fire_count != 0 && fire_count >= max_fire_count] *)
Definition exhausted (o : TimerObj T) : bool :=
  negb (max_fire_count o =? 0) && (fire_count o >=? max_fire_count o).

Definition others_kept st st' bl bl' fl fl' (P : nat → Prop) : Prop :=
  ∀ q, P q → same_info st st' q ∧ (∀ c, q ∈ bl c → q ∈ bl' c) ∧ (q ∈ fl → q ∈ fl').

Lemma others_kept_trans st1 st2 st3 bl1 bl2 bl3 fl1 fl2 fl3 (P Q R : nat → Prop) :
  (∀ q, R q → P q) → (∀ q, R q → Q q) →
  others_kept st1 st2 bl1 bl2 fl1 fl2 P → others_kept st2 st3 bl2 bl3 fl2 fl3 Q →
  others_kept st1 st3 bl1 bl3 fl1 fl3 R.
Proof.
  intros HP HQ H1 H2 q Hq.
  destruct (H1 q (HP q Hq)) as (A1 & A2 & A3).
  destruct (H2 q (HQ q Hq)) as (B1 & B2 & B3).
  split_and!.
  - by eapply same_info_trans.
  - intros c Hc. by apply B2, A2.
  - intros Hf. by apply B3, A3.
Qed.

Lemma core_eq_intro (o o' : TimerObj T) :
  interval_ms o' = interval_ms o → max_fire_count o' = max_fire_count o →
  fire_count o' = fire_count o → timer_id o' = timer_id o →
  timer_data o' = timer_data o →
  set_used 0 (set_expire 0 (set_prev 0 (set_next 0 o')))
  = set_used 0 (set_expire 0 (set_prev 0 (set_next 0 o))).
Proof. destruct o, o'; simpl. by intros -> -> -> -> ->. Qed.

Lemma core_eq_fields (o o' : TimerObj T) :
  set_used 0 (set_expire 0 (set_prev 0 (set_next 0 o')))
  = set_used 0 (set_expire 0 (set_prev 0 (set_next 0 o))) →
  interval_ms o' = interval_ms o ∧ max_fire_count o' = max_fire_count o
  ∧ fire_count o' = fire_count o ∧ timer_id o' = timer_id o
  ∧ timer_data o' = timer_data o.
Proof. destruct o, o'; simpl. by intros [= -> -> -> -> ->]. Qed.

Lemma self_del_spec st bl fl b pre p rest :
  Shape st bl fl [] → bl b = pre ++ p :: rest →
  let st2 := self_del (timer_id (obj st p)) st in
  Shape st2 (bset bl b (pre ++ rest)) (p :: fl) []
  ∧ head_frame st st2
  ∧ (∀ q, q ≠ p → same_info st st2 q)
  ∧ used (obj st2 p) = 0
  ∧ set_used 0 (set_prev 0 (set_next 0 (obj st2 p)))
    = set_used 0 (set_prev 0 (set_next 0 (obj st p))).
Proof.
  intros S Eb.
  assert (p ∈ bl b) as Hpb. { rewrite Eb. apply elem_of_app. right. by left. }
  destruct (sh_live _ _ _ _ S b p Hpb) as (Hu & Hid & Hex).
  pose proof (Shape_bucket_range _ _ _ _ _ _ S Hpb) as [Hpr Hpl].
  assert (Z.to_nat (id_pos (timer_id (obj st p))) = p) as Hp by lia.
  assert (handle_ok (timer_id (obj st p)) st = true) as Hok.
  { apply handle_ok_true. rewrite Hp. split_and!; [lia|lia|done|done]. }
  destruct (DelTimer_ok st bl fl (timer_id (obj st p)) b pre rest S Hok)
    as (st' & Hd & S' & Hh & Ho & Hu' & Hp').
  { by rewrite Hp. }
  unfold self_del. rewrite Hd. rewrite Hp in *. done.
Qed.

Lemma settle_spec now i st bl fl pre p rest :
  Shape st bl fl [] → bl (cur_bucket i st) = pre ++ p :: rest →
  let st3 := settle now i p st in
  let e' := u64 (now + interval_ms (obj st p)) in
  ∃ bl3 fl3 pre',
    Shape st3 bl3 fl3 [] ∧ bl3 (cur_bucket i st) = pre' ++ rest
    ∧ head_frame st st3
    ∧ others_kept st st3 bl bl3 fl fl3 (λ q, q ≠ p)
    ∧ set_used 0 (set_expire 0 (set_prev 0 (set_next 0 (obj st3 p))))
      = set_used 0 (set_expire 0 (set_prev 0 (set_next 0 (obj st p))))
    ∧ ((exhausted (obj st p) = true ∧ used (obj st3 p) = 0
        ∧ expire (obj st3 p) = expire (obj st p) ∧ p ∈ fl3)
       ∨ (exhausted (obj st p) = false ∧ used (obj st3 p) = used (obj st p)
          ∧ expire (obj st3 p) = e' ∧ p ∈ bl3 (bucket_of e'))).
Proof.
  intros S Eb. set (b := cur_bucket i st) in *.
  assert (p ∈ bl b) as Hpb. { rewrite Eb. apply elem_of_app. right. by left. }
  destruct (sh_live _ _ _ _ S b p Hpb) as (Hu & Hid & Hex).
  pose proof (Shape_bucket_range _ _ _ _ _ _ S Hpb) as [Hpr Hpl].
  destruct (unlink_del_Shape _ _ _ _ _ _ _ _ S Eb) as (Su & Hhu & Hiu & Hpu).
  set (blu := bset bl b (pre ++ rest)) in *.
  assert (∀ c q, q ≠ p → q ∈ bl c → q ∈ blu c) as Hmem.
  { intros c q Hq Hc. subst blu. destruct (decide (c = b)) as [->|Hne].
    - rewrite bset_eq. rewrite Eb in Hc.
      rewrite elem_of_app, elem_of_cons in Hc. rewrite elem_of_app. tauto.
    - by rewrite bset_ne. }
  intros st3 e'. subst st3. unfold settle. rewrite unlink_upd_eq. fold b.
  set (stu := unlink_del b p st) in *. rewrite Hpu. fold (exhausted (obj st p)).
  destruct (exhausted (obj st p)) eqn:Eex.
  - destruct (FreeNode_Shape _ _ _ _ _ Su) as (S3 & Hh3 & Hb3 & Ho3 & Hp3).
    exists blu, (p :: fl), pre. split_and!; try done.
    + subst blu. by rewrite bset_eq.
    + eapply head_frame_trans; [|exact Hh3]. unfold head_frame. by rewrite Hhu.
    + intros q Hq. split_and!.
      * eapply same_info_trans; [apply Hiu|]. unfold same_info. by rewrite Ho3.
      * intros c. by apply Hmem.
      * intros Hf. by right.
    + rewrite Hp3, Hpu. done.
    + left. rewrite Hp3, Hpu. split_and!; try done. by left.
  - unfold rearm. rewrite Hpu. fold e'.
    set (ste := upd_obj p (set_expire e') stu).
    assert (p < length (timer_obj_ stu))%nat as Hplu.
    { rewrite (sh_no _ _ _ _ Su), Hhu. rewrite (sh_no _ _ _ _ S) in Hpl. done. }
    assert (obj ste p = set_expire e' (obj st p)) as Hpe.
    { subst ste. rewrite obj_upd_obj_eq by done. by rewrite Hpu. }
    assert (Shape ste blu fl [p]) as Se.
    { subst ste. apply Shape_upd_obj; [by intros []| |done].
      intros (c & Hc). exfalso. apply (sh_disj _ _ _ _ Su c p Hc).
      apply elem_of_app. right. by left. }
    rewrite Hpe. cbn [expire set_expire].
    destruct (link_front_Shape ste blu fl p [] (bucket_of e') Se) as (S3 & Hh3 & Hi3).
    { apply bucket_of_lt. }
    { by rewrite Hpe. }
    { by rewrite Hpe. }
    { by rewrite Hpe. }
    assert (∀ q, q ≠ p → same_info st ste q) as Hoe.
    { intros q Hq. eapply same_info_trans; [apply Hiu|].
      unfold same_info. subst ste. by rewrite obj_upd_obj_ne. }
    exists (bset blu (bucket_of e') (p :: blu (bucket_of e'))), fl,
      (if decide (b = bucket_of e') then p :: pre else pre).
    split_and!; try done.
    + destruct (decide (b = bucket_of e')) as [E|E].
      * rewrite <- E, bset_eq. subst blu. by rewrite bset_eq.
      * rewrite bset_ne by done. subst blu. by rewrite bset_eq.
    + unfold head_frame. rewrite Hh3. subst ste. wsimpl. by rewrite Hhu.
    + intros q Hq. split_and!; [|intros c Hc|done].
      * eapply same_info_trans; [by apply Hoe|apply Hi3].
      * destruct (decide (c = bucket_of e')) as [->|Hne].
        -- rewrite bset_eq. right. by apply Hmem.
        -- rewrite bset_ne by done. by apply Hmem.
    + destruct (same_info_fields _ _ _ (Hi3 p)) as (_ & A1 & A2 & A3 & _ & A4 & A5).
      rewrite Hpe in A1, A2, A3, A4, A5. by apply core_eq_intro.
    + right. destruct (same_info_fields _ _ _ (Hi3 p)) as (-> & _ & _ & _ & -> & _).
      rewrite Hpe. split_and!; try done. rewrite bset_eq. by left.
Qed.

(** what one visit of [Update] leaves behind for the slot it fired *)
Definition fired st st' (now : Z) q bl' fl' : Prop :=
  let o := obj st q in
  let o' := obj st' q in
  fire_count o' = to_int (fire_count o + 1)
  ∧ interval_ms o' = interval_ms o ∧ max_fire_count o' = max_fire_count o
  ∧ timer_id o' = timer_id o ∧ timer_data o' = timer_data o
  ∧ ((used o' = 0 ∧ expire o' = expire o ∧ q ∈ fl'
      ∧ (exhausted o' = true ∨ ¬ cb_keeps (timer_id o) (timer_data o)))
     ∨ (used o' = used o ∧ expire o' = u64 (now + interval_ms o)
        ∧ q ∈ bl' (bucket_of (expire o')) ∧ exhausted o' = false
        ∧ ¬ cb_deletes (timer_id o) (timer_data o))).

Lemma walk_step now i st bl fl pre p rest f log :
  benign → Shape st bl fl [] → bl (cur_bucket i st) = pre ++ p :: rest →
  ∃ st3 bl3 fl3 pre',
    walk OnTimeout (S f) now i p st log
    = walk OnTimeout f now i (hd 0%nat rest) st3 (log ++ [entry st p])
    ∧ Shape st3 bl3 fl3 [] ∧ bl3 (cur_bucket i st) = pre' ++ rest
    ∧ head_frame st st3
    ∧ others_kept st st3 bl bl3 fl fl3 (λ q, q ≠ p)
    ∧ fired st st3 now p bl3 fl3.
Proof.
  intros Hben S Eb. set (b := cur_bucket i st) in *.
  assert (p ∈ bl b) as Hpb. { rewrite Eb. apply elem_of_app. right. by left. }
  destruct (sh_live _ _ _ _ S b p Hpb) as (Hu & Hid & Hex).
  pose proof (Shape_bucket_range _ _ _ _ _ _ S Hpb) as [Hpr Hpl].
  pose proof (sh_dseg _ _ _ _ S b) as Hd. rewrite Eb in Hd.
  apply dseg_app in Hd as [_ (_ & Hnx & _)].
  pose proof (sh_nodup_b _ _ _ _ S b) as Hnd. rewrite Eb in Hnd.
  apply list.NoDup_app in Hnd as (_ & _ & Hnd).
  apply list.NoDup_cons in Hnd as [Hprest _].
  cbn [walk].
  replace (0 <? p)%nat with true by (symmetry; apply Nat.ltb_lt; lia).
  cbv zeta.
  set (st1 := upd_obj p (λ o, set_fire_count (to_int (fire_count o + 1)) o) st).
  assert (obj st1 p = set_fire_count (to_int (fire_count (obj st p) + 1)) (obj st p))
    as Hp1 by (subst st1; by rewrite obj_upd_obj_eq).
  assert (∀ q, q ≠ p → obj st1 q = obj st q) as Hq1
    by (intros q Hq; subst st1; by rewrite obj_upd_obj_ne).
  assert (Shape st1 bl fl []) as S1.
  { subst st1. apply Shape_upd_obj; [by intros []|by intros _ []|done]. }
  assert (head_frame st st1) as Hh1 by done.
  assert (cur_bucket i st1 = b) as Hb1 by done.
  rewrite Hp1. cbn [timer_id timer_data set_fire_count]. fold (entry st p).
  rewrite Hnx.
  assert (∀ st3 bl3 fl3 pre', Shape st3 bl3 fl3 [] → bl3 b = pre' ++ rest →
    (0 <? hd 0%nat rest)%nat && (used (obj st3 (hd 0%nat rest)) =? 0) = false) as Hgo.
  { intros st3 bl3 fl3 pre' S3 E3. destruct rest as [|r rest']; [done|]. simpl.
    assert (r ∈ bl3 b) as Hr. { rewrite E3. apply elem_of_app. right. by left. }
    destruct (sh_live _ _ _ _ S3 b r Hr) as (Hur & _).
    apply andb_false_iff. right. by apply Z.eqb_neq. }
  destruct (self_del_spec st1 bl fl b pre p rest S1 Eb) as (D1 & D2 & D3 & D4 & D5).
  rewrite Hp1 in D1, D2, D3, D4, D5. cbn [timer_id set_fire_count] in D1, D2, D3, D4, D5.
  destruct (Hben (timer_id (obj st p)) (timer_data (obj st p)) st1) as [Hcb|Hcb];
    rewrite Hcb.
  - (* the callback left the wheel alone *)
    rewrite Hp1. cbn [used next set_fire_count].
    replace (used (obj st p) =? 0) with false by (symmetry; by apply Z.eqb_neq).
    cbn [negb]. rewrite Hnx.
    destruct (settle_spec now i st1 bl fl pre p rest S1 Eb)
      as (bl3 & fl3 & pre' & S3 & E3 & H3 & O3 & C3 & R3).
    rewrite (Hgo _ _ _ _ S3 E3).
    exists (settle now i p st1), bl3, fl3, pre'. split_and!; try done.
    + intros q Hq. destruct (O3 q Hq) as (A1 & A2 & A3). split_and!; try done.
      eapply same_info_trans; [|exact A1]. unfold same_info. by rewrite Hq1.
    + apply core_eq_fields in C3 as (C1 & C2 & C3 & C4 & C5).
      rewrite Hp1 in C1, C2, C3, C4, C5, R3.
      cbn [interval_ms max_fire_count fire_count timer_id timer_data used expire
           set_fire_count] in C1, C2, C3, C4, C5, R3.
      unfold fired. cbv zeta. split_and!; try done.
      assert (exhausted (obj (settle now i p st1) p)
              = exhausted (set_fire_count (to_int (fire_count (obj st p) + 1)) (obj st p)))
        as Eex by (unfold exhausted; cbn; by rewrite C2, C3).
      rewrite Eex. destruct R3 as [(R1 & R2 & R3 & R4)|(R1 & R2 & R3 & R4)].
      * left. split_and!; try done. by left.
      * right. rewrite R3. split_and!; try done.
        intros Hdel. specialize (Hdel st1). rewrite Hcb in Hdel.
        rewrite <- Hdel in D4. rewrite Hp1 in D4. done.
  - (* the callback deleted the timer that fired *)
    rewrite D4. cbn [Z.eqb negb].
    rewrite (Hgo _ _ _ _ D1 ltac:(by rewrite bset_eq)).
    exists (self_del (timer_id (obj st p)) st1), (bset bl b (pre ++ rest)), (p :: fl), pre.
    split_and!; try done.
    + by rewrite bset_eq.
    + intros q Hq. split_and!.
      * eapply same_info_trans; [|by apply D3]. unfold same_info. by rewrite Hq1.
      * intros c Hc. destruct (decide (c = b)) as [->|Hne].
        -- rewrite bset_eq. rewrite Eb in Hc.
           rewrite elem_of_app, elem_of_cons in Hc. rewrite elem_of_app. tauto.
        -- by rewrite bset_ne.
      * intros Hf. by right.
    + assert (expire (obj (self_del (timer_id (obj st p)) st1) p) = expire (obj st p)) as Ee.
      { revert D5. destruct (obj (self_del _ st1) p), (obj st p). simpl. by intros [= ]. }
      assert (set_used 0 (set_expire 0 (set_prev 0 (set_next 0
                (obj (self_del (timer_id (obj st p)) st1) p))))
              = set_used 0 (set_expire 0 (set_prev 0 (set_next 0
                (set_fire_count (to_int (fire_count (obj st p) + 1)) (obj st p))))))
        as C3.
      { revert D5. destruct (obj (self_del _ st1) p), (obj st p). simpl.
        by intros [= -> -> -> -> -> ->]. }
      apply core_eq_fields in C3 as (C1 & C2 & C3 & C4 & C5).
      unfold fired. cbv zeta. split_and!; try done.
      left. split_and!; try done; [by left|]. right.
      intros Hk. specialize (Hk st1). rewrite Hcb in Hk. rewrite Hk, Hp1 in D4. done.
Qed.

Lemma fired_pre st0 st st' now q bl' fl' :
  same_info st0 st q → fired st st' now q bl' fl' → fired st0 st' now q bl' fl'.
Proof.
  intros (A1 & A2 & A3 & A4 & A5 & A6 & A7)%same_info_fields.
  unfold fired. cbv zeta. by rewrite A1, A2, A3, A4, A5, A6, A7.
Qed.

Lemma fired_post st st1 st' now q bl1 bl' fl1 fl' :
  fired st st1 now q bl1 fl1 → same_info st1 st' q →
  (∀ c, q ∈ bl1 c → q ∈ bl' c) → (q ∈ fl1 → q ∈ fl') →
  fired st st' now q bl' fl'.
Proof.
  intros F (A1 & A2 & A3 & A4 & A5 & A6 & A7)%same_info_fields Hb Hf.
  revert F. unfold fired, exhausted. cbv zeta. rewrite A1, A2, A3, A4, A5, A6, A7.
  intros (F1 & F2 & F3 & F4 & F5 & [(G1 & G2 & G3 & G4)|(G1 & G2 & G3 & G4 & G5)]).
  - split_and!; try done. left. split_and!; try done. by apply Hf.
  - split_and!; try done. right. split_and!; try done. by apply Hb.
Qed.

Lemma entry_same st st' q : same_info st st' q → entry st' q = entry st q.
Proof.
  intros (_ & _ & _ & _ & _ & A6 & A7)%same_info_fields.
  unfold entry. by rewrite A6, A7.
Qed.

(** a whole bucket: every slot on the list fires once, in list order *)
Lemma walk_spec now i rest :
  benign → ∀ fuel st bl fl pre log,
  Shape st bl fl [] → bl (cur_bucket i st) = pre ++ rest →
  (length rest < fuel)%nat →
  ∃ st' bl' fl',
    walk OnTimeout fuel now i (hd 0%nat rest) st log
    = Some (st', log ++ (entry st <$> rest))
    ∧ Shape st' bl' fl' [] ∧ head_frame st st'
    ∧ others_kept st st' bl bl' fl fl' (λ q, q ∉ rest)
    ∧ (∀ q, q ∈ rest → fired st st' now q bl' fl').
Proof.
  intros Hben. induction rest as [|p rest IH]; intros fuel st bl fl pre log S Eb Hf.
  - destruct fuel as [|f]; [simpl in Hf; lia|].
    exists st, bl, fl. simpl. rewrite app_nil_r. split_and!; try done.
    intros q Hq. by apply elem_of_nil in Hq.
  - destruct fuel as [|f]; [simpl in Hf; lia|]. cbn [hd].
    pose proof (sh_nodup_b _ _ _ _ S (cur_bucket i st)) as Hnd. rewrite Eb in Hnd.
    apply list.NoDup_app in Hnd as (_ & _ & Hnd).
    apply list.NoDup_cons in Hnd as [Hprest _].
    destruct (walk_step now i st bl fl pre p rest f log Hben S Eb)
      as (st3 & bl3 & fl3 & pre' & W & S3 & E3 & H3 & O3 & F3).
    rewrite <- (cur_bucket_frame i st st3 H3) in E3.
    destruct (IH f st3 bl3 fl3 pre' (log ++ [entry st p]) S3 E3 ltac:(simpl in Hf; lia))
      as (st' & bl' & fl' & W' & S' & H' & O' & F').
    exists st', bl', fl'. split_and!; try done.
    + rewrite W, W'. rewrite fmap_cons, <- app_assoc. simpl.
      replace (entry st3 <$> rest) with (entry st <$> rest); [done|].
      apply Forall_fmap_ext_1, list.Forall_forall. intros q Hq. symmetry.
      apply entry_same. apply O3. simpl. by intros ->.
    + by eapply head_frame_trans.
    + eapply others_kept_trans; [| |exact O3|exact O']; simpl.
      * intros q Hq ->. apply Hq. by left.
      * intros q Hq Hq'. apply Hq. by right.
    + intros q [->|Hq]%elem_of_cons.
      * destruct (O' p Hprest) as (A1 & A2 & A3). by eapply fired_post.
      * eapply fired_pre; [|by apply F']. apply O3. by intros ->.
Qed.

(** ** The tick loop and [Update] *)

Lemma walk_bucket now i fuel st bl fl log :
  benign → Shape st bl fl [] →
  (length (bl (cur_bucket i st)) < fuel)%nat →
  ∃ st' bl' fl',
    walk OnTimeout fuel now i (bucket_head st (cur_bucket i st)) st log
    = Some (st', log ++ (entry st <$> bl (cur_bucket i st)))
    ∧ Shape st' bl' fl' [] ∧ head_frame st st'
    ∧ others_kept st st' bl bl' fl fl' (λ q, q ∉ bl (cur_bucket i st))
    ∧ (∀ q, q ∈ bl (cur_bucket i st) → fired st st' now q bl' fl').
Proof.
  intros Hben S Hf.
  rewrite (sh_head _ _ _ _ S) by apply cur_bucket_lt.
  by apply (walk_spec now i _ Hben fuel st bl fl []).
Qed.

Lemma ticks_wf now k :
  benign → ∀ fuel i st bl fl log,
  Shape st bl fl [] → (max_num (timer_head_ st) < fuel)%nat →
  ∃ st' bl' fl' log',
    ticks OnTimeout fuel now k i st log = Some (st', log')
    ∧ Shape st' bl' fl' [] ∧ head_frame st st'.
Proof.
  intros Hben. induction k as [|k IH]; intros fuel i st bl fl log S Hf.
  - exists st, bl, fl, log. done.
  - cbn [ticks].
    destruct (walk_bucket now i fuel st bl fl log Hben S) as (st1 & bl1 & fl1 & W & S1 & H1 & _).
    { pose proof (Shape_bucket_length _ _ _ _ (cur_bucket i st) S) as Hl.
      rewrite (sh_no _ _ _ _ S) in Hl. lia. }
    rewrite W.
    destruct (IH fuel (i + 1) st1 bl1 fl1 (log ++ (entry st <$> bl (cur_bucket i st))) S1)
      as (st' & bl' & fl' & log' & W' & S' & H').
    { by destruct (head_frame_fields _ _ H1) as (-> & _). }
    exists st', bl', fl', log'. split_and!; try done. by eapply head_frame_trans.
Qed.

(** [Update] returns, and leaves a well-formed wheel, unless the loop over
    the elapsed ticks has no exit *)
Lemma Update_wf fuel now st :
  benign → wf st → (max_num (timer_head_ st) < fuel)%nat →
  (0 < used_num (timer_head_ st) → wheel_count (u64 now) st ≠ 2^31 - 1) →
  ∃ st' log, Update OnTimeout fuel now st = Some (0, st', log) ∧ wf st'
    ∧ cur_bucket_time (timer_head_ st') = u64 now
    ∧ cur_bucket_pos (timer_head_ st') = u64 now mod kTimerBucketNum
    ∧ max_num (timer_head_ st') = max_num (timer_head_ st)
    ∧ seq (timer_head_ st') = seq (timer_head_ st).
Proof.
  intros Hben (bl & fl & S) Hf Hwc. unfold Update. cbv zeta.
  destruct (used_num (timer_head_ st) <=? 0) eqn:Eu.
  - eexists _, _. split; [reflexivity|]. split_and!; try done.
    exists bl, fl. apply Shape_upd_head; [by intros []|done].
  - apply Z.leb_gt in Eu. specialize (Hwc Eu).
    replace (wheel_count (u64 now) st =? 2^31 - 1) with false
      by (symmetry; by apply Z.eqb_neq).
    destruct (ticks_wf (u64 now) (Z.to_nat (wheel_count (u64 now) st))
      Hben fuel 1 st bl fl [] S Hf) as (st' & bl' & fl' & log' & W & S' & H').
    rewrite W. eexists _, _. split; [reflexivity|].
    destruct (head_frame_fields _ _ H') as (F1 & F2 & _).
    split_and!; try done.
    exists bl', fl'. apply Shape_upd_head; [by intros []|done].
Qed.

End Walk.

(** * Walking the lists of a concrete state *)

Section Lists.

Context {T : Type} `{!Inhabited T}.
Implicit Types (st : TimerMgr T) (p q b : nat) (l fl out : list nat)
  (bl : nat → list nat).

(** follow [next] from [p] until 0 *)
Fixpoint chain (fuel : nat) st (p : nat) : list nat :=
  match fuel with
  | O => []
  | S f => if (0 <? p)%nat then p :: chain f st (next (obj st p)) else []
  end.

(** the slots linked into bucket [b], the slots on the free list, and the
    slots linked into any bucket *)
Definition bucket_slots st (b : nat) : list nat :=
  chain (length (timer_obj_ st)) st (bucket_head st b).
Definition free_slots st : list nat :=
  chain (length (timer_obj_ st)) st (free_head (timer_head_ st)).
Definition linked st : list nat :=
  List.seq 0 (Z.to_nat kTimerBucketNum) ≫= bucket_slots st.

Lemma chain_dseg st pv l fuel :
  dseg st pv l 0 → (∀ q, q ∈ l → q ≠ 0%nat) → (length l < fuel)%nat →
  chain fuel st (hd 0%nat l) = l.
Proof.
  revert pv fuel. induction l as [|p t IH]; intros pv fuel Hd Hnz Hf.
  - destruct fuel; [simpl in Hf; lia|done].
  - destruct fuel as [|f]; [simpl in Hf; lia|]. destruct Hd as (_ & Hn & Hd).
    cbn [hd chain].
    replace (0 <? p)%nat with true
      by (symmetry; apply Nat.ltb_lt; specialize (Hnz p ltac:(by left)); lia).
    rewrite Hn, (IH p); try done.
    + intros q Hq. apply Hnz. by right.
    + simpl in Hf. lia.
Qed.

Lemma chain_fseg st l fuel :
  fseg st l → (∀ q, q ∈ l → q ≠ 0%nat) → (length l < fuel)%nat →
  chain fuel st (hd 0%nat l) = l.
Proof.
  revert fuel. induction l as [|p t IH]; intros fuel Hd Hnz Hf.
  - destruct fuel; [simpl in Hf; lia|done].
  - destruct fuel as [|f]; [simpl in Hf; lia|]. destruct Hd as (Hn & Hd).
    cbn [hd chain].
    replace (0 <? p)%nat with true
      by (symmetry; apply Nat.ltb_lt; specialize (Hnz p ltac:(by left)); lia).
    rewrite Hn, IH; try done.
    + intros q Hq. apply Hnz. by right.
    + simpl in Hf. lia.
Qed.

Lemma bucket_slots_Shape st bl fl out b :
  Shape st bl fl out → bucket_slots st b = bl b.
Proof.
  intros S. unfold bucket_slots. destruct (decide (b < 60)%nat) as [Hb|Hb].
  - rewrite (sh_head _ _ _ _ S b Hb). apply (chain_dseg st 0).
    + apply (sh_dseg _ _ _ _ S).
    + intros q Hq. pose proof (Shape_bucket_range _ _ _ _ _ _ S Hq). lia.
    + apply (Shape_bucket_length _ _ _ _ _ S).
  - rewrite (sh_bl_out _ _ _ _ S b) by lia.
    replace (bucket_head st b) with 0%nat.
    + rewrite (sh_no _ _ _ _ S). done.
    + Local Transparent bucket_head. unfold bucket_head.
      rewrite list_lookup_total_alt, lookup_ge_None_2; [done|].
      rewrite (sh_nb _ _ _ _ S). lia.
Qed.
Local Opaque bucket_head.

Lemma free_slots_Shape st bl fl out :
  Shape st bl fl out → free_slots st = fl.
Proof.
  intros S. unfold free_slots. rewrite (sh_free_head _ _ _ _ S).
  apply chain_fseg.
  - apply (sh_fseg _ _ _ _ S).
  - intros q Hq.
    pose proof (Shape_free_range _ _ _ _ q S ltac:(apply elem_of_app; by left)). lia.
  - pose proof (Shape_free_length _ _ _ _ S). rewrite (sh_no _ _ _ _ S). lia.
Qed.

Lemma linked_Shape st bl fl out :
  Shape st bl fl out → linked st = List.seq 0 60 ≫= bl.
Proof.
  intros S. unfold linked. apply list_bind_ext; [|done].
  intros b. by apply (bucket_slots_Shape _ _ _ _ _ S).
Qed.

Lemma elem_of_linked st bl fl out p :
  Shape st bl fl out → p ∈ linked st ↔ ∃ b, p ∈ bl b.
Proof.
  intros S. rewrite (linked_Shape _ _ _ _ S), list_elem_of_bind. split.
  - intros (b & Hp & _). by exists b.
  - intros (b & Hp). exists b. split; [done|]. apply elem_of_seq.
    pose proof (Shape_bucket_lt _ _ _ _ _ _ S Hp). lia.
Qed.

Lemma NoDup_linked st bl fl out : Shape st bl fl out → NoDup (linked st).
Proof.
  intros S. rewrite (linked_Shape _ _ _ _ S). apply NoDup_bind.
  - intros b c p _ _ Hb Hc. by apply (Shape_bucket_unique _ _ _ _ _ _ _ S Hb Hc).
  - intros b _. apply (sh_nodup_b _ _ _ _ S).
  - apply NoDup_seq.
Qed.

(** the free list, the detached slots and the bucket lists partition the
    arena, hence the count *)
Lemma Shape_count st bl fl out :
  Shape st bl fl out →
  (length fl + length out + length (linked st) = max_num (timer_head_ st))%nat.
Proof.
  intros S.
  assert ((fl ++ out) ++ linked st ≡ₚ List.seq 1 (max_num (timer_head_ st))) as HP.
  { apply NoDup_Permutation.
    - apply list.NoDup_app. split_and!.
      + apply (sh_nodup _ _ _ _ S).
      + intros p Hp (b & Hb)%(elem_of_linked _ _ _ _ _ S).
        by apply (sh_disj _ _ _ _ S b p Hb).
      + apply (NoDup_linked _ _ _ _ S).
    - apply NoDup_seq.
    - intros p. rewrite elem_of_app, (elem_of_linked _ _ _ _ _ S), elem_of_seq.
      rewrite <- (sh_range _ _ _ _ S p). lia. }
  apply Permutation_length in HP. rewrite !length_app, length_seq in HP. lia.
Qed.

(** [used_num] is the number of linked slots, and is bounded by the capacity *)
Lemma wf_used_num st :
  wf st →
  used_num (timer_head_ st) = Z.of_nat (length (linked st))
  ∧ used_num (timer_head_ st) ≤ Z.of_nat (max_num (timer_head_ st)).
Proof.
  intros (bl & fl & S). pose proof (Shape_count _ _ _ _ S) as Hc. simpl in Hc.
  rewrite (sh_used_num _ _ _ _ S). lia.
Qed.

Lemma Shape_empty st bl fl out b :
  Shape st bl fl out → used_num (timer_head_ st) ≤ 0 → out = [] → bl b = [].
Proof.
  intros S Hu ->. pose proof (Shape_count _ _ _ _ S) as Hc. simpl in Hc.
  rewrite (sh_used_num _ _ _ _ S) in Hu.
  destruct (bl b) as [|p l] eqn:E; [done|].
  assert (p ∈ linked st) as Hp.
  { apply (elem_of_linked _ _ _ _ _ S). exists b. rewrite E. by left. }
  destruct (linked st); [by apply elem_of_nil in Hp|]. simpl in Hc. lia.
Qed.

End Lists.

(** * Case analysis of the public operations on a well-formed wheel *)

Section Cases.

Context {T : Type} `{!Inhabited T}.
Implicit Types (st : TimerMgr T) (p q b : nat) (l fl out : list nat)
  (bl : nat → list nat).

Lemma AddTimer_cases now iv fc (d : T) st bl fl :
  Shape st bl fl [] →
  (add_args_ok now iv fc st = false ∧ AddTimer now iv fc d st = (-1, None, st))
  ∨ (add_args_ok now iv fc st = true ∧ fl = []
     ∧ AddTimer now iv fc d st = (-2, None, st))
  ∨ (add_args_ok now iv fc st = true ∧ ∃ p fl' st',
      fl = p :: fl'
      ∧ AddTimer now iv fc d st
        = (0, Some (mk_id (Z.of_nat p) (seq (timer_head_ st))), st')
      ∧ Shape st' (bset bl (bucket_of (u64 (now + iv)))
                    (p :: bl (bucket_of (u64 (now + iv))))) fl' []
      ∧ obj st' p = mkObj 0 (hd 0%nat (bl (bucket_of (u64 (now + iv))))) 1 iv fc 0
                      (u64 (now + iv))
                      (mk_id (Z.of_nat p) (seq (timer_head_ st))) d
      ∧ (∀ q, q ≠ p → same_info st st' q)
      ∧ set_seq 0 (timer_head_ st')
        = set_seq 0 (set_free_head (hd 0%nat fl')
            (set_used_num (used_num (timer_head_ st) + 1) (timer_head_ st)))
      ∧ seq (timer_head_ st') = u32 (seq (timer_head_ st) + 1)).
Proof.
  intros S. destruct (add_args_ok now iv fc st) eqn:Ea.
  - right. destruct fl as [|p fl'].
    + left. split_and!; try done. by eapply AddTimer_full.
    + right. split; [done|].
      destruct (AddTimer_ok now iv fc d st bl p fl' Ea S)
        as (st' & A1 & A2 & A3 & A4 & A5 & A6).
      by exists p, fl', st'.
  - left. split; [done|]. by apply AddTimer_rejects.
Qed.

Lemma DelTimer_cases id st bl fl :
  Shape st bl fl [] →
  DelTimer id st = Some (-1, st)
  ∨ (handle_ok id st = true ∧ ∃ b l1 l2 st',
      bl b = l1 ++ Z.to_nat (id_pos id) :: l2
      ∧ DelTimer id st = Some (0, st')
      ∧ Shape st' (bset bl b (l1 ++ l2)) (Z.to_nat (id_pos id) :: fl) []
      ∧ head_frame st st'
      ∧ (∀ q, q ≠ Z.to_nat (id_pos id) → same_info st st' q)
      ∧ used (obj st' (Z.to_nat (id_pos id))) = 0
      ∧ set_used 0 (set_prev 0 (set_next 0 (obj st' (Z.to_nat (id_pos id)))))
        = set_used 0 (set_prev 0 (set_next 0 (obj st (Z.to_nat (id_pos id)))))).
Proof.
  intros S. destruct (handle_ok id st) eqn:Eh; [|left; by apply DelTimer_rejects].
  set (p := Z.to_nat (id_pos id)).
  set (b := bucket_of (expire (obj st p))).
  destruct (decide (p ∈ bl b)) as [Hin|Hout].
  - right. split; [done|].
    apply list_elem_of_split in Hin as (l1 & l2 & Eb).
    destruct (DelTimer_ok st bl fl id b l1 l2 S Eh Eb)
      as (st' & D1 & D2 & D3 & D4 & D5 & D6).
    by exists b, l1, l2, st'.
  - left. apply (DelTimer_unlinked st bl fl id S Eh).
    intros c Hc. apply Hout.
    by destruct (sh_live _ _ _ _ S c _ Hc) as (_ & _ & <-).
Qed.

Lemma AddTimer_wf now iv fc (d : T) st :
  wf st → wf (AddTimer now iv fc d st).2.
Proof.
  intros (bl & fl & S).
  destruct (AddTimer_cases now iv fc d st bl fl S)
    as [(_ & ->)|[(_ & _ & ->)|(_ & p & fl' & st' & _ & -> & S' & _)]].
  - by exists bl, fl.
  - by exists bl, fl.
  - by eexists _, _.
Qed.

Lemma DelTimer_wf id st :
  wf st → ∃ r st', DelTimer id st = Some (r, st') ∧ wf st'.
Proof.
  intros (bl & fl & S).
  destruct (DelTimer_cases id st bl fl S)
    as [->|(_ & b & l1 & l2 & st' & _ & -> & S' & _)].
  - exists (-1), st. split; [done|]. by exists bl, fl.
  - exists 0, st'. split; [done|]. by eexists _, _.
Qed.

End Cases.

(** * Reachable wheels *)

Section Reachable.

Context {T : Type} `{!Inhabited T}.
Implicit Types (st : TimerMgr T).

Variable OnTimeout : Z → T → TimerMgr T → TimerMgr T.

(** the buffer handed to [Init] has room for the 60 buckets and the
    [timer_num + 1] slots of the layout; the slot index must fit the 32-bit
    [pos] of a handle *)
Definition layout_ok (m : TimerMgr T) (timer_num : nat) : Prop :=
  length (timer_bucket_ m) = 60%nat ∧ length (timer_obj_ m) = S timer_num
  ∧ Z.of_nat timer_num < 2^32.

Inductive reachable : TimerMgr T → Prop :=
  | reach_init sd so m size n now st :
      layout_ok m n → Init sd so (Some m) size n true now = (0, Some st) →
      reachable st
  | reach_add st now iv fc d :
      reachable st → reachable (AddTimer now iv fc d st).2
  | reach_del st id r st' :
      reachable st → DelTimer id st = Some (r, st') → reachable st'
  | reach_update st fuel now r st' log :
      reachable st → Update OnTimeout fuel now st = Some (r, st', log) →
      reachable st'.

(** more fuel never changes a result *)
Lemma walk_mono fuel fuel' now i pos st log r :
  (fuel ≤ fuel')%nat → walk OnTimeout fuel now i pos st log = Some r →
  walk OnTimeout fuel' now i pos st log = Some r.
Proof.
  revert fuel' pos st log. induction fuel as [|f IH]; intros fuel' pos st log Hle; [done|].
  destruct fuel' as [|f']; [lia|]. cbn [walk].
  destruct (0 <? pos)%nat; [|done]. cbv zeta.
  destruct (if negb _ then _ else _) as [nxt st3].
  destruct ((0 <? nxt)%nat && _); apply IH; lia.
Qed.

Lemma ticks_mono fuel fuel' now k i st log r :
  (fuel ≤ fuel')%nat → ticks OnTimeout fuel now k i st log = Some r →
  ticks OnTimeout fuel' now k i st log = Some r.
Proof.
  intros Hle. revert i st log. induction k as [|k IH]; intros i st log; [done|].
  cbn [ticks].
  destruct (walk OnTimeout fuel _ _ _ _ _) as [[st1 log1]|] eqn:W; [|done].
  rewrite (walk_mono _ _ _ _ _ _ _ _ Hle W). apply IH.
Qed.

Lemma Update_mono fuel fuel' now st r :
  (fuel ≤ fuel')%nat → Update OnTimeout fuel now st = Some r →
  Update OnTimeout fuel' now st = Some r.
Proof.
  intros Hle. unfold Update. cbv zeta.
  destruct (used_num (timer_head_ st) <=? 0); [done|].
  destruct (wheel_count (u64 now) st =? 2^31 - 1); [done|].
  destruct (ticks OnTimeout fuel _ _ _ _ _) as [[st1 log1]|] eqn:W; [|done].
  by rewrite (ticks_mono _ _ _ _ _ _ _ _ Hle W).
Qed.

(** a call that returns did not meet the loop without exit *)
Lemma Update_Some_count fuel now st r :
  Update OnTimeout fuel now st = Some r →
  0 < used_num (timer_head_ st) → wheel_count (u64 now) st ≠ 2^31 - 1.
Proof.
  unfold Update. cbv zeta. intros HU Hu.
  replace (used_num (timer_head_ st) <=? 0) with false in HU
    by (symmetry; apply Z.leb_gt; lia).
  destruct (wheel_count (u64 now) st =? 2^31 - 1) eqn:E; [done|].
  by apply Z.eqb_neq.
Qed.

Lemma Update_Some_wf fuel now st r st' log :
  benign OnTimeout → wf st → Update OnTimeout fuel now st = Some (r, st', log) →
  r = 0 ∧ wf st'.
Proof.
  intros Hben Hwf HU.
  destruct (Update_wf OnTimeout (fuel `max` S (max_num (timer_head_ st))) now st Hben Hwf)
    as (st2 & log2 & HU2 & Hwf2 & _); [lia|by eapply Update_Some_count|].
  rewrite (Update_mono fuel (fuel `max` S (max_num (timer_head_ st))) now st _
             ltac:(lia) HU) in HU2.
  by injection HU2 as -> -> ->.
Qed.

Lemma reachable_wf st : benign OnTimeout → reachable st → wf st.
Proof.
  intros Hben. induction 1 as [sd so m size n now st (Hb & Ho & Hn) HI
    |st now iv fc d _ IH|st id r st' _ IH HD|st fuel now r st' log _ IH HU].
  - destruct (Init_fresh_Shape _ _ _ _ _ _ _ _ HI Hb Ho Hn) as (_ & S & _).
    by eexists _, _.
  - by apply AddTimer_wf.
  - destruct (DelTimer_wf id st IH) as (r' & st2 & HD' & Hwf).
    rewrite HD in HD'. by injection HD' as -> ->.
  - by destruct (Update_Some_wf _ _ _ _ _ _ Hben IH HU).
Qed.

End Reachable.

(** * Concrete wheels used as examples *)

Definition zero_obj : TimerObj nat := mkObj 0 0 0 0 0 0 0 0 0%nat.

(** a zeroed buffer laid out for [n] slots *)
Definition blank (n : nat) : TimerMgr nat :=
  mkMgr (mkHead 0 0 0 0 0 0 0 0) (replicate 60 0%nat) (replicate (S n) zero_obj).

(** [Init] on that buffer, with an 8-byte payload *)
Definition fresh (n : nat) (now : Z) : TimerMgr nat :=
  match Init 8 56 (Some (blank n)) (TotalMemSize 56 n) n true now with
  | (_, Some st) => st
  | _ => blank n
  end.

Definition add (now iv fc : Z) (d : nat) (st : TimerMgr nat) : TimerMgr nat :=
  (AddTimer now iv fc d st).2.

Definition keep : Z → nat → TimerMgr nat → TimerMgr nat := fun _ _ st => st.

Lemma keep_benign : benign keep.
Proof. intros id d st. by left. Qed.

Lemma blank_layout n : Z.of_nat n < 2^32 → layout_ok (blank n) n.
Proof.
  intros Hn. unfold layout_ok, blank. simpl. rewrite !length_replicate. done.
Qed.

Lemma fresh_Init n now :
  Init 8 56 (Some (blank n)) (TotalMemSize 56 n) n true now = (0, Some (fresh n now)).
Proof.
  unfold fresh, Init. by rewrite Z.ltb_irrefl.
Qed.

Lemma fresh_reachable cb n now : Z.of_nat n < 2^32 → reachable cb (fresh n now).
Proof.
  intros Hn. eapply reach_init; [by apply blank_layout|apply fresh_Init].
Qed.

Lemma fresh_wf n now : Z.of_nat n < 2^32 → wf (fresh n now).
Proof.
  intros Hn. apply (reachable_wf keep); [apply keep_benign|by apply fresh_reachable].
Qed.

Lemma add_wf now iv fc d st : wf st → wf (add now iv fc d st).
Proof. apply AddTimer_wf. Qed.

(** * Claims *)

Section Claims.

Context {T : Type} `{!Inhabited T}.
Implicit Types (st : TimerMgr T).

(** C7. Every operation is atomic with respect to failure: when [AddTimer],
    [DelTimer] or [GetExpireTime] returns an error code the wheel state is
    returned unchanged (and no handle or expiry is written); when
    [AddTimer] or [DelTimer] succeeds on a well-formed wheel the mutation
    is complete: the wheel is well-formed again, the used count has moved
    by one, and the handle names a linked slot (after [AddTimer]) or a slot
    on the free list that the handle check rejects (after [DelTimer]). *)
Theorem failure_atomic st :
  (∀ now iv fc d r id st',
      AddTimer now iv fc d st = (r, id, st') → r ≠ 0 → st' = st ∧ id = None)
  ∧ (∀ id r st', DelTimer id st = Some (r, st') → r ≠ 0 → st' = st)
  ∧ (∀ id r e, GetExpireTime id st = (r, e) → r ≠ 0 → e = None)
  ∧ (wf st → ∀ now iv fc d r id st',
      AddTimer now iv fc d st = (r, id, st') → r = 0 →
      wf st' ∧ ∃ h, id = Some h ∧ handle_ok h st' = true
        ∧ Z.to_nat (id_pos h) ∈ linked st'
        ∧ used_num (timer_head_ st') = used_num (timer_head_ st) + 1)
  ∧ (wf st → ∀ id r st',
      DelTimer id st = Some (r, st') → r = 0 →
      wf st' ∧ handle_ok id st' = false
        ∧ Z.to_nat (id_pos id) ∈ free_slots st'
        ∧ used_num (timer_head_ st') = used_num (timer_head_ st) - 1).
Proof.
  split_and!.
  - intros now iv fc d r id st'. unfold AddTimer.
    destruct (_ || _ || _); [by intros [= <- <- <-]|].
    destruct (_ <? _); [by intros [= <- <- <-]|].
    unfold AllocNode.
    destruct ((0 <? free_head (timer_head_ st))%nat && _) eqn:E.
    + apply andb_true_iff in E as [E _]. apply Nat.ltb_lt in E.
      replace (free_head (timer_head_ st) =? 0)%nat with false
        by (symmetry; apply Nat.eqb_neq; lia).
      by intros [= <- <- <-].
    + simpl. by intros [= <- <- <-].
  - intros id r st'. unfold DelTimer.
    destruct (_ || _); [by intros [= <- <-]|].
    destruct (_ || _); [by intros [= <- <-]|]. cbv zeta.
    destruct (find_node _ _ _ _) as [nxt|]; [|done].
    destruct (0 <? nxt)%nat; by intros [= <- <-].
  - intros id r e. unfold GetExpireTime.
    destruct (_ || _); [by intros [= <- <-]|].
    destruct (_ || _); by intros [= <- <-].
  - intros (bl & fl & S) now iv fc d r id st' HA ->.
    destruct (AddTimer_cases now iv fc d st bl fl S)
      as [(_ & E)|[(_ & _ & E)|(_ & p & fl' & st2 & -> & E & S' & Hp & _ & Hh & _)]];
      rewrite E in HA; try done.
    injection HA as <- <-.
    pose proof (Shape_free_range _ _ _ _ p S ltac:(by left)) as [Hpr _].
    pose proof (sh_cap _ _ _ _ S) as Hcap.
    assert (id_pos (mk_id (Z.of_nat p) (seq (timer_head_ st))) = Z.of_nat p) as Hid
      by (apply id_pos_mk_id; lia).
    split; [by eexists _, _|]. eexists. split; [done|]. split_and!.
    + apply handle_ok_true. rewrite Hid, Nat2Z.id, Hp. simpl.
      assert (max_num (timer_head_ st2) = max_num (timer_head_ st)) as ->
        by (apply (f_equal max_num) in Hh; done).
      split_and!; [lia|lia|done|done].
    + rewrite Hid, Nat2Z.id. apply (elem_of_linked _ _ _ _ _ S').
      eexists. rewrite bset_eq. by left.
    + by apply (f_equal used_num) in Hh.
  - intros (bl & fl & S) id r st' HD ->.
    destruct (DelTimer_cases id st bl fl S)
      as [E|(_ & b & l1 & l2 & st2 & _ & E & S' & Hf & _ & Hu & _)];
      rewrite E in HD; try done.
    injection HD as <-. split; [by eexists _, _|]. split_and!.
    + apply not_true_iff_false. rewrite handle_ok_true. tauto.
    + rewrite (free_slots_Shape _ _ _ _ S'). by left.
    + rewrite (sh_used_num _ _ _ _ S'), (sh_used_num _ _ _ _ S).
      destruct (head_frame_fields _ _ Hf) as (-> & _).
      simpl length. lia.
Qed.

End Claims.

(** a full wheel of capacity 2: both slots armed for tick 1005 *)
Definition full2 : TimerMgr nat :=
  add 1000 5 1 11%nat (add 1000 5 1 10%nat (fresh 2 1000)).

Lemma full2_wf : wf full2.
Proof. apply add_wf, add_wf, fresh_wf. done. Qed.

Lemma failure_atomic_witness :
  AddTimer 1000 5 1 12%nat full2 = (-2, None, full2)
  ∧ wf full2
  ∧ (∀ st', DelTimer (mk_id 1 1000) full2 = Some (0, st') →
       wf st' ∧ handle_ok (mk_id 1 1000) st' = false).
Proof.
  destruct (failure_atomic full2) as (A & B & C & D & E).
  split_and!.
  - assert ((AddTimer 1000 5 1 12%nat full2).1.1 = -2) as Hr
      by (vm_compute; reflexivity).
    destruct (AddTimer 1000 5 1 12%nat full2) as [[r id] st'] eqn:H.
    simpl in Hr. subst r.
    destruct (A 1000 5 1 12%nat (-2) id st' H) as [-> ->];
      [clear; lia|reflexivity].
  - exact full2_wf.
  - intros st' H. destruct (E full2_wf _ _ _ H eq_refl) as (E1 & E2 & _).
    split; assumption.
Defined.

Section ClaimsAdd.

Context {T : Type} `{!Inhabited T}.
Implicit Types (st : TimerMgr T).

Lemma add_args_ok_true now iv fc st :
  add_args_ok now iv fc st = true ↔
  (0 < iv ≤ kTimerBucketNum ∧ 0 ≤ fc)
  ∧ cur_bucket_time (timer_head_ st) ≤ u64 (now + iv).
Proof.
  unfold add_args_ok.
  rewrite andb_true_iff, !negb_true_iff, !orb_false_iff.
  rewrite Z.leb_gt, Z.gtb_ltb, !Z.ltb_ge. lia.
Qed.

(** C9. On a well-formed wheel [AddTimer] returns -1 exactly when the
    interval is outside (0, B] or the fire count is negative
    (InvalidArgument) or the expiry [now + interval] is earlier than the
    last processed tick (ClockRegression); it returns -2 exactly when the
    arguments pass and the free list is empty (PoolExhausted); otherwise
    it returns 0 with the handle [(free_head, seq)] of a slot that is filled
    with the arguments, marked used and linked at the front of the bucket of
    its expiry. *)
Theorem AddTimer_fails_iff now iv fc (d : T) st :
  wf st →
  let invalid := (iv ≤ 0 ∨ kTimerBucketNum < iv ∨ fc < 0) in
  let regress := (u64 (now + iv) < cur_bucket_time (timer_head_ st)) in
  let exhausted := (free_head (timer_head_ st) = 0%nat) in
  let r := (AddTimer now iv fc d st).1.1 in
  let h := (AddTimer now iv fc d st).1.2 in
  let st' := (AddTimer now iv fc d st).2 in
  (r = -1 ↔ invalid ∨ regress)
  ∧ (r = -2 ↔ ¬ invalid ∧ ¬ regress ∧ exhausted)
  ∧ (r = 0 ↔ ¬ invalid ∧ ¬ regress ∧ ¬ exhausted)
  ∧ (r ≠ 0 ↔ invalid ∨ regress ∨ exhausted)
  ∧ (r = 0 →
     let p := free_head (timer_head_ st) in
     let e := u64 (now + iv) in
     h = Some (mk_id (Z.of_nat p) (seq (timer_head_ st)))
     ∧ (p ∉ linked st)
     ∧ bucket_slots st' (bucket_of e) = p :: bucket_slots st (bucket_of e)
     ∧ obj st' p = mkObj 0 (bucket_head st (bucket_of e)) 1 iv fc 0 e
                     (mk_id (Z.of_nat p) (seq (timer_head_ st))) d
     ∧ wf st').
Proof.
  intros (bl & fl & S). cbv zeta.
  assert (fl = [] ↔ free_head (timer_head_ st) = 0%nat) as Hfl.
  { rewrite (sh_free_head _ _ _ _ S). destruct fl as [|p fl']; [done|]. simpl.
    pose proof (Shape_free_range _ _ _ _ p S ltac:(by left)). split; [done|lia]. }
  pose proof (add_args_ok_true now iv fc st) as Hok.
  destruct (AddTimer_cases now iv fc d st bl fl S)
    as [(Ea & ->)|[(Ea & Efl & ->)|(Ea & p & fl' & st2 & Efl & -> & S' & Hp & _)]];
    simpl.
  - assert (¬ ((0 < iv ≤ kTimerBucketNum ∧ 0 ≤ fc)
               ∧ cur_bucket_time (timer_head_ st) ≤ u64 (now + iv))) as Hno.
    { rewrite <- Hok. by rewrite Ea. }
    split_and!; try (split; [intros ?|intros ?]); try lia.
  - apply Hok in Ea. apply Hfl in Efl.
    split_and!; try (split; [intros ?|intros ?]); try lia.
  - apply Hok in Ea. assert (free_head (timer_head_ st) ≠ 0%nat) as Hne.
    { rewrite <- Hfl, Efl. done. }
    assert (free_head (timer_head_ st) = p) as Hfp
      by (by rewrite (sh_free_head _ _ _ _ S), Efl).
    split_and!; try (split; [intros ?|intros ?]); try lia.
    intros _. rewrite Hfp. split_and!; try done.
    + intros (b & Hb)%(elem_of_linked _ _ _ _ _ S).
      apply (sh_disj _ _ _ _ S b p Hb). rewrite Efl. by left.
    + rewrite (bucket_slots_Shape _ _ _ _ _ S'), (bucket_slots_Shape _ _ _ _ _ S).
      by rewrite bset_eq.
    + rewrite Hp. by rewrite (sh_head _ _ _ _ S) by apply bucket_of_lt.
    + by eexists _, _.
Qed.

End ClaimsAdd.

Lemma AddTimer_fails_iff_witness :
  wf (fresh 2 1000)
  ∧ (AddTimer 1000 5 1 10%nat (fresh 2 1000)).1.1 = 0
  ∧ ((AddTimer 1000 61 1 10%nat (fresh 2 1000)).1.1 = -1)
  ∧ ((AddTimer 1000 5 1 12%nat full2).1.1 = -2).
Proof.
  split_and!.
  - by apply fresh_wf.
  - apply (AddTimer_fails_iff 1000 5 1 10%nat (fresh 2 1000) (fresh_wf 2 1000 eq_refl)).
    split_and!.
    + unfold kTimerBucketNum. lia.
    + vm_compute. discriminate.
    + vm_compute. discriminate.
  - apply (AddTimer_fails_iff 1000 61 1 10%nat (fresh 2 1000) (fresh_wf 2 1000 eq_refl)).
    left. right. left. reflexivity.
  - apply (AddTimer_fails_iff 1000 5 1 12%nat full2 full2_wf).
    split_and!.
    + unfold kTimerBucketNum. lia.
    + vm_compute. discriminate.
    + reflexivity.
Defined.

Section ClaimsCapacity.

Context {T : Type} `{!Inhabited T}.
Implicit Types (st : TimerMgr T).

(** [filled st0 k st]: [st] is [st0] after [k] successful [AddTimer] calls
    and nothing else (an [AddTimer] that fails leaves the state as it is) *)
Inductive filled (st0 : TimerMgr T) : nat → TimerMgr T → Prop :=
  | filled_O : filled st0 0 st0
  | filled_S k st now iv fc d h st' :
      filled st0 k st → AddTimer now iv fc d st = (0, h, st') →
      filled st0 (S k) st'.

Lemma filled_Shape st0 bl0 fl0 k st :
  Shape st0 bl0 fl0 [] → filled st0 k st →
  ∃ bl fl, Shape st bl fl [] ∧ (length fl + k = length fl0)%nat
    ∧ max_num (timer_head_ st) = max_num (timer_head_ st0).
Proof.
  intros S0. induction 1 as [|k st now iv fc d h st' _ (bl & fl & S & Hl & Hm) HA].
  - exists bl0, fl0. split_and!; [done|lia|done].
  - destruct (AddTimer_cases now iv fc d st bl fl S)
      as [(_ & E)|[(_ & _ & E)|(_ & p & fl' & st2 & -> & E & S' & _ & _ & Hh & _)]];
      rewrite E in HA; try done.
    injection HA as _ <-. eexists _, fl'. split_and!; [exact S'| |].
    + simpl in Hl. lia.
    + rewrite <- Hm. by apply (f_equal max_num) in Hh.
Qed.

(** C4. On a fresh wheel of capacity [n], after [n] successful [AddTimer]
    calls and nothing else, every further [AddTimer] fails and leaves the
    state as it is, with PoolExhausted (-2) when its arguments are
    acceptable; after one successful [DelTimer] an [AddTimer] with
    acceptable arguments succeeds. *)
Theorem capacity_bound sd so m size n t0 st0 st :
  layout_ok m n → Init sd so (Some m) size n true t0 = (0, Some st0) →
  filled st0 n st →
  used_num (timer_head_ st) = Z.of_nat n
  ∧ (∀ now iv fc d,
      (AddTimer now iv fc d st).1.1 ≠ 0 ∧ (AddTimer now iv fc d st).2 = st
      ∧ ((0 < iv ≤ kTimerBucketNum ∧ 0 ≤ fc)
         ∧ cur_bucket_time (timer_head_ st) ≤ u64 (now + iv) →
         (AddTimer now iv fc d st).1.1 = -2))
  ∧ (∀ id st1, DelTimer id st = Some (0, st1) →
      ∀ now iv fc d,
        (0 < iv ≤ kTimerBucketNum ∧ 0 ≤ fc)
        ∧ cur_bucket_time (timer_head_ st1) ≤ u64 (now + iv) →
        (AddTimer now iv fc d st1).1.1 = 0).
Proof.
  intros (Hb & Ho & Hn) HI HF.
  destruct (Init_fresh_Shape _ _ _ _ _ _ _ _ HI Hb Ho Hn) as (_ & S0 & Hm0 & _).
  destruct (filled_Shape _ _ _ _ _ S0 HF) as (bl & fl & S & Hl & Hm).
  rewrite length_seq in Hl. assert (fl = []) as -> by (destruct fl; [done|simpl in Hl; lia]).
  rewrite Hm0 in Hm.
  split_and!.
  - rewrite (sh_used_num _ _ _ _ S), Hm. simpl. lia.
  - intros now iv fc d.
    destruct (AddTimer_cases now iv fc d st bl [] S)
      as [(Ea & ->)|[(Ea & _ & ->)|(_ & p & fl' & st2 & E & _)]]; try done.
    simpl. split_and!; try done. intros Hok%add_args_ok_true. congruence.
  - intros id st1 HD now iv fc d Hok%add_args_ok_true.
    destruct (DelTimer_cases id st bl [] S)
      as [E|(_ & b & l1 & l2 & st2 & _ & E & S' & _)]; rewrite E in HD; [done|].
    injection HD as ->.
    destruct (AddTimer_ok now iv fc d st1 _ _ _ Hok S') as (st3 & -> & _). done.
Qed.

(** X18. With callbacks that leave the wheel alone or delete only the
    timer that is firing, in every state reachable from a fresh [Init] by
    [AddTimer], [DelTimer] and [Update], [used_num] is the number of slots
    linked into the bucket lists, no slot is linked twice, and [used_num]
    does not exceed the capacity. *)
Theorem used_num_linked (OnTimeout : Z → T → TimerMgr T → TimerMgr T) st :
  benign OnTimeout → reachable OnTimeout st →
  used_num (timer_head_ st) = Z.of_nat (length (linked st))
  ∧ NoDup (linked st)
  ∧ used_num (timer_head_ st) ≤ Z.of_nat (max_num (timer_head_ st)).
Proof.
  intros Hben HR. pose proof (reachable_wf OnTimeout st Hben HR) as Hwf.
  destruct (wf_used_num st Hwf) as [H1 H2]. destruct Hwf as (bl & fl & S).
  split_and!; try done. by apply (NoDup_linked _ _ _ _ S).
Qed.

End ClaimsCapacity.

Lemma filled_add {T} `{!Inhabited T} (st0 : TimerMgr T) k st now iv fc d :
  filled st0 k st → (AddTimer now iv fc d st).1.1 = 0 →
  filled st0 (S k) (AddTimer now iv fc d st).2.
Proof.
  intros HF Hr. destruct (AddTimer now iv fc d st) as [[r h] st'] eqn:E.
  simpl in *. subst r. by eapply filled_S.
Qed.

Lemma full2_filled : filled (fresh 2 1000) 2 full2.
Proof.
  unfold full2, add. apply filled_add; [apply filled_add; [apply filled_O|]|].
  - vm_compute. reflexivity.
  - vm_compute. reflexivity.
Qed.

Lemma capacity_bound_witness :
  layout_ok (blank 2) 2 ∧ filled (fresh 2 1000) 2 full2
  ∧ (AddTimer 1000 5 1 12%nat full2).1.1 = -2.
Proof.
  split_and!.
  - by apply blank_layout.
  - exact full2_filled.
  - apply (capacity_bound 8 56 (blank 2) _ 2 1000 (fresh 2 1000) full2
             (blank_layout 2 eq_refl) (fresh_Init 2 1000) full2_filled).
    split; [unfold kTimerBucketNum; lia|]. vm_compute. discriminate.
Defined.

Lemma full2_reachable cb : reachable cb full2.
Proof. apply reach_add, reach_add, fresh_reachable. done. Qed.

Lemma used_num_linked_witness :
  benign keep ∧ reachable keep full2
  ∧ used_num (timer_head_ full2) = Z.of_nat (length (linked full2)).
Proof.
  split_and!.
  - exact keep_benign.
  - apply full2_reachable.
  - apply (used_num_linked keep full2 keep_benign (full2_reachable keep)).
Defined.

(** a callback that deletes the timer that fired and arms a new one *)
Definition rearm_by_hand : Z → nat → TimerMgr nat → TimerMgr nat :=
  fun id _ st => add 1005 7 1 12%nat (self_del id st).

Definition after_rearm_by_hand : TimerMgr nat :=
  match Update rearm_by_hand 8 1005 full2 with
  | Some (_, st, _) => st
  | None => full2
  end.

Lemma reach_update_result {T} `{!Inhabited T} cb fuel now (st : TimerMgr T) :
  reachable cb st → is_Some (Update cb fuel now st) →
  reachable cb (match Update cb fuel now st with
                | Some (_, st', _) => st'
                | None => st
                end).
Proof.
  intros HR [[[r st'] log] E]. rewrite E. by eapply reach_update.
Qed.

(** C8. The wheel [full2] holds two one-shot timers due at tick 1005, slot 2
    in front of slot 1.  [Update] at 1005 with a callback that deletes the
    firing timer and adds a new one: the callback of slot 2 frees the slot
    and gets it back for the new timer.  The check that follows the callback
    looks at the used flag alone, so [Update] takes the new timer for the
    old one: it unlinks it through the head of the bucket being walked, which
    orphans slot 1, and links slot 2 in front of itself.  The state is
    reachable, [used_num] is 2 and slot 1 is marked used, yet slot 2 is
    the only slot linked into any bucket and its [next] is slot 2 again. *)
Lemma used_num_linked_counterexample :
  reachable rearm_by_hand after_rearm_by_hand
  ∧ used_num (timer_head_ after_rearm_by_hand) = 2
  ∧ used (obj after_rearm_by_hand 1) = 1
  ∧ remove_dups (linked after_rearm_by_hand) = [2%nat]
  ∧ next (obj after_rearm_by_hand 2) = 2%nat
  ∧ used_num (timer_head_ after_rearm_by_hand)
    ≠ Z.of_nat (length (linked after_rearm_by_hand)).
Proof.
  split_and!.
  - apply reach_update_result; [apply full2_reachable|].
    vm_compute. eexists. reflexivity.
  - vm_compute. reflexivity.
  - vm_compute. reflexivity.
  - vm_compute. reflexivity.
  - vm_compute. reflexivity.
  - vm_compute. discriminate.
Qed.

(** * [Update] driven once per tick *)

Section Tick.

Context {T : Type} `{!Inhabited T}.
Implicit Types (st : TimerMgr T) (p q b : nat) (l fl out : list nat)
  (bl : nat → list nat).

Variable OnTimeout : Z → T → TimerMgr T → TimerMgr T.

(** the wheel has processed tick [t] *)
Definition clock st (t : Z) : Prop :=
  cur_bucket_time (timer_head_ st) = t
  ∧ cur_bucket_pos (timer_head_ st) = t mod kTimerBucketNum.

Lemma bucket_of_small e : 0 ≤ e < 2^64 → bucket_of e = Z.to_nat (e mod 60).
Proof. intros He. unfold bucket_of, kTimerBucketNum. by rewrite u64_small. Qed.

Lemma cur_bucket_clock st t i :
  clock st t → 0 ≤ t → 0 ≤ i → t + i < 2^64 → cur_bucket i st = bucket_of (t + i).
Proof.
  intros [_ Hp] Ht Hi Hlt. unfold cur_bucket. rewrite Hp, bucket_of_small by lia.
  unfold kTimerBucketNum.
  pose proof (Z.mod_pos_bound t 60 ltac:(lia)).
  pose proof (Z.mod_le t 60 ltac:(lia) ltac:(lia)).
  rewrite u64_small by lia. by rewrite Z.add_mod_idemp_l by lia.
Qed.

Lemma others_kept_upd_head st st' bl bl' fl fl' P f :
  others_kept st st' bl bl' fl fl' P →
  others_kept st (upd_head f st') bl bl' fl fl' P.
Proof.
  intros H q Hq. destruct (H q Hq) as (A1 & A2 & A3). split_and!; done.
Qed.

Lemma Update_tick fuel st bl fl t :
  benign OnTimeout → Shape st bl fl [] → clock st t → 0 ≤ t < 2^62 →
  (max_num (timer_head_ st) < fuel)%nat →
  ∃ st' bl' fl',
    Update OnTimeout fuel (t + 1) st
    = Some (0, st', entry st <$> bl (bucket_of (t + 1)))
    ∧ Shape st' bl' fl' [] ∧ clock st' (t + 1)
    ∧ max_num (timer_head_ st') = max_num (timer_head_ st)
    ∧ seq (timer_head_ st') = seq (timer_head_ st)
    ∧ others_kept st st' bl bl' fl fl' (λ q, q ∉ bl (bucket_of (t + 1)))
    ∧ (∀ q, q ∈ bl (bucket_of (t + 1)) → fired OnTimeout st st' (t + 1) q bl' fl').
Proof.
  intros Hben S Hc Ht Hf. unfold Update. cbv zeta.
  rewrite (u64_small (t + 1)) by lia.
  destruct (used_num (timer_head_ st) <=? 0) eqn:Eu.
  - apply Z.leb_le in Eu.
    rewrite (Shape_empty _ _ _ _ (bucket_of (t + 1)) S Eu eq_refl).
    eexists _, bl, fl. split; [reflexivity|]. split_and!; try done.
    + apply Shape_upd_head; [by intros []|done].
    + intros q Hq. by apply elem_of_nil in Hq.
  - destruct Hc as [Hct Hcp]. unfold wheel_count. rewrite Hct.
    replace (t + 1 - t) with 1 by lia. rewrite (u64_small 1) by lia.
    rewrite (to_int_small 1) by lia. change (1 =? 2^31 - 1) with false. cbv iota.
    change (Z.to_nat 1) with 1%nat. cbn [ticks].
    destruct (walk_bucket OnTimeout (t + 1) 1 fuel st bl fl [] Hben S)
      as (st1 & bl1 & fl1 & W & S1 & H1 & O1 & F1).
    { pose proof (Shape_bucket_length _ _ _ _ (cur_bucket 1 st) S) as Hl.
      rewrite (sh_no _ _ _ _ S) in Hl. lia. }
    rewrite W. rewrite (cur_bucket_clock st t 1) in O1, F1 |- * by (done || lia).
    simpl.
    destruct (head_frame_fields _ _ H1) as (G1 & G2 & _).
    eexists _, bl1, fl1. split; [reflexivity|]. split_and!; try done.
    apply Shape_upd_head; [by intros []|done].
Qed.

End Tick.

(** * Further properties of the code *)

(** X1. The two halves of [union TimerID] determine the 64-bit id and are
    recovered from it. *)
Theorem handle_roundtrip (pos s id : Z) :
  (0 ≤ pos < 2^32 →
     id_pos (mk_id pos s) = pos ∧ id_seq (mk_id pos s) = s mod 2^32
     ∧ 0 ≤ mk_id pos s < 2^64)
  ∧ (0 ≤ id < 2^64 →
     mk_id (id_pos id) (id_seq id) = id
     ∧ 0 ≤ id_pos id < 2^32 ∧ 0 ≤ id_seq id < 2^32).
Proof.
  split.
  - intros Hp. split_and!.
    + by apply id_pos_mk_id.
    + by rewrite id_seq_mk_id.
    + unfold mk_id, u32. pose proof (Z.mod_pos_bound pos (2^32) ltac:(lia)).
      pose proof (Z.mod_pos_bound s (2^32) ltac:(lia)). lia.
    + unfold mk_id, u32. pose proof (Z.mod_pos_bound pos (2^32) ltac:(lia)).
      pose proof (Z.mod_pos_bound s (2^32) ltac:(lia)). lia.
  - intros Hid. unfold mk_id, id_pos, id_seq, u32.
    pose proof (Z.mod_pos_bound id (2^32) ltac:(lia)).
    assert (0 ≤ id / 2^32 < 2^32) as Hq.
    { split; [apply Z.div_pos; lia|]. apply Z.div_lt_upper_bound; lia. }
    rewrite (Z.mod_small (id / 2^32)) by lia.
    rewrite (Z.mod_small (id mod 2^32)) by lia.
    rewrite (Z.mod_small (id / 2^32)) by lia.
    split_and!; try lia.
    pose proof (Z.div_mod id (2^32) ltac:(lia)). lia.
Qed.

Lemma handle_roundtrip_witness :
  id_pos (mk_id 7 1000) = 7
  ∧ mk_id (id_pos 4294967296001) (id_seq 4294967296001) = 4294967296001.
Proof.
  split.
  - apply (handle_roundtrip 7 1000 0). lia.
  - apply (handle_roundtrip 0 0 4294967296001). lia.
Defined.

Section MoreInit.

Context {T : Type} `{!Inhabited T}.
Implicit Types (st m : TimerMgr T) (p q b : nat).

Lemma init_free_info k st q : same_info st (init_free k st) q.
Proof.
  revert st. induction k as [|j IH]; intros st; [apply same_info_refl|].
  cbn [init_free]. cbv zeta. eapply same_info_trans; [|apply IH].
  eapply same_info_trans; [|apply same_info_upd_head].
  eapply same_info_trans; [|apply same_info_upd_obj; by intros []].
  apply same_info_upd_obj. by intros [].
Qed.

Lemma bind_nil_const (l : list nat) : l ≫= (λ _ : nat, @nil nat) = [].
Proof. induction l as [|a l IH]; [done|]. by rewrite bind_cons, IH. Qed.

Lemma Init_fresh_info sd so m size n now r st :
  Init sd so (Some m) size n true now = (r, Some st) → ∀ q, same_info m st q.
Proof.
  unfold Init. destruct (size <? TotalMemSize so n); [done|].
  intros [= _ <-] q. eapply same_info_trans; [|apply init_free_info].
  unfold zero_buckets.
  destruct (zero_buckets_foldl (List.seq 0 (Z.to_nat kTimerBucketNum))
    (mkMgr (mkHead size sd n 0 (u64 now mod kTimerBucketNum) (u64 now) 0 (u32 now))
           (timer_bucket_ m) (timer_obj_ m))) as (_ & Z2 & _).
  unfold same_info. by rewrite (obj_ext _ _ q Z2).
Qed.

Lemma init_free_head k st :
  set_free_head 0 (timer_head_ (init_free k st)) = set_free_head 0 (timer_head_ st).
Proof.
  revert st. induction k as [|j IH]; intros st; [done|].
  cbn [init_free]. cbv zeta. rewrite IH. wsimpl. by destruct (timer_head_ st).
Qed.

Lemma Init_fresh_layout sd so m size n now r st :
  Init sd so (Some m) size n true now = (r, Some st) →
  max_size (timer_head_ st) = size ∧ data_size (timer_head_ st) = sd.
Proof.
  unfold Init. destruct (size <? TotalMemSize so n); [done|].
  intros [= _ <-]. pose proof (init_free_head n (zero_buckets
    (mkMgr (mkHead size sd n 0 (u64 now mod kTimerBucketNum) (u64 now) 0 (u32 now))
           (timer_bucket_ m) (timer_obj_ m)))) as H.
  unfold zero_buckets in H at 2.
  destruct (zero_buckets_foldl (List.seq 0 (Z.to_nat kTimerBucketNum))
    (mkMgr (mkHead size sd n 0 (u64 now mod kTimerBucketNum) (u64 now) 0 (u32 now))
           (timer_bucket_ m) (timer_obj_ m))) as (Z1 & _).
  rewrite Z1 in H. simpl in H.
  destruct (timer_head_ (init_free n _)). simpl in *. by injection H as -> ->.
Qed.

(** X2. [Init] with [fresh = true] fails with -1 on a null or too small buffer
    and otherwise, whatever the buffer holds, sets up an empty wheel: no
    timer linked, every slot [1..timer_num] on the free list in increasing
    order, the clock at [now].  It writes only the links of the slots: the
    used flag, the stored id, the expiry and the payload of every slot stay
    as they were found. *)
Theorem Init_fresh_empty sd so m size n now :
  layout_ok m n →
  Init (TimerDataType:=T) sd so None size n true now = (-1, None)
  ∧ (size < TotalMemSize so n → Init sd so (Some m) size n true now = (-1, None))
  ∧ (TotalMemSize so n ≤ size →
     ∃ st, Init sd so (Some m) size n true now = (0, Some st)
       ∧ wf st ∧ Size st = 0 ∧ Capacity st = n
       ∧ linked st = [] ∧ free_slots st = List.seq 1 n
       ∧ cur_bucket_time (timer_head_ st) = u64 now
       ∧ cur_bucket_pos (timer_head_ st) = u64 now mod kTimerBucketNum
       ∧ (∀ q, same_info m st q)).
Proof.
  intros (Hb & Ho & Hn). split_and!; [done| |].
  - intros Hs. unfold Init.
    by replace (size <? TotalMemSize so n) with true by (symmetry; apply Z.ltb_lt; lia).
  - intros Hs.
    destruct (Init sd so (Some m) size n true now) as [r [st|]] eqn:E.
    2:{ revert E. unfold Init.
        by replace (size <? TotalMemSize so n) with false
          by (symmetry; apply Z.ltb_ge; lia). }
    destruct (Init_fresh_Shape m size n now r st sd so E Hb Ho Hn)
      as (-> & S & H1 & H2 & H3 & H4 & H5).
    exists st. split_and!; try done.
    + by eexists _, _.
    + rewrite (linked_Shape _ _ _ _ S). apply bind_nil_const.
    + apply (free_slots_Shape _ _ _ _ S).
    + by apply (Init_fresh_info _ _ _ _ _ _ _ _ E).
Qed.

(** X3. A fresh [Init] does not clear the slots.  A handle whose slot still
    holds its id with the used flag set (a timer that was live in the buffer
    before it was initialised again) is still answered by [GetExpireTime]
    with the old expiry, although the wheel is empty; [DelTimer] finds the
    slot in no bucket and returns -1 without changing anything. *)
Theorem Init_fresh_stale_handle sd so m size n now st h :
  layout_ok m n → Init sd so (Some m) size n true now = (0, Some st) →
  1 ≤ id_pos h ≤ Z.of_nat n →
  timer_id (obj m (Z.to_nat (id_pos h))) = h →
  used (obj m (Z.to_nat (id_pos h))) ≠ 0 →
  Size st = 0
  ∧ GetExpireTime h st = (0, Some (u64 (expire (obj m (Z.to_nat (id_pos h))))))
  ∧ DelTimer h st = Some (-1, st).
Proof.
  intros (Hb & Ho & Hn) E Hp Hid Hu.
  destruct (Init_fresh_Shape m size n now 0 st sd so E Hb Ho Hn)
    as (_ & S & H1 & H2 & _).
  destruct (same_info_fields _ _ _ (Init_fresh_info _ _ _ _ _ _ _ _ E (Z.to_nat (id_pos h))))
    as (Fu & _ & _ & _ & Fe & Fi & _).
  assert (handle_ok h st = true) as Hok.
  { apply handle_ok_true. rewrite H1, Fu, Fi. done. }
  split_and!; [done| |].
  - by rewrite (GetExpireTime_accepts _ _ Hok), Fe.
  - apply (DelTimer_unlinked _ _ _ _ S Hok). intros b. apply not_elem_of_nil.
Qed.

(** X4. [Init(key, timer_num)] with [key == 0] cannot fail: the buffer it
    allocates has exactly [TotalMemSize(timer_num)] bytes, so the size check
    of the second [Init] passes and the wheel comes out empty.  With any
    other key it returns 0 as well, but nothing is attached. *)
Theorem InitKey_result sd so key m n now :
  layout_ok m n →
  (key = 0 →
     ∃ st, InitKey sd so key m n now = (0, Some st)
       ∧ wf st ∧ Size st = 0 ∧ Capacity st = n
       ∧ max_size (timer_head_ st) = TotalMemSize so n
       ∧ free_slots st = List.seq 1 n)
  ∧ (key ≠ 0 → InitKey sd so key m n now = (0, None)).
Proof.
  intros (Hb & Ho & Hn). unfold InitKey. split.
  - intros ->. change (0 =? 0) with true. cbv iota.
    destruct (Init sd so (Some m) (TotalMemSize so n) n true now) as [r [st|]] eqn:E.
    2:{ revert E. unfold Init. by rewrite Z.ltb_irrefl. }
    destruct (Init_fresh_Shape m _ n now r st sd so E Hb Ho Hn)
      as (-> & S & H1 & H2 & _).
    exists st. split_and!; try done.
    + by eexists _, _.
    + by destruct (Init_fresh_layout _ _ _ _ _ _ _ _ E).
    + apply (free_slots_Shape _ _ _ _ S).
  - intros Hk. by replace (key =? 0) with false by (symmetry; by apply Z.eqb_neq).
Qed.

End MoreInit.

Lemma Init_fresh_empty_witness :
  layout_ok full2 2
  ∧ ∃ st, Init 8 56 (Some full2) 1000 2 true 2000 = (0, Some st) ∧ Size st = 0.
Proof.
  assert (layout_ok full2 2) as HL by (vm_compute; repeat split; reflexivity).
  split; [exact HL|].
  destruct (Init_fresh_empty 8 56 full2 1000 2 2000 HL) as (_ & _ & H).
  destruct H as (st & E & _ & Hs & _); [vm_compute; discriminate|].
  exists st. split; assumption.
Defined.

Definition reinit : TimerMgr nat :=
  match Init 8 56 (Some full2) 1000 2 true 2000 with
  | (_, Some st) => st
  | _ => full2
  end.

Lemma Init_fresh_stale_handle_witness :
  Size reinit = 0
  ∧ GetExpireTime 4294967296001 reinit = (0, Some 1005)
  ∧ DelTimer 4294967296001 reinit = Some (-1, reinit).
Proof.
  apply (Init_fresh_stale_handle 8 56 full2 1000 2 2000 reinit 4294967296001).
  - vm_compute. repeat split; reflexivity.
  - vm_compute. reflexivity.
  - vm_compute. split; discriminate.
  - vm_compute. reflexivity.
  - vm_compute. discriminate.
Defined.

Lemma InitKey_result_witness :
  layout_ok full2 2 ∧ InitKey 8 56 7 full2 2 2000 = (0, None).
Proof.
  assert (layout_ok full2 2) as HL by (vm_compute; repeat split; reflexivity).
  split; [exact HL|].
  apply (InitKey_result 8 56 7 full2 2 2000 HL). discriminate.
Defined.

(** * Attaching to a wheel that has been in use *)

Section Attach.

Context {T : Type} `{!Inhabited T}.
Implicit Types (st m : TimerMgr T).

Variable OnTimeout : Z → T → TimerMgr T → TimerMgr T.

(** a run of the public operations starting from [st0] *)
Inductive evolves (st0 : TimerMgr T) : TimerMgr T → Prop :=
  | ev_refl : evolves st0 st0
  | ev_add st now iv fc d :
      evolves st0 st → evolves st0 (AddTimer now iv fc d st).2
  | ev_del st id r st' :
      evolves st0 st → DelTimer id st = Some (r, st') → evolves st0 st'
  | ev_update st fuel now r st' log :
      evolves st0 st → Update OnTimeout fuel now st = Some (r, st', log) →
      evolves st0 st'.

(** the three header fields that the attaching [Init] compares *)
Definition same_layout st st' : Prop :=
  max_size (timer_head_ st') = max_size (timer_head_ st)
  ∧ data_size (timer_head_ st') = data_size (timer_head_ st)
  ∧ max_num (timer_head_ st') = max_num (timer_head_ st).

Lemma head_frame_layout st st' : head_frame st st' → same_layout st st'.
Proof.
  unfold head_frame, same_layout. destruct (timer_head_ st'), (timer_head_ st); simpl.
  intros [= -> -> -> -> -> ->]. done.
Qed.

Lemma AddTimer_layout now iv fc (d : T) st :
  wf st → same_layout st (AddTimer now iv fc d st).2.
Proof.
  intros (bl & fl & S).
  destruct (AddTimer_cases now iv fc d st bl fl S)
    as [(_ & ->)|[(_ & _ & ->)|(_ & p & fl' & st' & _ & -> & _ & _ & _ & Hh & _)]];
    try done.
  unfold same_layout. cbn [snd]. revert Hh.
  destruct (timer_head_ st'), (timer_head_ st); simpl.
  intros [= -> -> -> -> -> -> ->]. done.
Qed.

Lemma DelTimer_layout id st r st' :
  wf st → DelTimer id st = Some (r, st') → same_layout st st'.
Proof.
  intros (bl & fl & S) HD.
  destruct (DelTimer_cases id st bl fl S)
    as [E|(_ & b & l1 & l2 & st2 & _ & E & _ & Hh & _)]; rewrite E in HD.
  - by injection HD as <- <-.
  - injection HD as <- <-. by apply head_frame_layout.
Qed.

Lemma Update_layout fuel now st r st' log :
  benign OnTimeout → wf st → Update OnTimeout fuel now st = Some (r, st', log) →
  same_layout st st'.
Proof.
  intros Hben (bl & fl & HS) HU.
  apply (Update_mono OnTimeout fuel (fuel `max` S (max_num (timer_head_ st))) now st _
           ltac:(lia)) in HU.
  revert HU. unfold Update. cbv zeta.
  destruct (used_num (timer_head_ st) <=? 0).
  - intros [= <- <- <-]. unfold same_layout. by wsimpl.
  - destruct (wheel_count (u64 now) st =? 2^31 - 1); [done|].
    destruct (ticks_wf OnTimeout (u64 now) (Z.to_nat (wheel_count (u64 now) st))
      Hben (fuel `max` S (max_num (timer_head_ st))) 1 st bl fl [] HS ltac:(lia))
      as (st1 & bl1 & fl1 & log1 & W & _ & H1).
    rewrite W. intros [= <- <- <-].
    apply head_frame_layout in H1. unfold same_layout in *. by wsimpl.
Qed.

Lemma evolves_wf st0 st :
  benign OnTimeout → wf st0 → evolves st0 st → wf st ∧ same_layout st0 st.
Proof.
  intros Hben Hwf. induction 1 as [|st now iv fc d _ [IH1 IH2]
    |st id r st' _ [IH1 IH2] HD|st fuel now r st' log _ [IH1 IH2] HU].
  - done.
  - split; [by apply AddTimer_wf|].
    pose proof (AddTimer_layout now iv fc d st IH1). unfold same_layout in *.
    intuition congruence.
  - split.
    + destruct (DelTimer_wf id st IH1) as (r' & st2 & HD' & Hwf').
      rewrite HD in HD'. by injection HD' as -> ->.
    + pose proof (DelTimer_layout id st r st' IH1 HD). unfold same_layout in *.
      intuition congruence.
  - split.
    + by destruct (Update_Some_wf _ _ _ _ _ _ _ Hben IH1 HU).
    + pose proof (Update_layout fuel now st r st' log Hben IH1 HU).
      unfold same_layout in *. intuition congruence.
Qed.

(** X5. After a fresh [Init] and any run of [AddTimer], [DelTimer] and [Update]
    (with callbacks that do nothing or delete the firing timer), [Init] with
    [fresh = false] and the same size, payload size and capacity succeeds
    and leaves every timer in place; with a buffer size that is large
    enough, the first differing parameter decides the error code: -1 for
    the size, -2 for the payload size, -3 for the capacity. *)
Theorem attach_after_run sd so m size n t0 st0 st :
  benign OnTimeout → layout_ok m n →
  Init sd so (Some m) size n true t0 = (0, Some st0) → evolves st0 st →
  Capacity st = n
  ∧ (∀ now, Init sd so (Some st) size n false now = (0, Some st))
  ∧ ∀ sd' size' n' now, TotalMemSize so n' ≤ size' →
      Init sd' so (Some st) size' n' false now
      = if negb (size =? size') then (-1, None)
        else if negb (sd =? sd') then (-2, None)
        else if negb (n =? n')%nat then (-3, None)
        else (0, Some st).
Proof.
  intros Hben (Hb & Ho & Hn) E Hev.
  destruct (Init_fresh_Shape m size n t0 0 st0 sd so E Hb Ho Hn)
    as (_ & S & H1 & _).
  destruct (Init_fresh_layout _ _ _ _ _ _ _ _ E) as (L1 & L2).
  destruct (evolves_wf st0 st Hben ltac:(by eexists _, _) Hev) as (_ & M1 & M2 & M3).
  rewrite L1 in M1. rewrite L2 in M2. rewrite H1 in M3.
  assert (TotalMemSize so n ≤ size) as Hsz.
  { revert E. unfold Init. destruct (size <? TotalMemSize so n) eqn:Hlt; [done|].
    intros _. by apply Z.ltb_ge. }
  assert (∀ sd' size' n' now, TotalMemSize so n' ≤ size' →
      Init sd' so (Some st) size' n' false now
      = if negb (size =? size') then (-1, None)
        else if negb (sd =? sd') then (-2, None)
        else if negb (n =? n')%nat then (-3, None)
        else (0, Some st)) as HI.
  { intros sd' size' n' now Hs. unfold Init.
    replace (size' <? TotalMemSize so n') with false
      by (symmetry; apply Z.ltb_ge; lia).
    by rewrite M1, M2, M3. }
  split_and!; [done| |done].
  intros now. rewrite (HI sd size n now Hsz).
  by rewrite !Z.eqb_refl, Nat.eqb_refl.
Qed.

End Attach.

Lemma attach_after_run_witness :
  Capacity full2 = 2%nat
  ∧ (∀ now, Init 8 56 (Some full2) (TotalMemSize 56 2) 2 false now = (0, Some full2))
  ∧ ∀ sd' size' n' now, TotalMemSize 56 n' ≤ size' →
      Init sd' 56 (Some full2) size' n' false now
      = if negb (TotalMemSize 56 2 =? size') then (-1, None)
        else if negb (8 =? sd') then (-2, None)
        else if negb (2 =? n')%nat then (-3, None)
        else (0, Some full2).
Proof.
  apply (attach_after_run keep 8 56 (blank 2) (TotalMemSize 56 2) 2 1000
           (fresh 2 1000) full2 keep_benign).
  - apply blank_layout. lia.
  - apply fresh_Init.
  - unfold full2, add. apply ev_add, ev_add, ev_refl.
Defined.

(** * Handles across [AddTimer] and [DelTimer] *)

Section Handles.

Context {T : Type} `{!Inhabited T}.
Implicit Types (st : TimerMgr T) (p q b : nat) (l fl : list nat)
  (bl : nat → list nat).

(** a handle that passes the handle check and whose slot is linked into a
    bucket: a timer that is waiting to fire *)
Definition live (h : Z) st : Prop :=
  handle_ok h st = true ∧ Z.to_nat (id_pos h) ∈ linked st.

Lemma u64_u64 z : u64 (u64 z) = u64 z.
Proof. unfold u64. by rewrite Z.mod_mod. Qed.

Lemma AddTimer_inv now iv fc (d : T) st bl fl h st' :
  Shape st bl fl [] → AddTimer now iv fc d st = (0, Some h, st') →
  ∃ p fl', fl = p :: fl'
    ∧ h = mk_id (Z.of_nat p) (seq (timer_head_ st)) ∧ id_pos h = Z.of_nat p
    ∧ add_args_ok now iv fc st = true
    ∧ Shape st' (bset bl (bucket_of (u64 (now + iv)))
                  (p :: bl (bucket_of (u64 (now + iv))))) fl' []
    ∧ obj st' p = mkObj 0 (hd 0%nat (bl (bucket_of (u64 (now + iv))))) 1 iv fc 0
                    (u64 (now + iv)) h d
    ∧ (∀ q, q ≠ p → same_info st st' q)
    ∧ max_num (timer_head_ st') = max_num (timer_head_ st)
    ∧ used_num (timer_head_ st') = used_num (timer_head_ st) + 1
    ∧ seq (timer_head_ st') = u32 (seq (timer_head_ st) + 1)
    ∧ handle_ok h st' = true.
Proof.
  intros HS HA.
  destruct (AddTimer_cases now iv fc d st bl fl HS)
    as [(_ & E)|[(_ & _ & E)|(Ha & p & fl' & st2 & -> & E & S' & Hp & Hq & Hh & Hs)]];
    rewrite E in HA; try done.
  injection HA as <- <-.
  pose proof (Shape_free_range _ _ _ _ p HS ltac:(by left)) as [Hpr _].
  pose proof (sh_cap _ _ _ _ HS) as Hcap.
  assert (id_pos (mk_id (Z.of_nat p) (seq (timer_head_ st))) = Z.of_nat p) as Hid
    by (apply id_pos_mk_id; lia).
  assert (max_num (timer_head_ st2) = max_num (timer_head_ st)) as Hm
    by (apply (f_equal max_num) in Hh; done).
  exists p, fl'. split_and!; try done.
  - by apply (f_equal used_num) in Hh.
  - apply handle_ok_true. rewrite Hid, Nat2Z.id, Hp, Hm. simpl.
    split_and!; [lia|lia|done|done].
Qed.

Lemma DelTimer_inv id st bl fl st' :
  Shape st bl fl [] → DelTimer id st = Some (0, st') →
  handle_ok id st = true ∧ ∃ b l1 l2,
      bl b = l1 ++ Z.to_nat (id_pos id) :: l2
      ∧ Shape st' (bset bl b (l1 ++ l2)) (Z.to_nat (id_pos id) :: fl) []
      ∧ head_frame st st'
      ∧ (∀ q, q ≠ Z.to_nat (id_pos id) → same_info st st' q)
      ∧ used (obj st' (Z.to_nat (id_pos id))) = 0.
Proof.
  intros HS HD.
  destruct (DelTimer_cases id st bl fl HS)
    as [E|(Hok & b & l1 & l2 & st2 & Eb & E & S' & Hh & Hq & Hu & _)];
    rewrite E in HD; [done|].
  injection HD as <-. split; [done|]. by exists b, l1, l2.
Qed.

Lemma handle_ok_same st st' h :
  max_num (timer_head_ st') = max_num (timer_head_ st) →
  same_info st st' (Z.to_nat (id_pos h)) →
  handle_ok h st' = handle_ok h st.
Proof.
  intros Hm (Hu & _ & _ & _ & _ & Hi & _)%same_info_fields.
  unfold handle_ok. by rewrite Hm, Hu, Hi.
Qed.

Lemma GetExpireTime_same st st' h :
  max_num (timer_head_ st') = max_num (timer_head_ st) →
  same_info st st' (Z.to_nat (id_pos h)) →
  GetExpireTime h st' = GetExpireTime h st.
Proof.
  intros Hm Hi. pose proof (handle_ok_same st st' h Hm Hi) as Hok.
  destruct (handle_ok h st) eqn:E.
  - rewrite !GetExpireTime_accepts by done.
    by destruct (same_info_fields _ _ _ Hi) as (_ & _ & _ & _ & -> & _).
  - by rewrite !GetExpireTime_rejects.
Qed.

Lemma filter_ne_notin l p : p ∉ l → filter (λ q, q ≠ p) l = l.
Proof.
  induction l as [|a l IH]; [done|]. intros Hp.
  apply not_elem_of_cons in Hp as [Hne Hp].
  rewrite filter_cons_True by done. by rewrite IH.
Qed.

Lemma filter_ne_split l1 l2 p :
  NoDup (l1 ++ p :: l2) → filter (λ q, q ≠ p) (l1 ++ p :: l2) = l1 ++ l2.
Proof.
  intros Hnd. apply list.NoDup_app in Hnd as (_ & H1 & H2).
  apply list.NoDup_cons in H2 as [H2 _].
  rewrite list.filter_app, filter_cons_False by (intros ?; done).
  rewrite !filter_ne_notin; [done|done|].
  intros Hp. apply (H1 p Hp). by left.
Qed.

Lemma AddTimer_live now iv fc (d : T) st h st' :
  wf st → AddTimer now iv fc d st = (0, Some h, st') → live h st'.
Proof.
  intros (bl & fl & HS) HA.
  destruct (AddTimer_inv _ _ _ _ _ _ _ _ _ HS HA)
    as (p & fl' & -> & Hh & Hid & _ & S' & _ & _ & _ & _ & _ & Hok).
  split; [done|]. rewrite Hid, Nat2Z.id. apply (elem_of_linked _ _ _ _ _ S').
  eexists. rewrite bset_eq. by left.
Qed.

(** X6. After a successful [AddTimer], [GetExpireTime] on the new handle
    returns [now + interval] (as an unsigned 64-bit value).  The new handle
    differs from the handle of every timer that is waiting, and those
    timers stay live with the expiry they had. *)
Theorem AddTimer_GetExpireTime now iv fc (d : T) st h st' :
  wf st → AddTimer now iv fc d st = (0, Some h, st') →
  live h st'
  ∧ GetExpireTime h st' = (0, Some (u64 (now + iv)))
  ∧ ∀ h', live h' st →
      h' ≠ h ∧ live h' st' ∧ GetExpireTime h' st' = GetExpireTime h' st.
Proof.
  intros (bl & fl & HS) HA.
  destruct (AddTimer_inv _ _ _ _ _ _ _ _ _ HS HA)
    as (p & fl' & -> & Hh & Hid & _ & S' & Hp & Hq & Hm & _ & _ & Hok).
  split_and!.
  - split; [done|]. rewrite Hid, Nat2Z.id. apply (elem_of_linked _ _ _ _ _ S').
    eexists. rewrite bset_eq. by left.
  - rewrite (GetExpireTime_accepts _ _ Hok), Hid, Nat2Z.id, Hp. simpl.
    by rewrite u64_u64.
  - intros h' (Hok' & (b & Hb)%(elem_of_linked _ _ _ _ _ HS)).
    assert (Z.to_nat (id_pos h') ≠ p) as Hne.
    { intros E. apply (sh_disj _ _ _ _ HS b _ Hb). rewrite E. simpl. by left. }
    split_and!.
    + intros ->. rewrite Hid, Nat2Z.id in Hne. done.
    + split; [by rewrite (handle_ok_same st st' h' Hm (Hq _ Hne))|].
      apply (elem_of_linked _ _ _ _ _ S'). exists b.
      destruct (decide (b = bucket_of (u64 (now + iv)))) as [->|Hbn].
      * rewrite bset_eq. by right.
      * by rewrite bset_ne.
    + apply GetExpireTime_same; [done|by apply Hq].
Qed.

(** X7. [DelTimer] on the handle just returned by [AddTimer] undoes the
    insertion: every bucket list and the free list are again what they were
    before the [AddTimer], as is the used count.  The deleted handle is then
    rejected by both [DelTimer] and [GetExpireTime]. *)
Theorem AddTimer_DelTimer_undo now iv fc (d : T) st h st1 :
  wf st → AddTimer now iv fc d st = (0, Some h, st1) →
  ∃ st2, DelTimer h st1 = Some (0, st2)
    ∧ (∀ b, bucket_slots st2 b = bucket_slots st b)
    ∧ free_slots st2 = free_slots st
    ∧ Size st2 = Size st
    ∧ (∀ q, q ≠ Z.to_nat (id_pos h) → same_info st st2 q)
    ∧ DelTimer h st2 = Some (-1, st2)
    ∧ GetExpireTime h st2 = (-1, None).
Proof.
  intros (bl & fl & HS) HA.
  destruct (AddTimer_inv _ _ _ _ _ _ _ _ _ HS HA)
    as (p & fl' & -> & Hh & Hid & _ & S1 & Hp & Hq & Hm & Hu & _ & Hok).
  set (b := bucket_of (u64 (now + iv))) in *.
  destruct (DelTimer_ok st1 _ fl' h b [] (bl b) S1 Hok)
    as (st2 & D1 & D2 & D3 & D4 & D5 & _).
  { by rewrite bset_eq, Hid, Nat2Z.id. }
  rewrite Hid, Nat2Z.id in *. simpl in D2.
  assert (handle_ok h st2 = false) as Hno.
  { destruct (handle_ok h st2) eqn:E; [|done].
    apply handle_ok_true in E as (_ & _ & E). by rewrite Hid, Nat2Z.id in E. }
  exists st2. split_and!; try done.
  - intros c. rewrite (bucket_slots_Shape _ _ _ _ c D2), (bucket_slots_Shape _ _ _ _ c HS).
    destruct (decide (c = b)) as [->|Hc]; [by rewrite bset_eq|].
    by rewrite !bset_ne.
  - by rewrite (free_slots_Shape _ _ _ _ D2), (free_slots_Shape _ _ _ _ HS).
  - unfold Size. rewrite (sh_used_num _ _ _ _ D2), (sh_used_num _ _ _ _ HS).
    destruct (head_frame_fields _ _ D3) as (-> & _). by rewrite Hm.
  - intros q Hne. eapply same_info_trans; [by apply Hq|by apply D4].
  - by apply DelTimer_rejects.
  - by apply GetExpireTime_rejects.
Qed.

(** X8. A successful [DelTimer] on a well-formed wheel removes exactly the
    slot of the handle: every bucket list keeps its other slots in their
    order, the freed slot becomes the head of the free list, and every other
    waiting timer stays live with its expiry.  In the resulting state the
    deleted handle is rejected by [DelTimer] and [GetExpireTime]. *)
Theorem DelTimer_frame h st st' :
  wf st → DelTimer h st = Some (0, st') →
  (∀ b, bucket_slots st' b
        = filter (λ q, q ≠ Z.to_nat (id_pos h)) (bucket_slots st b))
  ∧ free_slots st' = Z.to_nat (id_pos h) :: free_slots st
  ∧ DelTimer h st' = Some (-1, st')
  ∧ GetExpireTime h st' = (-1, None)
  ∧ ∀ h', live h' st → h' ≠ h →
      live h' st' ∧ GetExpireTime h' st' = GetExpireTime h' st.
Proof.
  intros (bl & fl & HS) HD.
  destruct (DelTimer_inv _ _ _ _ _ HS HD)
    as (Hok & b & l1 & l2 & Eb & S' & Hh & Hq & Hu).
  set (p := Z.to_nat (id_pos h)) in *.
  destruct (head_frame_fields _ _ Hh) as (Hm & _).
  assert (handle_ok h st' = false) as Hno.
  { destruct (handle_ok h st') eqn:E; [|done].
    by apply handle_ok_true in E as (_ & _ & E). }
  split_and!.
  - intros c. rewrite (bucket_slots_Shape _ _ _ _ c S'), (bucket_slots_Shape _ _ _ _ c HS).
    destruct (decide (c = b)) as [->|Hc].
    + rewrite bset_eq, Eb. symmetry. apply filter_ne_split.
      rewrite <- Eb. apply (sh_nodup_b _ _ _ _ HS).
    + rewrite bset_ne by done. symmetry. apply filter_ne_notin.
      intros Hp. apply Hc.
      apply (Shape_bucket_unique _ _ _ _ _ _ _ HS Hp). rewrite Eb.
      apply elem_of_app. right. by left.
  - by rewrite (free_slots_Shape _ _ _ _ S'), (free_slots_Shape _ _ _ _ HS).
  - by apply DelTimer_rejects.
  - by apply GetExpireTime_rejects.
  - intros h' (Hok' & (c & Hc)%(elem_of_linked _ _ _ _ _ HS)) Hne.
    assert (Z.to_nat (id_pos h') ≠ p) as Hpn.
    { intros E. apply Hne.
      apply handle_ok_true in Hok as (_ & <- & _).
      apply handle_ok_true in Hok' as (_ & <- & _). fold p. by rewrite E. }
    split; [split|].
    + by rewrite (handle_ok_same st st' h' Hm (Hq _ Hpn)).
    + apply (elem_of_linked _ _ _ _ _ S'). exists c.
      destruct (decide (c = b)) as [->|Hcb].
      * rewrite bset_eq. rewrite Eb in Hc.
        apply elem_of_app in Hc as [Hc|Hc]; [apply elem_of_app; by left|].
        apply elem_of_cons in Hc as [Hc|Hc]; [done|apply elem_of_app; by right].
      * by rewrite bset_ne.
    + apply GetExpireTime_same; [done|by apply Hq].
Qed.

(** X9. A slot that is freed and allocated again gets a new handle: after
    [AddTimer], [DelTimer] of that handle and another [AddTimer], the second
    handle names the same slot with the sequence number advanced by one
    (modulo 2^32), so the two handles differ, and the first one is rejected
    by [DelTimer] and [GetExpireTime] although its slot is in use. *)
Theorem slot_reuse_new_handle now1 iv1 fc1 (d1 : T) now2 iv2 fc2 (d2 : T)
    st h1 st1 st2 h2 st3 :
  wf st →
  AddTimer now1 iv1 fc1 d1 st = (0, Some h1, st1) →
  DelTimer h1 st1 = Some (0, st2) →
  AddTimer now2 iv2 fc2 d2 st2 = (0, Some h2, st3) →
  id_pos h2 = id_pos h1
  ∧ id_seq h2 = (id_seq h1 + 1) mod 2^32
  ∧ h2 ≠ h1
  ∧ live h2 st3
  ∧ DelTimer h1 st3 = Some (-1, st3)
  ∧ GetExpireTime h1 st3 = (-1, None).
Proof.
  intros (bl & fl & HS) HA1 HD HA2.
  destruct (AddTimer_inv _ _ _ _ _ _ _ _ _ HS HA1)
    as (p & fl' & -> & Hh1 & Hid1 & _ & S1 & _ & _ & _ & _ & Hs1 & _).
  destruct (DelTimer_inv _ _ _ _ _ S1 HD)
    as (_ & b & l1 & l2 & _ & S2 & Hf & _).
  rewrite Hid1, Nat2Z.id in S2.
  destruct (AddTimer_inv _ _ _ _ _ _ _ _ _ S2 HA2)
    as (p' & fl2 & [= <- <-] & Hh2 & Hid2 & _ & S3 & Hp3 & _ & _ & _ & _ & Hok3).
  destruct (head_frame_fields _ _ Hf) as (_ & Hs2 & _).
  pose proof (Shape_free_range _ _ _ _ p HS ltac:(by left)) as [Hpr _].
  pose proof (sh_cap _ _ _ _ HS) as Hcap.
  assert (id_seq h1 = u32 (seq (timer_head_ st))) as Q1
    by (rewrite Hh1; apply id_seq_mk_id; lia).
  assert (id_seq h2 = (id_seq h1 + 1) mod 2^32) as Q2.
  { rewrite Hh2, id_seq_mk_id by lia. rewrite Hs2, Hs1, Q1. unfold u32.
    rewrite Z.mod_mod by lia. by rewrite Zplus_mod_idemp_l. }
  assert (h2 ≠ h1) as Hne.
  { intros E. rewrite E in Q2.
    pose proof (Z.mod_pos_bound (seq (timer_head_ st)) (2^32) ltac:(lia)) as Hb.
    rewrite Q1 in Q2. unfold u32 in Q2.
    destruct (decide (seq (timer_head_ st) mod 2^32 + 1 < 2^32)) as [Hlt|Hge].
    - rewrite (Z.mod_small (_ + 1)) in Q2 by lia. lia.
    - replace (seq (timer_head_ st) mod 2^32 + 1) with (2^32) in Q2 by lia.
      rewrite Z.mod_same in Q2 by lia. lia. }
  assert (handle_ok h1 st3 = false) as Hno.
  { destruct (handle_ok h1 st3) eqn:E; [|done].
    apply handle_ok_true in E as (_ & E & _).
    rewrite Hid1, Nat2Z.id, Hp3 in E. simpl in E. by symmetry in E. }
  split_and!; try done.
  - by rewrite Hid1, Hid2.
  - split; [done|]. rewrite Hid2, Nat2Z.id. apply (elem_of_linked _ _ _ _ _ S3).
    eexists. rewrite bset_eq. by left.
  - by apply DelTimer_rejects.
  - by apply GetExpireTime_rejects.
Qed.

End Handles.

(** one timer on a wheel of two slots, the wheel after deleting it, and the
    wheel after arming the freed slot again *)
Definition one1 : TimerMgr nat := add 1000 5 1 10%nat (fresh 2 1000).

Definition gone1 : TimerMgr nat :=
  match DelTimer 4294967296001 one1 with
  | Some (_, st) => st
  | None => one1
  end.

Definition again1 : TimerMgr nat := add 1000 7 0 12%nat gone1.

Lemma one1_AddTimer :
  AddTimer 1000 5 1 10%nat (fresh 2 1000) = (0, Some 4294967296001, one1).
Proof. vm_compute. reflexivity. Qed.

Lemma gone1_DelTimer : DelTimer 4294967296001 one1 = Some (0, gone1).
Proof. vm_compute. reflexivity. Qed.

Lemma again1_AddTimer :
  AddTimer 1000 7 0 12%nat gone1 = (0, Some 4299262263297, again1).
Proof. vm_compute. reflexivity. Qed.

Lemma fresh2_wf : wf (fresh 2 1000).
Proof. apply fresh_wf. lia. Qed.

Lemma one1_wf : wf one1.
Proof. apply add_wf, fresh2_wf. Qed.

Lemma AddTimer_GetExpireTime_witness :
  wf (fresh 2 1000)
  ∧ AddTimer 1000 5 1 10%nat (fresh 2 1000) = (0, Some 4294967296001, one1)
  ∧ GetExpireTime 4294967296001 one1 = (0, Some (u64 (1000 + 5))).
Proof.
  split_and!; [exact fresh2_wf|exact one1_AddTimer|].
  exact (proj1 (proj2 (AddTimer_GetExpireTime 1000 5 1 10%nat (fresh 2 1000)
                         4294967296001 one1 fresh2_wf one1_AddTimer))).
Defined.

Lemma AddTimer_DelTimer_undo_witness :
  wf (fresh 2 1000)
  ∧ AddTimer 1000 5 1 10%nat (fresh 2 1000) = (0, Some 4294967296001, one1)
  ∧ ∃ st2, DelTimer 4294967296001 one1 = Some (0, st2)
      ∧ free_slots st2 = free_slots (fresh 2 1000).
Proof.
  split_and!; [exact fresh2_wf|exact one1_AddTimer|].
  destruct (AddTimer_DelTimer_undo 1000 5 1 10%nat (fresh 2 1000)
              4294967296001 one1 fresh2_wf one1_AddTimer)
    as (st2 & D & _ & F & _).
  exists st2. split; assumption.
Defined.

Lemma DelTimer_frame_witness :
  wf one1 ∧ DelTimer 4294967296001 one1 = Some (0, gone1)
  ∧ free_slots gone1 = Z.to_nat (id_pos 4294967296001) :: free_slots one1.
Proof.
  split_and!; [exact one1_wf|exact gone1_DelTimer|].
  exact (proj1 (proj2 (DelTimer_frame 4294967296001 one1 gone1
                         one1_wf gone1_DelTimer))).
Defined.

Lemma slot_reuse_new_handle_witness :
  wf (fresh 2 1000)
  ∧ AddTimer 1000 5 1 10%nat (fresh 2 1000) = (0, Some 4294967296001, one1)
  ∧ DelTimer 4294967296001 one1 = Some (0, gone1)
  ∧ AddTimer 1000 7 0 12%nat gone1 = (0, Some 4299262263297, again1)
  ∧ id_pos 4299262263297 = id_pos 4294967296001
  ∧ 4299262263297 ≠ 4294967296001.
Proof.
  split_and!; [exact fresh2_wf|exact one1_AddTimer|exact gone1_DelTimer
              |exact again1_AddTimer| |].
  - exact (proj1 (slot_reuse_new_handle 1000 5 1 10%nat 1000 7 0 12%nat
             (fresh 2 1000) 4294967296001 one1 gone1 4299262263297 again1
             fresh2_wf one1_AddTimer gone1_DelTimer again1_AddTimer)).
  - exact (proj1 (proj2 (proj2 (slot_reuse_new_handle 1000 5 1 10%nat 1000 7 0 12%nat
             (fresh 2 1000) 4294967296001 one1 gone1 4299262263297 again1
             fresh2_wf one1_AddTimer gone1_DelTimer again1_AddTimer)))).
Defined.

(** * [Update] polled once per tick *)

Section Polling.

Context {T : Type} `{!Inhabited T}.
Implicit Types (st : TimerMgr T) (p q b : nat) (l fl : list nat)
  (bl : nat → list nat).

Variable OnTimeout : Z → T → TimerMgr T → TimerMgr T.

Lemma mgr_ext st st' :
  timer_head_ st = timer_head_ st' → timer_bucket_ st = timer_bucket_ st' →
  timer_obj_ st = timer_obj_ st' → st = st'.
Proof. destruct st, st'; simpl; congruence. Qed.

Lemma upd_head_set_cur_same a t st :
  cur_bucket_pos (timer_head_ st) = a → cur_bucket_time (timer_head_ st) = t →
  upd_head (set_cur a t) st = st.
Proof.
  intros Ha Ht. apply mgr_ext; wsimpl; try done.
  destruct (timer_head_ st). simpl in *. by subst.
Qed.


(** X11. A second [Update] at a tick that has been processed calls no callback
    and changes nothing, for any callback. *)
Theorem Update_again fuel fuel' now st r st' log :
  Update OnTimeout fuel now st = Some (r, st', log) →
  Update OnTimeout fuel' now st' = Some (0, st', []).
Proof.
  intros HU.
  assert (cur_bucket_pos (timer_head_ st') = u64 now mod kTimerBucketNum
          ∧ cur_bucket_time (timer_head_ st') = u64 now) as [Hp Ht].
  { revert HU. unfold Update. cbv zeta.
    destruct (used_num (timer_head_ st) <=? 0).
    - intros [= <- <- <-]. by wsimpl.
    - destruct (wheel_count (u64 now) st =? 2^31 - 1); [done|].
      destruct (ticks _ _ _ _ _ _ _) as [[st1 log1]|]; [|done].
      intros [= <- <- <-]. by wsimpl. }
  unfold Update. cbv zeta.
  destruct (used_num (timer_head_ st') <=? 0).
  - by rewrite upd_head_set_cur_same.
  - unfold wheel_count. rewrite Ht, Z.sub_diag.
    change (to_int (u64 0)) with 0. change (0 =? 2^31 - 1) with false. cbv iota.
    change (Z.to_nat 0) with 0%nat. cbn [ticks].
    by rewrite upd_head_set_cur_same.
Qed.

Lemma chain_upd_head fuel f st p : chain fuel (upd_head f st) p = chain fuel st p.
Proof.
  revert p. induction fuel as [|k IH]; intros p; [done|].
  cbn [chain]. by rewrite obj_upd_head, IH.
Qed.

(** X12. [Update] with a clock that has not advanced since the last processed
    tick (the same tick again, or a clock set back by up to 2^31 ticks)
    invokes no callback, whatever the callback is: it only moves the clock
    of the wheel to [now]; every list, every slot and every answer of
    [GetExpireTime] stay as they were. *)
Theorem Update_not_advanced fuel now st :
  cur_bucket_time (timer_head_ st) - 2^31 ≤ u64 now ≤ cur_bucket_time (timer_head_ st) →
  ∃ st', Update OnTimeout fuel now st = Some (0, st', [])
    ∧ clock st' (u64 now)
    ∧ (∀ b, bucket_slots st' b = bucket_slots st b)
    ∧ free_slots st' = free_slots st
    ∧ Size st' = Size st
    ∧ (∀ q, obj st' q = obj st q)
    ∧ (∀ h, GetExpireTime h st' = GetExpireTime h st).
Proof.
  intros Hn.
  set (st' := upd_head (set_cur (u64 now mod kTimerBucketNum) (u64 now)) st).
  assert (Update OnTimeout fuel now st = Some (0, st', [])) as HU.
  { unfold Update. cbv zeta. destruct (used_num (timer_head_ st) <=? 0); [done|].
    assert (to_int (u64 (u64 now - cur_bucket_time (timer_head_ st))) ≤ 0) as Hw.
    { set (x := u64 now - cur_bucket_time (timer_head_ st)) in *.
      assert (- 2^31 ≤ x ≤ 0) as Hx by lia. clearbody x. unfold to_int, u64.
      rewrite <- (Z.mod_mod (x mod 2^64 + 2^31) (2^32)) by lia.
      replace ((x mod 2^64 + 2^31) mod 2^32) with ((x + 2^31) mod 2^32).
      - rewrite Z.mod_mod by lia. rewrite Z.mod_small; lia.
      - replace (2^64) with (2^32 * 2^32) by lia.
        rewrite Z.rem_mul_r by lia.
        replace (x mod 2^32 + 2^32 * ((x / 2^32) mod 2^32) + 2^31)
          with (x mod 2^32 + 2^31 + ((x / 2^32) mod 2^32) * 2^32) by lia.
        rewrite Z.mod_add by lia. by rewrite Zplus_mod_idemp_l. }
    fold (wheel_count (u64 now) st) in Hw.
    replace (wheel_count (u64 now) st =? 2^31 - 1) with false
      by (symmetry; apply Z.eqb_neq; lia).
    replace (Z.to_nat _) with 0%nat by lia. done. }
  exists st'. subst st'. split_and!; try done.
  - intros b. unfold bucket_slots.
    by rewrite objs_upd_head, bucket_head_upd_head, chain_upd_head.
  - unfold free_slots. rewrite objs_upd_head, chain_upd_head. by wsimpl.
Qed.

(** every waiting timer expires within the next 60 ticks and has an
    interval that [AddTimer] accepts: what holds while the wheel is polled
    at every tick and timers are added at the tick of the wheel *)
Definition timely st (t : Z) : Prop :=
  ∀ q, q ∈ linked st →
    t < expire (obj st q) ≤ t + kTimerBucketNum
    ∧ 0 < interval_ms (obj st q) ≤ kTimerBucketNum.

(** [Update] called at the ticks [t + 1], ..., [t + k] in turn; the result
    is the final wheel and the callback log of each call *)
Fixpoint poll (fuel : nat) (t : Z) (k : nat) st
    : option (TimerMgr T * list (list (Z * T))) :=
  match k with
  | O => Some (st, [])
  | S k' =>
      match Update OnTimeout fuel (t + 1) st with
      | None => None
      | Some (_, st', log) =>
          match poll fuel (t + 1) k' st' with
          | None => None
          | Some (st'', logs) => Some (st'', log :: logs)
          end
      end
  end.

(** the test on the fire count that [Update] makes after the callback of a
    timer whose slot is [o] *)
Definition last_shot (o : TimerObj T) : bool :=
  negb (max_fire_count o =? 0)
  && (to_int (fire_count o + 1) >=? max_fire_count o).

Lemma same_bucket_due t e :
  0 ≤ t → t < e ≤ t + 60 → e < 2^64 →
  bucket_of e = bucket_of (t + 1) ↔ e = t + 1.
Proof.
  intros Ht He Hb. split; [|by intros ->].
  rewrite !bucket_of_small by lia. intros E.
  pose proof (Z.mod_pos_bound e 60 ltac:(lia)).
  pose proof (Z.mod_pos_bound (t + 1) 60 ltac:(lia)).
  assert (e mod 60 = (t + 1) mod 60) as E' by lia.
  pose proof (Z.div_mod e 60 ltac:(lia)).
  pose proof (Z.div_mod (t + 1) 60 ltac:(lia)). lia.
Qed.

Lemma tick_step fuel st t :
  benign OnTimeout → wf st → clock st t → 0 ≤ t < 2^62 → timely st t →
  (max_num (timer_head_ st) < fuel)%nat →
  ∃ st' log, Update OnTimeout fuel (t + 1) st = Some (0, st', log)
    ∧ wf st' ∧ clock st' (t + 1) ∧ timely st' (t + 1)
    ∧ max_num (timer_head_ st') = max_num (timer_head_ st)
    ∧ log = entry st <$> bucket_slots st (bucket_of (t + 1))
    ∧ NoDup log.*1
    ∧ (∀ id, id ∈ log.*1 → live id st)
    ∧ (∀ h, live h st →
        (h ∈ log.*1 ↔ expire (obj st (Z.to_nat (id_pos h))) = t + 1)
        ∧ (h ∈ log.*1 → (h, timer_data (obj st (Z.to_nat (id_pos h)))) ∈ log
             ∧ fired OnTimeout st st' (t + 1) (Z.to_nat (id_pos h))
                 (bucket_slots st') (free_slots st'))
        ∧ (h ∉ log.*1 → live h st' ∧ same_info st st' (Z.to_nat (id_pos h)))).
Proof.
  intros Hben (bl & fl & HS) Hc Ht Hty Hf.
  set (b := bucket_of (t + 1)).
  destruct (Update_tick OnTimeout fuel st bl fl t Hben HS Hc Ht Hf)
    as (st' & bl' & fl' & HU & S' & Hc' & Hm & _ & Hk & Hfd).
  fold b in HU, Hk, Hfd.
  assert (∀ q c, q ∈ bl c → (c = b ↔ expire (obj st q) = t + 1)) as HA.
  { intros q c Hq.
    destruct (Hty q) as ((E1 & E2) & _).
    { apply (elem_of_linked _ _ _ _ _ HS). by exists c. }
    destruct (sh_live _ _ _ _ HS c q Hq) as (_ & _ & <-).
    unfold kTimerBucketNum in *. apply same_bucket_due; lia. }
  assert (∀ q, q ∈ bl b → id_pos (timer_id (obj st q)) = Z.of_nat q) as Hid.
  { intros q Hq. by destruct (sh_live _ _ _ _ HS b q Hq) as (_ & ? & _). }
  assert (∀ id, id ∈ (entry st <$> bl b).*1 ↔ ∃ q, q ∈ bl b ∧ timer_id (obj st q) = id) as HL.
  { intros id. rewrite <- list_fmap_compose, list_elem_of_fmap. split.
    - intros (q & -> & Hq). by exists q.
    - intros (q & Hq & <-). by exists q. }
  assert (∀ h, live h st → ∀ q, q ∈ bl b → timer_id (obj st q) = h →
            q = Z.to_nat (id_pos h)) as Hsame.
  { intros h _ q Hq <-. rewrite (Hid q Hq). lia. }
  exists st', (entry st <$> bl b). split_and!; try done.
  - by eexists _, _.
  - (* timely *)
    intros q (c & Hq)%(elem_of_linked _ _ _ _ _ S').
    destruct (decide (q ∈ bl b)) as [Hqb|Hqb].
    + destruct (Hfd q Hqb) as (_ & Hi & _ & _ & _ & [(_ & _ & Hfree & _)|(_ & He & _)]).
      { exfalso. apply (sh_disj _ _ _ _ S' c q Hq). apply elem_of_app. by left. }
      destruct (Hty q) as (_ & I1 & I2).
      { apply (elem_of_linked _ _ _ _ _ HS). by exists b. }
      rewrite He, Hi. unfold kTimerBucketNum in *.
      rewrite u64_small by lia. lia.
    + destruct (Hk q Hqb) as (Hi & Hb & Hfl).
      assert (∃ c0, q ∈ bl c0) as (c0 & Hq0).
      { pose proof (Shape_bucket_range _ _ _ _ _ _ S' Hq) as [Hr _]. rewrite Hm in Hr.
        apply (sh_range _ _ _ _ HS) in Hr as [Hr|Hr]; [|done].
        exfalso. rewrite app_nil_r in Hr.
        apply (sh_disj _ _ _ _ S' c q Hq). apply elem_of_app. left. by apply Hfl. }
      destruct (Hty q) as ((E1 & E2) & I).
      { apply (elem_of_linked _ _ _ _ _ HS). by exists c0. }
      destruct (same_info_fields _ _ _ Hi) as (_ & -> & _ & _ & -> & _).
      split; [|done].
      assert (expire (obj st q) ≠ t + 1); [|lia].
      intros E. apply Hqb. apply (HA q c0 Hq0) in E. by subst c0.
  - by rewrite (bucket_slots_Shape _ _ _ _ b HS).
  - rewrite <- list_fmap_compose. apply NoDup_fmap_2_strong; [|apply (sh_nodup_b _ _ _ _ HS)].
    intros q1 q2 H1 H2 E. simpl in E.
    pose proof (Hid q1 H1) as I1. rewrite E, (Hid q2 H2) in I1. lia.
  - intros id (q & Hq & <-)%HL. split.
    + apply handle_ok_true. rewrite (Hid q Hq), Nat2Z.id.
      pose proof (Shape_bucket_range _ _ _ _ _ _ HS Hq).
      destruct (sh_live _ _ _ _ HS b q Hq) as (? & _). split_and!; [lia|lia|done|done].
    + rewrite (Hid q Hq), Nat2Z.id. apply (elem_of_linked _ _ _ _ _ HS). by exists b.
  - intros h Hlive. pose proof Hlive as (Hok & (c & Hp)%(elem_of_linked _ _ _ _ _ HS)).
    apply handle_ok_true in Hok as (_ & Hti & _).
    set (p := Z.to_nat (id_pos h)) in *.
    assert (h ∈ (entry st <$> bl b).*1 ↔ p ∈ bl b) as Hin.
    { rewrite HL. split.
      - intros (q & Hq & E). by pose proof (Hsame h Hlive q Hq E) as ->.
      - intros Hq. by exists p. }
    split_and!.
    + rewrite Hin. rewrite <- (HA p c Hp). split.
      * intros Hpb. by apply (Shape_bucket_unique _ _ _ _ _ _ _ HS Hp Hpb).
      * by intros <-.
    + intros Hpb%Hin. split.
      * apply list_elem_of_fmap. exists p. split; [|done]. unfold entry. by rewrite Hti.
      * destruct (Hfd p Hpb) as (F1 & F2 & F3 & F4 & F5 & F6).
        unfold fired. cbv zeta. split_and!; try done.
        rewrite (free_slots_Shape _ _ _ _ S').
        by rewrite (bucket_slots_Shape _ _ _ _ _ S').
    + intros Hnot. assert (p ∉ bl b) as Hpb by (by rewrite <- Hin).
      destruct (Hk p Hpb) as (Hi & Hb & _). split; [|done]. split.
      * destruct Hlive as (<- & _). by apply handle_ok_same.
      * apply (elem_of_linked _ _ _ _ _ S'). exists c. by apply Hb.
Qed.

(** X13. Take a well-formed wheel whose clock is [t] (below 2^62), on which
    every waiting timer is due within the next 60 ticks, and callbacks that
    do nothing or delete only the firing timer.  Then [Update] at tick
    [t + 1] invokes the callback of exactly the waiting timers whose expiry
    is [t + 1], once each, and of nothing else; every waiting timer that is
    not fired stays live with its expiry; the wheel is then well-formed with
    clock [t + 1] and every waiting timer again due within 60 ticks. *)
Theorem Update_fires_due fuel st t :
  benign OnTimeout → wf st → clock st t → 0 ≤ t < 2^62 → timely st t →
  (max_num (timer_head_ st) < fuel)%nat →
  ∃ st' log, Update OnTimeout fuel (t + 1) st = Some (0, st', log)
    ∧ wf st' ∧ clock st' (t + 1) ∧ timely st' (t + 1)
    ∧ NoDup log.*1
    ∧ (∀ id, id ∈ log.*1 → live id st)
    ∧ (∀ h, live h st →
         (h ∈ log.*1 ↔ GetExpireTime h st = (0, Some (t + 1))))
    ∧ (∀ h, live h st → h ∉ log.*1 →
         live h st' ∧ GetExpireTime h st' = GetExpireTime h st).
Proof.
  intros Hben Hwf Hc Ht Hty Hf.
  destruct (tick_step fuel st t Hben Hwf Hc Ht Hty Hf)
    as (st' & log & HU & Hwf' & Hc' & Hty' & Hm & _ & Hnd & Hlv & Hh).
  exists st', log. split_and!; try done.
  - intros h Hl. destruct (Hh h Hl) as ((H1 & H2) & _).
    destruct Hl as (Hok & Hp). rewrite (GetExpireTime_accepts _ _ Hok).
    destruct (Hty _ Hp) as ((E1 & E2) & _). unfold kTimerBucketNum in *.
    rewrite u64_small by lia. split.
    + intros Hin. by rewrite (H1 Hin).
    + intros [= E]. by apply H2.
  - intros h Hl Hnot. destruct (Hh h Hl) as (_ & _ & H3).
    destruct (H3 Hnot) as (Hl' & Hi). split; [done|].
    by apply GetExpireTime_same.
Qed.

(** X14. Take a well-formed wheel whose clock is [t] (below 2^62), on which
    every waiting timer is due within the next 60 ticks, callbacks that do
    nothing or delete only the firing timer, and a waiting timer whose
    expiry is [t + 1].  [Update] at tick [t + 1] invokes its callback with
    its handle and payload.  If that callback does nothing and the
    incremented fire count has not reached a non-zero maximum, the timer is
    then live with expiry [t + 1 + interval].  If that callback deletes the
    timer, or the incremented fire count has reached a non-zero maximum, then
    in the resulting state the slot is on the free list and the handle is
    rejected by [GetExpireTime] and [DelTimer]. *)
Theorem Update_fired_outcome fuel st t h :
  benign OnTimeout → wf st → clock st t → 0 ≤ t < 2^62 → timely st t →
  (max_num (timer_head_ st) < fuel)%nat →
  live h st → GetExpireTime h st = (0, Some (t + 1)) →
  ∃ st' log, Update OnTimeout fuel (t + 1) st = Some (0, st', log)
    ∧ (h, timer_data (obj st (Z.to_nat (id_pos h)))) ∈ log
    ∧ (cb_keeps OnTimeout h (timer_data (obj st (Z.to_nat (id_pos h)))) →
       last_shot (obj st (Z.to_nat (id_pos h))) = false →
         live h st'
         ∧ GetExpireTime h st'
           = (0, Some (t + 1 + interval_ms (obj st (Z.to_nat (id_pos h))))))
    ∧ (cb_deletes OnTimeout h (timer_data (obj st (Z.to_nat (id_pos h))))
       ∨ last_shot (obj st (Z.to_nat (id_pos h))) = true →
         Z.to_nat (id_pos h) ∈ free_slots st'
         ∧ GetExpireTime h st' = (-1, None)
         ∧ DelTimer h st' = Some (-1, st')).
Proof.
  intros Hben Hwf Hc Ht Hty Hf Hl HG.
  destruct (tick_step fuel st t Hben Hwf Hc Ht Hty Hf)
    as (st' & log & HU & (bl' & fl' & S') & Hc' & Hty' & Hm & _ & Hnd & Hlv & Hh).
  destruct (Hh h Hl) as ((_ & H2) & H3 & _).
  pose proof Hl as (Hok & Hp).
  set (p := Z.to_nat (id_pos h)) in *.
  destruct (Hty _ Hp) as ((E1 & E2) & (I1 & I2)). unfold kTimerBucketNum in *.
  assert (h ∈ log.*1) as Hin.
  { apply H2. rewrite (GetExpireTime_accepts _ _ Hok) in HG. fold p in HG.
    rewrite u64_small in HG by lia. by injection HG. }
  destruct (H3 Hin) as (Hlog & F1 & F2 & F3 & F4 & F5 & F6).
  apply handle_ok_true in Hok as (Hr & Hti & Hu). fold p in Hti, Hu.
  rewrite Hti in F6.
  assert (exhausted (obj st' p) = last_shot (obj st p)) as Hex.
  { unfold exhausted, last_shot. by rewrite F1, F3. }
  rewrite Hex in F6.
  exists st', log. split_and!; try done.
  - intros Hkeep Hls.
    destruct F6 as [(_ & _ & _ & [F|F])|(Fu & Fe & Fb & _)]; [congruence|done|].
    assert (handle_ok h st' = true) as Hok'.
    { apply handle_ok_true. fold p. rewrite Hm, F4, Hti, Fu. done. }
    split; [split; [done|]|].
    + fold p. apply (elem_of_linked _ _ _ _ _ S'). eexists.
      rewrite <- (bucket_slots_Shape _ _ _ _ _ S'). apply Fb.
    + rewrite (GetExpireTime_accepts _ _ Hok'). fold p. rewrite Fe, u64_u64.
      rewrite u64_small by lia. done.
  - intros Hdel.
    destruct F6 as [(Fu & _ & Ff & _)|(_ & _ & _ & Fx & Fd)].
    2:{ destruct Hdel as [Hdel|Hdel]; [done|congruence]. }
    assert (handle_ok h st' = false) as Hno.
    { destruct (handle_ok h st') eqn:E; [|done].
      apply handle_ok_true in E as (_ & _ & E). by fold p in E. }
    split_and!; [done|by apply GetExpireTime_rejects|by apply DelTimer_rejects].
Qed.

Lemma timely_empty st t : linked st = [] → timely st t.
Proof. intros E q Hq. rewrite E in Hq. by apply elem_of_nil in Hq. Qed.

Lemma AddTimer_clock now iv fc (d : T) st h st' t :
  wf st → AddTimer now iv fc d st = (0, Some h, st') → clock st t → clock st' t.
Proof.
  intros (bl & fl & HS) HA.
  destruct (AddTimer_cases now iv fc d st bl fl HS)
    as [(_ & E)|[(_ & _ & E)|(_ & p & fl' & st2 & _ & E & _ & _ & _ & Hh & _)]];
    rewrite E in HA; try done.
  injection HA as <- <-. unfold clock.
  apply (f_equal (λ x, (cur_bucket_time x, cur_bucket_pos x))) in Hh.
  simpl in Hh. injection Hh as -> ->. done.
Qed.

Lemma AddTimer_timely iv fc (d : T) st h st' t :
  wf st → timely st t → 0 ≤ t < 2^62 →
  AddTimer t iv fc d st = (0, Some h, st') →
  timely st' t ∧ 0 < iv ≤ 60
  ∧ expire (obj st' (Z.to_nat (id_pos h))) = t + iv.
Proof.
  intros (bl & fl & HS) Hty Ht HA.
  destruct (AddTimer_inv _ _ _ _ _ _ _ _ _ HS HA)
    as (p & fl' & -> & Hh & Hid & Ha & S' & Hp & Hq & _).
  apply add_args_ok_true in Ha as ((I1 & _) & _). unfold kTimerBucketNum in *.
  rewrite Hid, Nat2Z.id, Hp. simpl. rewrite u64_small by lia.
  split_and!; try done; try lia.
  intros q (c & Hc)%(elem_of_linked _ _ _ _ _ S').
  destruct (decide (q = p)) as [->|Hne].
  - rewrite Hp. simpl. rewrite u64_small by lia. unfold kTimerBucketNum. lia.
  - destruct (same_info_fields _ _ _ (Hq q Hne)) as (_ & -> & _ & _ & -> & _).
    apply Hty. apply (elem_of_linked _ _ _ _ _ HS). exists c.
    destruct (decide (c = bucket_of (u64 (t + iv)))) as [->|Hcb].
    + rewrite bset_eq in Hc. by apply elem_of_cons in Hc as [?|?].
    + by rewrite bset_ne in Hc.
Qed.

(** X15. The precondition of the per-tick results is an invariant of a wheel
    that is used at the tick it has processed: it holds after a fresh [Init]
    at tick [t], and [AddTimer] at tick [t] and [DelTimer] keep it, together
    with well-formedness and the clock. *)
Theorem polled_invariant t :
  0 ≤ t < 2^62 →
  (∀ sd so (m : TimerMgr T) size n st0,
     layout_ok m n → Init sd so (Some m) size n true t = (0, Some st0) →
     wf st0 ∧ clock st0 t ∧ timely st0 t)
  ∧ (∀ st iv fc (d : T),
       wf st → clock st t → timely st t →
       wf (AddTimer t iv fc d st).2 ∧ clock (AddTimer t iv fc d st).2 t
       ∧ timely (AddTimer t iv fc d st).2 t)
  ∧ (∀ st h r st',
       wf st → clock st t → timely st t → DelTimer h st = Some (r, st') →
       wf st' ∧ clock st' t ∧ timely st' t).
Proof.
  intros Ht. split_and!.
  - intros sd so m size n st0 (Hb & Ho & Hn) E.
    destruct (Init_fresh_Shape m size n t 0 st0 sd so E Hb Ho Hn)
      as (_ & HS & _ & _ & C1 & C2 & _).
    rewrite u64_small in C1, C2 by lia.
    split_and!; [by eexists _, _|done|].
    apply timely_empty. rewrite (linked_Shape _ _ _ _ HS). apply bind_nil_const.
  - intros st iv fc d Hwf Hc Hty. pose proof Hwf as (bl & fl & HS).
    destruct (AddTimer_cases t iv fc d st bl fl HS)
      as [(_ & E)|[(_ & _ & E)|(_ & p & fl' & st2 & _ & E & S2 & _)]].
    + rewrite E. done.
    + rewrite E. done.
    + pose proof (AddTimer_clock _ _ _ _ _ _ _ _ Hwf E Hc) as Hc2.
      pose proof (proj1 (AddTimer_timely _ _ _ _ _ _ _ Hwf Hty Ht E)) as Hty2.
      rewrite E. simpl. split_and!; [by eexists _, _|done|done].
  - intros st h r st' (bl & fl & HS) Hc Hty HD.
    destruct (DelTimer_cases h st bl fl HS)
      as [E|(_ & b & l1 & l2 & st2 & Eb & E & S' & Hh & Hq & _)]; rewrite E in HD.
    + injection HD as <- <-. split_and!; [by eexists _, _|done|done].
    + injection HD as <- <-. split_and!; [by eexists _, _| |].
      * destruct (head_frame_fields _ _ Hh) as (_ & _ & H1 & H2).
        destruct Hc as (C1 & C2). split; congruence.
      * intros q (c & Hc')%(elem_of_linked _ _ _ _ _ S').
        pose proof (sh_nodup_b _ _ _ _ HS b) as Hnd. rewrite Eb in Hnd.
        apply list.NoDup_app in Hnd as (_ & N1 & N2).
        apply list.NoDup_cons in N2 as (N2 & _).
        assert (q ≠ Z.to_nat (id_pos h) ∧ q ∈ bl c) as (Hne & Hqc).
        { destruct (decide (c = b)) as [->|Hcb].
          - rewrite bset_eq in Hc'. rewrite Eb.
            apply elem_of_app in Hc' as [Hc'|Hc'].
            + split; [|apply elem_of_app; by left].
              intros ->. apply (N1 _ Hc'). by left.
            + split; [by intros ->|]. apply elem_of_app. right. by right.
          - rewrite bset_ne in Hc' by done. split; [|done].
            intros ->. apply Hcb.
            apply (Shape_bucket_unique _ _ _ _ _ _ _ HS Hc'). rewrite Eb.
            apply elem_of_app. right. by left. }
        destruct (same_info_fields _ _ _ (Hq q Hne)) as (_ & -> & _ & _ & -> & _).
        apply Hty. apply (elem_of_linked _ _ _ _ _ HS). by exists c.
Qed.

Lemma poll_due fuel h :
  benign OnTimeout → ∀ k st t,
  wf st → clock st t → 0 ≤ t → t + Z.of_nat (S k) < 2^62 → timely st t →
  live h st → expire (obj st (Z.to_nat (id_pos h))) = t + Z.of_nat (S k) →
  (max_num (timer_head_ st) < fuel)%nat →
  ∃ st' logs, poll fuel t (S k) st = Some (st', logs)
    ∧ length logs = S k
    ∧ (∀ i log, logs !! i = Some log → (h ∈ log.*1 ↔ i = k))
    ∧ (∃ log, logs !! k = Some log
         ∧ (h, timer_data (obj st (Z.to_nat (id_pos h)))) ∈ log).
Proof.
  intros Hben. induction k as [|k IH]; intros st t Hwf Hc Ht0 Ht Hty Hl He Hf.
  - destruct (tick_step fuel st t Hben Hwf Hc ltac:(lia) Hty Hf)
      as (st' & log & HU & _ & _ & _ & _ & _ & _ & _ & Hh).
    destruct (Hh h Hl) as ((_ & H2) & H3 & _).
    assert (h ∈ log.*1) as Hin by (apply H2; rewrite He; lia).
    exists st', [log]. cbn [poll]. rewrite HU. split_and!; try done.
    + intros [|i] log'; simpl; [|done]. by intros [= <-].
    + exists log. split; [done|]. by apply H3.
  - destruct (tick_step fuel st t Hben Hwf Hc ltac:(lia) Hty Hf)
      as (st1 & log & HU & Hwf1 & Hc1 & Hty1 & Hm & _ & _ & _ & Hh).
    destruct (Hh h Hl) as ((H1 & _) & _ & H4).
    assert (h ∉ log.*1) as Hnot by (intros Hin%H1; lia).
    destruct (H4 Hnot) as (Hl1 & Hi).
    destruct (same_info_fields _ _ _ Hi) as (_ & _ & _ & _ & He1 & _ & Hd1).
    destruct (IH st1 (t + 1) Hwf1 Hc1 ltac:(lia) ltac:(lia) Hty1 Hl1
                ltac:(rewrite He1, He; lia) ltac:(by rewrite Hm))
      as (st' & logs & HP & Hlen & Hi' & (log' & Hk & Hin')).
    exists st', (log :: logs). split_and!.
    + change (poll fuel t (S (S k)) st) with
        (match Update OnTimeout fuel (t + 1) st with
         | None => None
         | Some (_, st', log) =>
             match poll fuel (t + 1) (S k) st' with
             | None => None
             | Some (st'', logs) => Some (st'', log :: logs)
             end
         end).
      by rewrite HU, HP.
    + simpl. by rewrite Hlen.
    + intros [|i] lg; simpl.
      * intros [= <-]. split; [done|lia].
      * intros Hlk. rewrite (Hi' i lg Hlk). lia.
    + exists log'. split; [done|]. by rewrite <- Hd1.
Qed.

(** X16. Take a well-formed wheel whose clock is [t] (below 2^62 - 60), on
    which every waiting timer is due within the next 60 ticks, and callbacks
    that do nothing or delete only the firing timer.  A timer added at tick
    [t] with interval [iv], on a wheel that is then only polled, by [Update]
    at [t + 1], [t + 2], ... in turn, is fired by the [iv]-th of these calls,
    with the payload it was added with, and by none of the earlier ones. *)
Theorem AddTimer_fires_after_interval fuel st t iv fc (d : T) h st1 :
  benign OnTimeout → wf st → clock st t → 0 ≤ t < 2^62 - 60 → timely st t →
  AddTimer t iv fc d st = (0, Some h, st1) →
  (max_num (timer_head_ st) < fuel)%nat →
  ∃ st' logs, poll fuel t (Z.to_nat iv) st1 = Some (st', logs)
    ∧ Z.of_nat (length logs) = iv
    ∧ (∀ i log, logs !! i = Some log → (h ∈ log.*1 ↔ Z.of_nat i + 1 = iv))
    ∧ (∃ log, logs !! (Z.to_nat iv - 1)%nat = Some log ∧ (h, d) ∈ log).
Proof.
  intros Hben Hwf Hc Ht Hty HA Hf.
  destruct (AddTimer_timely iv fc d st h st1 t Hwf Hty ltac:(lia) HA)
    as (Hty1 & Hiv & He).
  pose proof (AddTimer_clock _ _ _ _ _ _ _ _ Hwf HA Hc) as Hc1.
  pose proof (AddTimer_wf t iv fc d st Hwf) as Hwf1. rewrite HA in Hwf1. simpl in Hwf1.
  destruct Hwf as (bl & fl & HS).
  destruct (AddTimer_inv _ _ _ _ _ _ _ _ _ HS HA)
    as (p & fl' & -> & Hh & Hid & _ & S' & Hp & _ & Hm & _ & _ & Hok).
  assert (live h st1) as Hl.
  { split; [done|]. rewrite Hid, Nat2Z.id. apply (elem_of_linked _ _ _ _ _ S').
    eexists. rewrite bset_eq. by left. }
  destruct (Z.to_nat iv) as [|k] eqn:Ek; [lia|].
  destruct (poll_due fuel h Hben k st1 t Hwf1 Hc1 ltac:(lia) ltac:(lia) Hty1 Hl
              ltac:(rewrite He; lia) ltac:(by rewrite Hm))
    as (st' & logs & HP & Hlen & Hi & (log & Hk & Hin)).
  exists st', logs. split_and!; try done.
  - lia.
  - intros i lg Hlk. rewrite (Hi i lg Hlk). lia.
  - exists log. replace (S k - 1)%nat with k by lia. split; [done|].
    revert Hin. by rewrite Hid, Nat2Z.id, Hp.
Qed.

(** X17. Take a well-formed wheel whose clock is [t] (below 2^62) and
    callbacks that do nothing or delete only the firing timer.  A timer
    added at tick [t] with interval 1 is the first to be fired by [Update]
    at tick [t + 1]; the callbacks that follow are those that [Update] at
    [t + 1] would have made without the new timer, in the same order. *)
Theorem AddTimer_fires_first fuel st t fc (d : T) h st1 :
  benign OnTimeout → wf st → clock st t → 0 ≤ t < 2^62 →
  AddTimer t 1 fc d st = (0, Some h, st1) →
  (max_num (timer_head_ st) < fuel)%nat →
  ∃ st' st1' log,
    Update OnTimeout fuel (t + 1) st = Some (0, st', log)
    ∧ Update OnTimeout fuel (t + 1) st1 = Some (0, st1', (h, d) :: log).
Proof.
  intros Hben Hwf Hc Ht HA Hf.
  pose proof (AddTimer_clock _ _ _ _ _ _ _ _ Hwf HA Hc) as Hc1.
  destruct Hwf as (bl & fl & HS).
  destruct (AddTimer_inv _ _ _ _ _ _ _ _ _ HS HA)
    as (p & fl' & -> & Hh & Hid & _ & S' & Hp & Hq & Hm & _).
  rewrite u64_small in S', Hp by lia.
  destruct (Update_tick OnTimeout fuel st bl (p :: fl') t Hben HS Hc Ht Hf)
    as (st' & _ & _ & HU & _).
  destruct (Update_tick OnTimeout fuel st1 _ fl' t Hben S' Hc1 Ht ltac:(by rewrite Hm))
    as (st1' & _ & _ & HU1 & _).
  exists st', st1', (entry st <$> bl (bucket_of (t + 1))). split; [done|].
  rewrite HU1, bset_eq. rewrite fmap_cons. do 3 f_equal.
  - unfold entry. by rewrite Hp.
  - apply list_fmap_ext. intros i q Hin%list_elem_of_lookup_2.
    assert (q ≠ p) as Hne.
    { intros ->. apply (sh_disj _ _ _ _ HS _ _ Hin). simpl. by left. }
    destruct (same_info_fields _ _ _ (Hq q Hne)) as (_ & _ & _ & _ & _ & Hi & Hd).
    unfold entry. by rewrite Hi, Hd.
Qed.

End Polling.

(** a one-shot timer due at the next tick, a second one added after it, and
    the wheel [one1] after the tick at which its timer fires *)
Definition due1 : TimerMgr nat := add 1000 1 1 10%nat (fresh 2 1000).

Definition due2 : TimerMgr nat := add 1000 1 1 11%nat due1.

Definition ticked1 : TimerMgr nat :=
  match Update keep 3 1005 one1 with
  | Some (_, st, _) => st
  | None => one1
  end.

Lemma due1_AddTimer :
  AddTimer 1000 1 1 10%nat (fresh 2 1000) = (0, Some 4294967296001, due1).
Proof. vm_compute. reflexivity. Qed.

Lemma due2_AddTimer :
  AddTimer 1000 1 1 11%nat due1 = (0, Some 4299262263298, due2).
Proof. vm_compute. reflexivity. Qed.

Lemma ticked1_Update :
  Update keep 3 1005 one1 = Some (0, ticked1, [(4294967296001, 10%nat)]).
Proof. vm_compute. reflexivity. Qed.

Lemma fresh2_clock : clock (fresh 2 1000) 1000.
Proof. split; vm_compute; reflexivity. Qed.

Lemma fresh2_timely : timely (fresh 2 1000) 1000.
Proof. apply timely_empty. vm_compute. reflexivity. Qed.

Lemma one1_clock : clock one1 1000.
Proof.
  exact (AddTimer_clock 1000 5 1 10%nat (fresh 2 1000) 4294967296001 one1 1000
           fresh2_wf one1_AddTimer fresh2_clock).
Qed.

Lemma one1_timely : timely one1 1000.
Proof.
  apply (AddTimer_timely 5 1 10%nat (fresh 2 1000) 4294967296001 one1 1000
           fresh2_wf fresh2_timely ltac:(lia) one1_AddTimer).
Qed.

Lemma due1_wf : wf due1.
Proof. apply add_wf, fresh2_wf. Qed.

Lemma due1_clock : clock due1 1000.
Proof.
  exact (AddTimer_clock 1000 1 1 10%nat (fresh 2 1000) 4294967296001 due1 1000
           fresh2_wf due1_AddTimer fresh2_clock).
Qed.

Lemma due1_timely : timely due1 1000.
Proof.
  apply (AddTimer_timely 1 1 10%nat (fresh 2 1000) 4294967296001 due1 1000
           fresh2_wf fresh2_timely ltac:(lia) due1_AddTimer).
Qed.

Lemma due1_live : live 4294967296001 due1.
Proof.
  exact (AddTimer_live 1000 1 1 10%nat (fresh 2 1000) 4294967296001 due1
           fresh2_wf due1_AddTimer).
Qed.


Lemma due1_fuel : (max_num (timer_head_ due1) < 3)%nat.
Proof. vm_compute. lia. Qed.

Lemma fresh2_fuel : (max_num (timer_head_ (fresh 2 1000)) < 3)%nat.
Proof. vm_compute. lia. Qed.


Lemma Update_again_witness :
  Update keep 3 1005 one1 = Some (0, ticked1, [(4294967296001, 10%nat)])
  ∧ Update keep 7 1005 ticked1 = Some (0, ticked1, []).
Proof.
  split; [exact ticked1_Update|].
  exact (Update_again keep 3 7 1005 one1 0 ticked1 _ ticked1_Update).
Defined.

Lemma Update_fires_due_witness :
  benign keep ∧ wf due1 ∧ clock due1 1000 ∧ timely due1 1000
  ∧ ∃ st' log, Update keep 3 (1000 + 1) due1 = Some (0, st', log)
      ∧ (4294967296001 ∈ log.*1
         ↔ GetExpireTime 4294967296001 due1 = (0, Some (1000 + 1))).
Proof.
  split_and!; [exact keep_benign|exact due1_wf|exact due1_clock|exact due1_timely|].
  destruct (Update_fires_due keep 3 due1 1000 keep_benign due1_wf due1_clock
              ltac:(lia) due1_timely due1_fuel)
    as (st' & log & HU & _ & _ & _ & _ & _ & Hh & _).
  exists st', log. split; [exact HU|]. apply Hh. exact due1_live.
Defined.

Lemma Update_fired_outcome_witness :
  live 4294967296001 due1
  ∧ GetExpireTime 4294967296001 due1 = (0, Some (1000 + 1))
  ∧ ∃ st' log, Update keep 3 (1000 + 1) due1 = Some (0, st', log)
      ∧ (4294967296001, timer_data (obj due1 (Z.to_nat (id_pos 4294967296001)))) ∈ log.
Proof.
  assert (GetExpireTime 4294967296001 due1 = (0, Some (1000 + 1))) as HG
    by (vm_compute; reflexivity).
  split_and!; [exact due1_live|exact HG|].
  destruct (Update_fired_outcome keep 3 due1 1000 4294967296001 keep_benign due1_wf
              due1_clock ltac:(lia) due1_timely due1_fuel due1_live HG)
    as (st' & log & HU & Hin & _).
  exists st', log. split; assumption.
Defined.

Lemma AddTimer_fires_after_interval_witness :
  benign keep ∧ wf (fresh 2 1000) ∧ clock (fresh 2 1000) 1000
  ∧ timely (fresh 2 1000) 1000
  ∧ AddTimer 1000 5 1 10%nat (fresh 2 1000) = (0, Some 4294967296001, one1)
  ∧ ∃ st' logs, poll keep 3 1000 (Z.to_nat 5) one1 = Some (st', logs)
      ∧ Z.of_nat (length logs) = 5
      ∧ (∀ i log, logs !! i = Some log →
           (4294967296001 ∈ log.*1 ↔ Z.of_nat i + 1 = 5))
      ∧ (∃ log, logs !! (Z.to_nat 5 - 1)%nat = Some log
           ∧ (4294967296001, 10%nat) ∈ log).
Proof.
  split_and!; [exact keep_benign|exact fresh2_wf|exact fresh2_clock
              |exact fresh2_timely|exact one1_AddTimer|].
  apply (AddTimer_fires_after_interval keep 3 (fresh 2 1000) 1000 5 1 10%nat
           4294967296001 one1 keep_benign fresh2_wf fresh2_clock ltac:(lia)
           fresh2_timely one1_AddTimer fresh2_fuel).
Defined.

Lemma AddTimer_fires_first_witness :
  benign keep ∧ wf due1 ∧ clock due1 1000
  ∧ AddTimer 1000 1 1 11%nat due1 = (0, Some 4299262263298, due2)
  ∧ ∃ st' st1' log,
      Update keep 3 (1000 + 1) due1 = Some (0, st', log)
      ∧ Update keep 3 (1000 + 1) due2
        = Some (0, st1', (4299262263298, 11%nat) :: log).
Proof.
  split_and!; [exact keep_benign|exact due1_wf|exact due1_clock|exact due2_AddTimer|].
  apply (AddTimer_fires_first keep 3 due1 1000 1 11%nat 4299262263298 due2
           keep_benign due1_wf due1_clock ltac:(lia) due2_AddTimer due1_fuel).
Defined.

Lemma Update_not_advanced_witness :
  cur_bucket_time (timer_head_ one1) - 2^31 ≤ u64 990
    ≤ cur_bucket_time (timer_head_ one1)
  ∧ ∃ st', Update keep 3 990 one1 = Some (0, st', [])
      ∧ clock st' (u64 990)
      ∧ (∀ b, bucket_slots st' b = bucket_slots one1 b)
      ∧ free_slots st' = free_slots one1
      ∧ Size st' = Size one1
      ∧ (∀ q, obj st' q = obj one1 q)
      ∧ (∀ h, GetExpireTime h st' = GetExpireTime h one1).
Proof.
  assert (cur_bucket_time (timer_head_ one1) - 2^31 ≤ u64 990
          ≤ cur_bucket_time (timer_head_ one1)) as H
    by (vm_compute; split; discriminate).
  split; [exact H|]. exact (Update_not_advanced keep 3 990 one1 H).
Defined.

Lemma polled_invariant_witness :
  0 ≤ 1000 < 2^62
  ∧ wf (fresh 2 1000) ∧ clock (fresh 2 1000) 1000 ∧ timely (fresh 2 1000) 1000
  ∧ wf (AddTimer 1000 5 1 10%nat (fresh 2 1000)).2
  ∧ clock (AddTimer 1000 5 1 10%nat (fresh 2 1000)).2 1000
  ∧ timely (AddTimer 1000 5 1 10%nat (fresh 2 1000)).2 1000.
Proof.
  assert (0 ≤ 1000 < 2^62) as H by lia.
  split_and!; [lia|lia|exact fresh2_wf|exact fresh2_clock|exact fresh2_timely|..];
    apply (proj1 (proj2 (polled_invariant (T:=nat) 1000 H)) (fresh 2 1000) 5 1 10%nat
             fresh2_wf fresh2_clock fresh2_timely).
Defined.
